(** * PSN welfare registry: the IP gate, the mail dispatcher, the next-of-kin
      resolver on the dashboard and the backup service, embedded from the
      JavaScript sources and checked against the written specification. *)

From Stdlib Require Import ZArith NArith String Ascii List Bool Lia.
From stdpp Require Import base option list strings gmap.
Import ListNotations.

Local Open Scope string_scope.
Local Open Scope Z_scope.
Local Open Scope list_scope.

(** ** JavaScript values and the primitives the sources rely on *)

Module JS.

(** Numbers that the modelled code computes are integers or NaN.  The
    model is exact as long as a parsed literal stays below 2^53. *)
Inductive number : Type :=
| NaN
| Int (z : Z).

Inductive value : Type :=
| Undefined
| Num (n : number)
| Str (s : string).

Inductive exn : Type :=
| TypeError (message : string)
| Error (message : string).

Definition message (e : exn) : string :=
  match e with
  | TypeError m => m
  | Error m => m
  end.

(** Completion of a call: a value or a thrown exception. *)
Inductive result (A : Type) : Type :=
| Ok (a : A)
| Throw (e : exn).
Arguments Ok {A} a.
Arguments Throw {A} e.

Definition bind {A B} (r : result A) (k : A -> result B) : result B :=
  match r with
  | Ok a => k a
  | Throw e => Throw e
  end.

(** ToUint32 and ToInt32 of ECMA-262, on integers. *)
Definition ToUint32 (z : Z) : Z := z mod 2 ^ 32.

Definition ToInt32 (z : Z) : Z :=
  let u := z mod 2 ^ 32 in
  if 2 ^ 31 <=? u then u - 2 ^ 32 else u.

Definition int32_of (n : number) : Z :=
  match n with
  | NaN => 0
  | Int z => ToInt32 z
  end.

Definition uint32_of (n : number) : Z :=
  match n with
  | NaN => 0
  | Int z => ToUint32 z
  end.

(** [a << b]: the shift count is taken modulo 32. *)
Definition shl (a b : number) : number :=
  Int (ToInt32 (Z.shiftl (int32_of a) (Z.land (uint32_of b) 31))).

(** [a >>> b] *)
Definition ushr (a b : number) : number :=
  Int (Z.shiftr (uint32_of a) (Z.land (uint32_of b) 31)).

(** [a & b] *)
Definition band (a b : number) : number :=
  Int (Z.land (int32_of a) (int32_of b)).

Definition add (a b : number) : number :=
  match a, b with
  | Int x, Int y => Int (x + y)
  | _, _ => NaN
  end.

Definition sub (a b : number) : number :=
  match a, b with
  | Int x, Int y => Int (x - y)
  | _, _ => NaN
  end.

(** [a === b] on numbers: NaN is not equal to itself. *)
Definition num_strict_eq (a b : number) : bool :=
  match a, b with
  | Int x, Int y => x =? y
  | _, _ => false
  end.

(** Truthiness of a string: only the empty string is falsy. *)
Definition truthy (s : string) : bool :=
  match s with
  | EmptyString => false
  | String _ _ => true
  end.

(** [s.includes(c)] for a one-character needle. *)
Fixpoint includes (c : ascii) (s : string) : bool :=
  match s with
  | EmptyString => false
  | String d r => if Ascii.eqb c d then true else includes c r
  end.

(** [s.startsWith(p)] *)
Fixpoint startsWith (p s : string) : bool :=
  match p, s with
  | EmptyString, _ => true
  | String a p', String b s' => if Ascii.eqb a b then startsWith p' s' else false
  | String _ _, EmptyString => false
  end.

(** [s.split(c)] for a one-character separator: the pieces between the
    separators, so that the empty string splits into one empty piece. *)
Fixpoint split (c : ascii) (s : string) : list string :=
  match s with
  | EmptyString => [EmptyString]
  | String d r =>
      if Ascii.eqb c d then EmptyString :: split c r
      else match split c r with
           | [] => [String d EmptyString]
           | p :: ps => String d p :: ps
           end
  end.

(** A JavaScript string is a sequence of UTF-16 code units.  A [string]
    of this development stands for the JavaScript string whose code
    units are the codes of its characters, all below 256; where the
    answer of a function depends on what it does with any code unit (the
    validators, the profile score), its argument is the list of code
    units itself. *)
Definition units (s : string) : list N := map N_of_ascii (list_ascii_of_string s).

(** White space and line terminators of ECMA-262, which are what [\s]
    matches, what [trim] strips and what [parseInt] skips: U+0009 to
    U+000D, U+0020, U+00A0, U+1680, U+2000 to U+200A, U+2028, U+2029,
    U+202F, U+205F, U+3000 and U+FEFF. *)
Definition is_white_space (u : N) : bool :=
  (((9 <=? u) && (u <=? 13)) || (u =? 32) || (u =? 160) || (u =? 5760)
   || ((8192 <=? u) && (u <=? 8202)) || (u =? 8232) || (u =? 8233)
   || (u =? 8239) || (u =? 8287) || (u =? 12288) || (u =? 65279))%N.

(** The same on a character of a [string]: of the white space only
    U+0009 to U+000D, U+0020 and U+00A0 lie below 256. *)
Definition is_space (c : ascii) : bool := is_white_space (N_of_ascii c).

Fixpoint skip_space (s : string) : string :=
  match s with
  | String c r => if is_space c then skip_space r else s
  | EmptyString => s
  end.

Definition digit_value (c : ascii) : option Z :=
  let n := Z.of_nat (nat_of_ascii c) in
  if (48 <=? n) && (n <=? 57) then Some (n - 48)
  else if (97 <=? n) && (n <=? 122) then Some (n - 87)
  else if (65 <=? n) && (n <=? 90) then Some (n - 55)
  else None.

(** The longest prefix of radix-[r] digits, read as a number; [acc] is
    [None] while no digit has been seen. *)
Fixpoint read_digits (r : Z) (s : string) (acc : option Z) : option Z :=
  match s with
  | EmptyString => acc
  | String c rest =>
      match digit_value c with
      | Some d =>
          if d <? r then read_digits r rest (Some (r * default 0 acc + d))
          else acc
      | None => acc
      end
  end.

Definition strip_sign (s : string) : Z * string :=
  match s with
  | String "-" r => (-1, r)
  | String "+" r => (1, r)
  | _ => (1, s)
  end.

Definition strip_hex_prefix (s : string) : option string :=
  match s with
  | String "0" (String "x" r) => Some r
  | String "0" (String "X" r) => Some r
  | _ => None
  end.

(** [parseInt(s, radix)]; [radix = None] is a call without radix. *)
Definition parseInt (s : string) (radix : option Z) : number :=
  let '(sign, body) := strip_sign (skip_space s) in
  let r0 := from_option ToInt32 0 radix in
  if negb (r0 =? 0) && ((r0 <? 2) || (36 <? r0)) then NaN
  else
    let strip := (r0 =? 0) || (r0 =? 16) in
    let r1 := if r0 =? 0 then 10 else r0 in
    let '(r, digits) :=
      match (if strip then strip_hex_prefix body else None) with
      | Some rest => (16, rest)
      | None => (r1, body)
      end in
    match read_digits r digits None with
    | Some v => Int (sign * v)
    | None => NaN
    end.

End JS.

(** ** The IP access gate (class [IPWhitelist]) *)

Module IPGate.
Import JS.

(** A JavaScript [Set] of strings: its elements in insertion order. *)
Definition set_has (v : value) (s : list string) : bool :=
  match v with
  | Str x => bool_decide (x ∈ s)
  | _ => false
  end.

Definition set_add (x : string) (s : list string) : list string :=
  if bool_decide (x ∈ s) then s else s ++ [x].

(** [ipToLong(ip)]: [ip.split('.')] exists on strings only. *)
Definition ipToLong (ip : value) : result number :=
  match ip with
  | Str s =>
      Ok (ushr (fold_left (fun acc octet => add (shl acc (Int 8)) (parseInt octet (Some 10)))
                          (split "." s) (Int 0))
               (Int 0))
  | Num _ => Throw (TypeError "ip.split is not a function")
  | Undefined => Throw (TypeError "Cannot read properties of undefined (reading 'split')")
  end.

(** [cidrToMask(prefix)]: [(-1 << (32 - prefix)) >>> 0] *)
Definition cidrToMask (prefix : number) : number :=
  ushr (shl (Int (-1)) (sub (Int 32) prefix)) (Int 0).

(** The comparison on line 128: [(ipLong & maskLong) === (rangeIPLong & maskLong)]. *)
Definition mask_compare (ipLong rangeIPLong maskLong : number) : bool :=
  num_strict_eq (band ipLong maskLong) (band rangeIPLong maskLong).

Definition strict_eq_str (v : value) (s : string) : bool :=
  match v with
  | Str x => bool_decide (x = s)
  | _ => false
  end.

(** [isIPInRange(ip, range)] *)
Definition isIPInRange (ip : value) (range : string) : result bool :=
  if includes "/" range then
    let parts := split "/" range in
    let rangeIP := nth 0 parts EmptyString in
    let prefix := nth 1 parts EmptyString in
    let mask := cidrToMask (parseInt prefix None) in
    bind (ipToLong ip) (fun ipLong =>
    bind (ipToLong (Str rangeIP)) (fun rangeIPLong =>
    bind (ipToLong (Num mask)) (fun maskLong =>
    Ok (mask_compare ipLong rangeIPLong maskLong))))
  else Ok (strict_eq_str ip range).

(** The [for ... of] loop of [isIPAllowed]. *)
Fixpoint scan_ranges (ip : value) (entries : list string) : result bool :=
  match entries with
  | [] => Ok false
  | whitelistedIP :: rest =>
      bind (isIPInRange ip whitelistedIP) (fun hit =>
      if hit then Ok true else scan_ranges ip rest)
  end.

(** [isIPAllowed(ip)] *)
Definition isIPAllowed (whitelist : list string) (ip : value) : result bool :=
  if set_has ip whitelist then Ok true else scan_ranges ip whitelist.

Record Request : Type := {
  req_ip : value;
  x_forwarded_for : option string;
  remoteAddress : value;
  path : string;
  user_id : value;
  user_agent : value
}.

Definition value_truthy (v : value) : bool :=
  match v with
  | Undefined => false
  | Num NaN => false
  | Num (Int z) => negb (z =? 0)
  | Str s => truthy s
  end.

(** [a || b] *)
Definition or_else (a b : value) : value :=
  if value_truthy a then a else b.

(** [getClientIP(req)] *)
Definition getClientIP (req : Request) : value :=
  or_else (req_ip req)
    (or_else (match x_forwarded_for req with
              | Some h => Str (nth 0 (split "," h) EmptyString)
              | None => Undefined
              end)
             (remoteAddress req)).

Inductive log_entry : Type :=
| WarnUnauthorizedAdmin (clientIP : value) (path : string) (user agent : value)
| WarnBlocked (clientIP : value) (path : string) (user agent : value).

(** How a call of the middleware ends: [next()], a JSON response with a
    status, or an exception that escapes to the framework. *)
Inductive outcome : Type :=
| Next
| Json (status : Z) (error message : string)
| Raised (e : exn).

Definition admin_denied : outcome :=
  Json 403 "Access denied" "Admin access restricted to authorized IP addresses".

Definition access_denied : outcome :=
  Json 403 "Access denied" "Your IP address is not authorized to access this resource".

(** [middleware(req, res, next)] over the contents of the two sets. *)
Definition middleware (whitelist adminIPs : list string) (req : Request)
  : list log_entry * outcome :=
  let clientIP := getClientIP req in
  if bool_decide (path req = "/health") then ([], Next)
  else if startsWith "/api/auth" (path req) then ([], Next)
  else if set_has clientIP whitelist then ([], Next)
  else if startsWith "/api/admin" (path req) then
    if set_has clientIP adminIPs then ([], Next)
    else ([WarnUnauthorizedAdmin clientIP (path req) (user_id req) (user_agent req)],
          admin_denied)
  else
    match isIPAllowed whitelist clientIP with
    | Throw e => ([], Raised e)
    | Ok true => ([], Next)
    | Ok false =>
        ([WarnBlocked clientIP (path req) (user_id req) (user_agent req)],
         access_denied)
    end.

(** *** The cached sets and their reload

    The instance keeps two references to [Set] objects.  The sets live
    in a heap so that holding a reference and mutating the object it
    points to are kept apart. *)

Definition loc : Type := nat.

Record entry : Type := {
  ipAddress : string;
  isAdminIP : bool
}.

Inductive load_log : Type :=
| InfoLoaded (regular admin : nat)
| ErrorLoadFailed (e : exn).

Record Store : Type := {
  heap : gmap loc (list string);
  this_whitelist : loc;
  this_adminIPs : loc;
  logged : list load_log
}.

Definition contents (st : Store) (l : loc) : list string :=
  default [] (heap st !! l).

Definition with_heap (st : Store) (h : gmap loc (list string)) : Store :=
  {| heap := h;
     this_whitelist := this_whitelist st;
     this_adminIPs := this_adminIPs st;
     logged := logged st |}.

Definition with_log (st : Store) (e : load_log) : Store :=
  {| heap := heap st;
     this_whitelist := this_whitelist st;
     this_adminIPs := this_adminIPs st;
     logged := logged st ++ [e] |}.

(** The statements of the body of [loadWhitelist] after its [await]. *)
Inductive stmt : Type :=
| Clear (target : Store -> loc)
| AddTo (target : Store -> loc) (x : string)
| LogInfo.

Definition exec (st : Store) (s : stmt) : Store :=
  match s with
  | Clear target => with_heap st (<[target st := []]> (heap st))
  | AddTo target x =>
      with_heap st (<[target st := set_add x (contents st (target st))]> (heap st))
  | LogInfo =>
      with_log st (InfoLoaded (length (contents st (this_whitelist st)))
                              (length (contents st (this_adminIPs st))))
  end.

Definition add_entry (e : entry) : stmt :=
  if isAdminIP e then AddTo this_adminIPs (ipAddress e)
  else AddTo this_whitelist (ipAddress e).

Definition reload_stmts (whitelistEntries : list entry) : list stmt :=
  [Clear this_whitelist; Clear this_adminIPs]
    ++ map add_entry whitelistEntries ++ [LogInfo].

(** The continuation of [loadWhitelist] once [findMany] has settled: it
    runs to its end without another [await]. *)
Definition loadWhitelist_resume (found : result (list entry)) (st : Store) : Store :=
  match found with
  | Ok whitelistEntries => fold_left exec (reload_stmts whitelistEntries) st
  | Throw e => with_log st (ErrorLoadFailed e)
  end.

(** [loadWhitelist()] as the sequence of its synchronous turns: the
    first one issues the query and suspends, the second one is the
    continuation.  Other callbacks of the process (the middleware among
    them) run between turns and never inside one. *)
Definition loadWhitelist (found : result (list entry)) : list (Store -> Store) :=
  [fun st => st; loadWhitelist_resume found].

(** The stores at which another callback can run while the turns of an
    async call are executed from [st]. *)
Fixpoint between_turns (turns : list (Store -> Store)) (st : Store) : list Store :=
  match turns with
  | [] => [st]
  | t :: rest => st :: between_turns rest (t st)
  end.

(** The stores passed through inside the continuation, statement by
    statement. *)
Fixpoint inside_turn (stmts : list stmt) (st : Store) : list Store :=
  match stmts with
  | [] => [st]
  | s :: rest => st :: inside_turn rest (exec st s)
  end.

(** The middleware reading the sets through the instance's references. *)
Definition middleware_at (st : Store) (req : Request) : list log_entry * outcome :=
  middleware (contents st (this_whitelist st)) (contents st (this_adminIPs st)) req.

(** The sets a reload is meant to install. *)
Definition regular_of (es : list entry) : list string :=
  fold_left (fun s x => set_add x s)
            (map ipAddress (List.filter (fun e => negb (isAdminIP e)) es)) [].

Definition admin_of (es : list entry) : list string :=
  fold_left (fun s x => set_add x s)
            (map ipAddress (List.filter isAdminIP es)) [].

(** *** The decision rule and the CIDR match as the specification words them *)

(** The 32-bit mask with [p] leading one bits. *)
Definition spec_mask (p : Z) : Z := 2 ^ 32 - 2 ^ (32 - p).



Definition passes (o : outcome) : bool :=
  match o with
  | Next => true
  | _ => false
  end.

(** A request that reaches the server directly, with [req.ip] set. *)
Definition direct_request (p ip : string) : Request :=
  {| req_ip := Str ip; x_forwarded_for := None; remoteAddress := Undefined;
     path := p; user_id := Undefined; user_agent := Undefined |}.

(** A store whose general set holds one address and whose admin set is
    empty, and a table with one other address. *)
Definition one_address_store : Store :=
  {| heap := {[ 0%nat := ["10.0.0.1"]; 1%nat := [] ]};
     this_whitelist := 0%nat; this_adminIPs := 1%nat; logged := [] |}.

Definition other_address_table : list entry :=
  [ {| ipAddress := "10.0.0.2"; isAdminIP := false |} ].

End IPGate.

(** ** Effectful code: a state and exception monad

    An [async] method is run to completion here: each [await] is the
    point where the awaited operation acts on the state. *)

Module Eff.
Import JS.

Definition M (S A : Type) : Type := S -> S * result A.

Definition ret {S A} (a : A) : M S A := fun s => (s, Ok a).

Definition throw {S A} (e : exn) : M S A := fun s => (s, Throw e).

Definition bind {S A B} (m : M S A) (k : A -> M S B) : M S B :=
  fun s =>
    match m s with
    | (s', Ok a) => k a s'
    | (s', Throw e) => (s', Throw e)
    end.

(** [try { m } catch (e) { h e }]: what [m] did to the state stays. *)
Definition try_catch {S A} (m : M S A) (h : exn -> M S A) : M S A :=
  fun s =>
    match m s with
    | (s', Ok a) => (s', Ok a)
    | (s', Throw e) => h e s'
    end.

Definition modify {S} (f : S -> S) : M S unit := fun s => (f s, Ok tt).

Definition lift {S A} (r : result A) : M S A := fun s => (s, r).

End Eff.

Notation "x <- m ;; k" := (Eff.bind m (fun x => k))
  (at level 90, m at next level, right associativity).
Notation "m ;;; k" := (Eff.bind m (fun _ => k))
  (at level 90, right associativity).

(** ** The mail service (class [EmailService]) *)

Module Email.
Import JS Eff.

(** The flat key/value object handed to a template. *)
Abbreviation context := (gmap string value).

(** [{...a, ...b}]: the keys of [b] win. *)
Definition spread (a b : context) : context := b ∪ a.

(** A compiled template renders a context or throws. *)
Definition template : Type := context -> result string.

Record MailOptions : Type := {
  from : string;
  to : string;
  subject : string;
  html : string;
  text : string
}.

Record Info : Type := { messageId : string }.

(** What the callers of [sendEmail] get back. *)
Inductive send_result : Type :=
| Sent (messageId to subject : string)
| Failed (error to subject : string)
| FailedInBulk (error to : string).

Definition success (r : send_result) : bool :=
  match r with
  | Sent _ _ _ => true
  | _ => false
  end.

Definition result_to (r : send_result) : string :=
  match r with
  | Sent _ t _ => t
  | Failed _ t _ => t
  | FailedInBulk _ t => t
  end.

(** What a run does to the outside, in the order it does it. *)
Inductive event : Type :=
| SendMail (options : MailOptions)
| Delay (ms : Z)
| ConsoleLog (line : string)
| ConsoleError (line : string).

Record Env : Type := {
  year : Z;
  FRONTEND_URL : option string;
  SMTP_FROM : option string;
  SMTP_USER : option string
}.

Record Recipient : Type := {
  email : string;
  variables : option context
}.

Record Summary : Type := {
  total : nat;
  sent : nat;
  failed : nat;
  results : list send_result
}.

(** Names that every plain object answers to through [Object.prototype]. *)
Definition object_prototype_keys : list string :=
  ["constructor"; "toString"; "toLocaleString"; "valueOf"; "hasOwnProperty";
   "isPrototypeOf"; "propertyIsEnumerable"; "__proto__"; "__defineGetter__";
   "__defineSetter__"; "__lookupGetter__"; "__lookupSetter__"].

Inductive property : Type :=
| Own (t : template)
| Inherited (name : string)
| Missing.

(** [this.templates[templateName]] on a plain object. *)
Definition get_template (templates : gmap string template) (templateName : string)
  : property :=
  match templates !! templateName with
  | Some t => Own t
  | None =>
      if bool_decide (templateName ∈ object_prototype_keys) then Inherited templateName
      else Missing
  end.

Definition dquote : string := String "034" EmptyString.

(** [a || b] on possibly undefined strings. *)
Definition or_str (a : option string) (b : option string) : option string :=
  match a with
  | Some s => if truthy s then a else b
  | None => b
  end.

(** A template literal prints an undefined value as [undefined]. *)
Definition show (a : option string) : string := default "undefined" a.

Section Service.
Variable World : Type.

(** The transport: [sendMail] acts on the outside world and resolves
    with an info object or rejects. *)
Definition transport : Type := World -> MailOptions -> World * result Info.

Record Service : Type := {
  transporter : option transport;
  templates : gmap string template
}.

Record State : Type := {
  world : World;
  trace : list event
}.

Definition emit (e : event) : M State unit :=
  modify (fun st => {| world := world st; trace := trace st ++ [e] |}).

(** [await this.transporter.sendMail(mailOptions)] *)
Definition sendMail (svc : Service) (options : MailOptions) : M State Info :=
  match transporter svc with
  | None => throw (TypeError "Cannot read properties of null (reading 'sendMail')")
  | Some t =>
      fun st =>
        let '(w, r) := t (world st) options in
        ({| world := w; trace := trace st ++ [SendMail options] |}, r)
  end.

Variable env : Env.

(** [htmlToText] is a chain of [String.prototype.replace] calls and a
    [trim]: a function from strings to strings. *)
Variable htmlToText : string -> string.

(** Calling a property inherited from [Object.prototype] as if it were
    a template and passing what it returns on to [htmlToText]: the
    string that comes back, or the exception of whichever step throws.
    This is engine code, not code of the repository. *)
Variable call_inherited : string -> context -> result string.

Definition render (p : property) (templateName : string) (ctx : context)
  : result string :=
  match p with
  | Missing => Throw (Error ("Template " +:+ dquote +:+ templateName +:+ dquote +:+ " not found"))
  | Own t => t ctx
  | Inherited name => call_inherited name ctx
  end.

(** [sendEmail(to, subject, templateName, data)] *)
Definition sendEmail (svc : Service) (to subject templateName : string)
           (data : context) : M State send_result :=
  try_catch
    (html <- lift (render (get_template (templates svc) templateName) templateName
                     (<["supportEmail" := Str "welfare@psntaraba.org.ng"]>
                      (<["baseUrl" := Str (default "http://localhost:3000"
                                             (or_str (FRONTEND_URL env) None))]>
                       (<["year" := Num (Int (year env))]> data)))) ;;
     let mailOptions :=
       {| from := dquote +:+ "PSN Taraba Welfare" +:+ dquote +:+ " <"
                    +:+ show (or_str (SMTP_FROM env) (SMTP_USER env)) +:+ ">";
          to := to;
          subject := subject;
          html := html;
          text := htmlToText html |} in
     info <- sendMail svc mailOptions ;;
     emit (ConsoleLog ("✅ Email sent to " +:+ to +:+ ": " +:+ messageId info)) ;;;
     ret (Sent (messageId info) to subject))
    (fun error =>
       emit (ConsoleError ("❌ Email sending failed: " +:+ message error)) ;;;
       ret (Failed (message error) to subject)).

(** One turn of the [for ... of] loop of [sendBulkEmails]; [acc] is
    the [results] array so far.  The push precedes the delay, and the
    delay cannot throw. *)
Definition bulk_step (svc : Service) (subject templateName : string) (data : context)
           (acc : list send_result) (recipient : Recipient)
  : M State (list send_result) :=
  try_catch
    (result <- sendEmail svc (email recipient) subject templateName
                 (spread data (default ∅ (variables recipient))) ;;
     emit (Delay 100) ;;;
     ret (acc ++ [result]))
    (fun error => ret (acc ++ [FailedInBulk (message error) (email recipient)])).

Fixpoint bulk_loop (svc : Service) (subject templateName : string) (data : context)
         (recipients : list Recipient) (acc : list send_result)
  : M State (list send_result) :=
  match recipients with
  | [] => ret acc
  | recipient :: rest =>
      acc' <- bulk_step svc subject templateName data acc recipient ;;
      bulk_loop svc subject templateName data rest acc'
  end.

(** [sendBulkEmails(recipients, subject, templateName, data)] *)
Definition sendBulkEmails (svc : Service) (recipients : list Recipient)
           (subject templateName : string) (data : context) : M State Summary :=
  results <- bulk_loop svc subject templateName data recipients [] ;;
  ret {| total := length recipients;
         sent := length (List.filter success results);
         failed := length (List.filter (fun r => negb (success r)) results);
         results := results |}.

(** The state after the pause that follows a send. *)
Definition delayed (st : State) : State :=
  {| world := world st; trace := trace st ++ [Delay 100] |}.

(** [Dispatched st recipients results st']: from [st], each recipient
    in turn got its own call of [sendEmail], whose answer is the entry
    of [results] at the recipient's position, and the pause after it. *)
Inductive Dispatched (svc : Service) (subject templateName : string) (data : context)
  : State -> list Recipient -> list send_result -> State -> Prop :=
| Dispatched_nil (st : State) :
    Dispatched svc subject templateName data st [] [] st
| Dispatched_cons (st st1 st' : State) (recipient : Recipient)
                  (rest : list Recipient) (result : send_result)
                  (results : list send_result) :
    sendEmail svc (email recipient) subject templateName
              (spread data (default ∅ (variables recipient))) st
      = (st1, Ok result) ->
    Dispatched svc subject templateName data (delayed st1) rest results st' ->
    Dispatched svc subject templateName data st (recipient :: rest)
               (result :: results) st'.

(** The context a template is rendered with, and the message handed
    to the transport, as [sendEmail] builds them. *)
Definition template_context (data : context) : context :=
  <["supportEmail" := Str "welfare@psntaraba.org.ng"]>
    (<["baseUrl" := Str (default "http://localhost:3000" (or_str (FRONTEND_URL env) None))]>
       (<["year" := Num (Int (year env))]> data)).

Definition mail_options (to subject html : string) : MailOptions :=
  {| from := dquote +:+ "PSN Taraba Welfare" +:+ dquote +:+ " <"
               +:+ show (or_str (SMTP_FROM env) (SMTP_USER env)) +:+ ">";
     to := to; subject := subject; html := html; text := htmlToText html |}.

(** [Turn svc subject templateName data w recipient own result w']:
    what the turn of one recipient is to be, told by the outcome of the
    rendering and of the transport.  When the template renders and a
    transport is set, the message for the recipient is handed to the
    transport once, from the world [w], and the turn ends in the world
    the transport leaves; otherwise nothing is sent and the world stays. *)
Inductive Turn (svc : Service) (subject templateName : string) (data : context)
  : World -> Recipient -> list event -> send_result -> World -> Prop :=
| Turn_sent (w w' : World) (recipient : Recipient) (html : string) (t : transport)
            (info : Info) :
    render (get_template (templates svc) templateName) templateName
           (template_context (spread data (default ∅ (variables recipient)))) = Ok html ->
    transporter svc = Some t ->
    t w (mail_options (email recipient) subject html) = (w', Ok info) ->
    Turn svc subject templateName data w recipient
         [SendMail (mail_options (email recipient) subject html);
          ConsoleLog ("✅ Email sent to " +:+ email recipient +:+ ": " +:+ messageId info)]
         (Sent (messageId info) (email recipient) subject) w'
| Turn_refused (w w' : World) (recipient : Recipient) (html : string) (t : transport)
               (e : exn) :
    render (get_template (templates svc) templateName) templateName
           (template_context (spread data (default ∅ (variables recipient)))) = Ok html ->
    transporter svc = Some t ->
    t w (mail_options (email recipient) subject html) = (w', Throw e) ->
    Turn svc subject templateName data w recipient
         [SendMail (mail_options (email recipient) subject html);
          ConsoleError ("❌ Email sending failed: " +:+ message e)]
         (Failed (message e) (email recipient) subject) w'
| Turn_no_transport (w : World) (recipient : Recipient) (html : string) :
    render (get_template (templates svc) templateName) templateName
           (template_context (spread data (default ∅ (variables recipient)))) = Ok html ->
    transporter svc = None ->
    Turn svc subject templateName data w recipient
         [ConsoleError ("❌ Email sending failed: "
                          +:+ "Cannot read properties of null (reading 'sendMail')")]
         (Failed "Cannot read properties of null (reading 'sendMail')"
                 (email recipient) subject) w
| Turn_no_message (w : World) (recipient : Recipient) (e : exn) :
    render (get_template (templates svc) templateName) templateName
           (template_context (spread data (default ∅ (variables recipient)))) = Throw e ->
    Turn svc subject templateName data w recipient
         [ConsoleError ("❌ Email sending failed: " +:+ message e)]
         (Failed (message e) (email recipient) subject) w.

(** [InTurn svc subject templateName data w recipients events results w']:
    the recipients are served one after the other in the order of the
    input, each turn starting in the world the turn before it left and
    followed by the pause of 100 ms before the next one starts. *)
Inductive InTurn (svc : Service) (subject templateName : string) (data : context)
  : World -> list Recipient -> list event -> list send_result -> World -> Prop :=
| InTurn_nil (w : World) : InTurn svc subject templateName data w [] [] [] w
| InTurn_cons (w w1 w' : World) (recipient : Recipient) (rest : list Recipient)
              (own later : list event) (result : send_result)
              (results : list send_result) :
    Turn svc subject templateName data w recipient own result w1 ->
    InTurn svc subject templateName data w1 rest later results w' ->
    InTurn svc subject templateName data w (recipient :: rest)
           (own ++ Delay 100 :: later) (result :: results) w'.

End Service.

Definition is_send (e : event) : bool :=
  match e with
  | SendMail _ => true
  | _ => false
  end.

Definition is_delay (e : event) : bool :=
  match e with
  | Delay _ => true
  | _ => false
  end.

Definition addressed_to (a : string) (e : event) : Prop :=
  match e with
  | SendMail options => to options = a
  | _ => True
  end.

(** [Sequential recipients events]: the events fall into one block per
    recipient, in the order of the recipients; a block holds at most one
    send, addressed to its recipient, and ends with the pause of 100 ms. *)
Inductive Sequential : list Recipient -> list event -> Prop :=
| Sequential_nil : Sequential [] []
| Sequential_cons (recipient : Recipient) (rest : list Recipient)
                  (own later : list event) :
    Forall (addressed_to (email recipient)) own ->
    (length (List.filter is_send own) <= 1)%nat ->
    List.filter is_delay own = [] ->
    Sequential rest later ->
    Sequential (recipient :: rest) (own ++ Delay 100 :: later).

(** A service with the two built-in templates and a transport that
    refuses one address. *)
Definition picky_transport : transport nat :=
  fun w options =>
    (S w, if bool_decide (to options = "bad@example.org")
          then Throw (Error "550 mailbox unavailable")
          else Ok {| messageId := "<queued>" |}).

Definition plain_template : template := fun _ => Ok "<p>PSN Taraba</p>".

Definition picky_service : Service nat :=
  {| transporter := Some picky_transport;
     templates := {[ "welcome" := plain_template; "reminder" := plain_template ]} |}.

Definition test_env : Env :=
  {| year := 2025; FRONTEND_URL := None; SMTP_FROM := None;
     SMTP_USER := Some "welfare@psntaraba.org.ng" |}.

Definition no_builtin : string -> context -> result string :=
  fun _ _ => Throw (TypeError "template is not a function").

Definition fresh_state : State nat := {| world := 0%nat; trace := [] |}.

Definition three_recipients : list Recipient :=
  [ {| email := "first@example.org"; variables := None |};
    {| email := "bad@example.org"; variables := None |};
    {| email := "third@example.org"; variables := None |} ].

Arguments world {World} s.
Arguments trace {World} s.
Arguments transporter {World} s.
Arguments Dispatched {World}.
Arguments Turn {World}.
Arguments InTurn {World}.
Arguments templates {World} s.

End Email.

(** ** Next of kin on the member dashboard ([saveNewKin]) *)

Module Dashboard.
Import JS.

Record Kin : Type := {
  id : string;
  fullName : string;
  relationship : string;
  phone : string;
  email : string;
  address : string;
  isPrimary : bool;
  notes : string
}.

(** The fields of the form; [None] stands for an element that
    [document.getElementById] does not find. *)
Record KinForm : Type := {
  kinName : option string;
  kinRelationship : option string;
  kinPhone : option string;
  kinEmail : option string;
  kinAddress : option string;
  isPrimaryKin : option bool;
  kinNotes : option string
}.

Inductive notification : Type :=
| Notify (message kind : string).

Record DashboardState : Type := {
  nextOfKin : list Kin;
  isEditing : bool;
  currentEditId : option string;
  addKinModalOpen : bool;
  notifications : list notification
}.

(** What the page finds outside itself during one save: whether
    [ApiService] is defined and, if so, whether its call resolves
    ([None]) or rejects, and the identifier [generateId()] draws. *)
Record Outside : Type := {
  ApiService : option (option exn);
  generatedId : string
}.

Definition set_primary (k : Kin) (b : bool) : Kin :=
  {| id := id k; fullName := fullName k; relationship := relationship k;
     phone := phone k; email := email k; address := address k;
     isPrimary := b; notes := notes k |}.

(** [nextOfKin.forEach(kin => kin.isPrimary = false)] *)
Definition clear_primary (l : list Kin) : list Kin :=
  map (fun kin => set_primary kin false) l.

(** [nextOfKin.findIndex(k => k.id === wanted)] *)
Fixpoint findIndex (wanted : string) (l : list Kin) : option nat :=
  match l with
  | [] => None
  | k :: rest =>
      if bool_decide (id k = wanted) then Some 0%nat
      else S <$> findIndex wanted rest
  end.

Definition notify (st : DashboardState) (message kind : string) : DashboardState :=
  {| nextOfKin := nextOfKin st; isEditing := isEditing st;
     currentEditId := currentEditId st; addKinModalOpen := addKinModalOpen st;
     notifications := notifications st ++ [Notify message kind] |}.

Definition with_kin (st : DashboardState) (l : list Kin) : DashboardState :=
  {| nextOfKin := l; isEditing := isEditing st;
     currentEditId := currentEditId st; addKinModalOpen := addKinModalOpen st;
     notifications := notifications st |}.

(** The tail of [saveNewKin]: redraw, close the modal, leave edit mode.
    [updateNextOfKinUI] only reads the state. *)
Definition finish (st : DashboardState) : DashboardState :=
  {| nextOfKin := nextOfKin st; isEditing := false;
     currentEditId := None; addKinModalOpen := false;
     notifications := notifications st |}.

Definition failed_to_save (st : DashboardState) (error : exn) : DashboardState :=
  notify st ("Failed to save next of kin: " +:+ message error) "error".

Section Save.
(** [String.prototype.trim] and the two validators of the utilities
    script; the save only branches on what they answer. *)
Variable trim : string -> string.
Variable isValidNigerianPhone : string -> bool.
Variable isValidEmail : string -> bool.

(** [document.getElementById(x)?.value.trim()] *)
Definition field (f : option string) : option string := trim <$> f.

(** [... || ''] *)
Definition or_empty (f : option string) : string :=
  match f with
  | Some s => if truthy s then s else EmptyString
  | None => EmptyString
  end.

Definition falsy (f : option string) : bool :=
  match f with
  | Some s => negb (truthy s)
  | None => true
  end.

(** [async function saveNewKin()] *)
Definition saveNewKin (form : KinForm) (out : Outside) (st : DashboardState)
  : DashboardState :=
  let name := field (kinName form) in
  let relationship := field (kinRelationship form) in
  let phone := field (kinPhone form) in
  let email := or_empty (field (kinEmail form)) in
  let address := or_empty (field (kinAddress form)) in
  let isPrimary := default false (isPrimaryKin form) in
  let notes := or_empty (field (kinNotes form)) in
  if falsy name || falsy relationship || falsy phone then
    notify st "Please fill in all required fields" "error"
  else if negb (isValidNigerianPhone (default EmptyString phone)) then
    notify st "Please enter a valid Nigerian phone number" "error"
  else if truthy email && negb (isValidEmail email) then
    notify st "Please enter a valid email address" "error"
  else
    let kinObj (i : string) :=
      {| id := i; fullName := default EmptyString name;
         relationship := default EmptyString relationship;
         phone := default EmptyString phone; email := email; address := address;
         isPrimary := isPrimary; notes := notes |} in
    let st1 :=
      if isPrimary then with_kin st (clear_primary (nextOfKin st)) else st in
    if isEditing st1 && from_option truthy false (currentEditId st1) then
      let editId := default EmptyString (currentEditId st1) in
      match ApiService out with
      | Some (Some error) => failed_to_save st1 error
      | _ =>
          let st2 :=
            match findIndex editId (nextOfKin st1) with
            | Some index =>
                with_kin st1 (<[index := kinObj editId]> (nextOfKin st1))
            | None => st1
            end in
          finish (notify st2 "Next of kin updated successfully" "success")
      end
    else
      let newId := generatedId out in
      match ApiService out with
      | Some (Some error) => failed_to_save st1 error
      | _ =>
          finish (notify (with_kin st1 (nextOfKin st1 ++ [kinObj newId]))
                         "Next of kin added successfully" "success")
      end.

(** The three checks that [saveNewKin] makes before it touches the
    state. *)
Definition accepted (form : KinForm) : bool :=
  negb (falsy (field (kinName form)) || falsy (field (kinRelationship form))
        || falsy (field (kinPhone form)))
  && isValidNigerianPhone (default EmptyString (field (kinPhone form)))
  && negb (truthy (or_empty (field (kinEmail form)))
           && negb (isValidEmail (or_empty (field (kinEmail form))))).

End Save.

(** How many next of kin carry the primary flag. *)
Definition primary_count (l : list Kin) : nat :=
  length (List.filter isPrimary l).

(** The demonstration data of [generateMockNextOfKin]. *)
Definition mock_next_of_kin : list Kin :=
  [ {| id := "1"; fullName := "Jane Pharmacist"; relationship := "Spouse";
       phone := "0803 987 6543"; email := "jane@example.com"; address := EmptyString;
       isPrimary := true; notes := EmptyString |};
    {| id := "2"; fullName := "Dr. James Parent"; relationship := "Parent";
       phone := "0802 123 4567"; email := "james@example.com"; address := EmptyString;
       isPrimary := false; notes := EmptyString |} ].

Definition mock_state : DashboardState :=
  {| nextOfKin := mock_next_of_kin; isEditing := false; currentEditId := None;
     addKinModalOpen := true; notifications := [] |}.

Definition new_primary_form : KinForm :=
  {| kinName := Some "Musa Ibrahim"; kinRelationship := Some "Sibling";
     kinPhone := Some "08031234567"; kinEmail := Some EmptyString;
     kinAddress := Some EmptyString; isPrimaryKin := Some true; kinNotes := Some EmptyString |}.

Definition no_backend : Outside :=
  {| ApiService := None; generatedId := "a1B2c3D4" |}.

End Dashboard.

(** ** The backup service (class [BackupService]) *)

Module Backup.
Import JS Eff.

Record Files : Type := {
  database : string;
  uploads : option string
}.

Record Metadata : Type := {
  meta_id : string;
  meta_type : string;
  createdAt : string;
  createdBy : string;
  files : Files;
  meta_size : number
}.

(** The [data] of a [prisma.backup.create] call. *)
Record BackupData : Type := {
  backupId : string;
  type : string;
  size : option number;
  location : option string;
  status : string;
  createdById : string;
  metadata : option Metadata;
  error : option string
}.

(** What the service did to the file system, the object store and the
    database, successful calls only, in order. *)
Inductive call : Type :=
| Mkdir (dir : string)
| PgDump (file : string)
| Tar (file : string)
| WriteFile (file : string) (content : Metadata)
| S3Upload (key : string)
| BackupCreate (data : BackupData)
| BackupDeleteMany (ids : list Z)
| Rm (dir : string).

Definition State : Type := list call.

Record Stat : Type := {
  isDirectory : bool;
  birthtimeMs : Z
}.

(** How each call to the outside ends during one run.  A field of type
    [option exn] is [None] when the call resolves. *)
Record Outside : Type := {
  now_id : string;
  mkdir_fails : option exn;
  now_database : string;
  dump_fails : option exn;
  now_uploads : string;
  tar_fails : option exn;
  archive_missing : bool;
  du : result string;
  now_metadata : string;
  write_fails : option exn;
  listing : result (list (string * option exn));
  create_completed_fails : option exn;
  create_failed_fails : option exn;
  found : result (list Z);
  delete_fails : option exn;
  local_dirs : result (list (string * result Stat * option exn));
  now_ms : Z
}.

Record Service : Type := {
  s3 : bool;
  bucketName : option string;
  backupDir : string
}.

Record Created : Type := {
  created_backupId : string;
  backupRecord : BackupData;
  localPath : string;
  s3Location : option string;
  created_size : number
}.

Definition act (c : call) (fails : option exn) : M State unit :=
  match fails with
  | Some e => throw e
  | None => modify (fun done => done ++ [c])
  end.

(** [iso.replace(/[:.]/g, '-')] *)
Fixpoint stamp (iso : string) : string :=
  match iso with
  | EmptyString => EmptyString
  | String c r =>
      String (if Ascii.eqb c ":" || Ascii.eqb c "." then "-"%char else c) (stamp r)
  end.

(** [path.join(dir, name)] for a directory without a trailing slash. *)
Definition join (dir name : string) : string := dir +:+ "/" +:+ name.

Definition configured (svc : Service) : bool :=
  s3 svc && from_option truthy false (bucketName svc).

Section Run.
Variable svc : Service.
Variable out : Outside.

(** [backupDatabase(backupPath)] *)
Definition backupDatabase (backupPath : string) : M State string :=
  let filename := "database-" +:+ stamp (now_database out) +:+ ".sql" in
  try_catch
    (act (PgDump (join backupPath filename)) (dump_fails out) ;;;
     ret filename)
    (fun error => throw (Error ("Database backup failed: " +:+ message error))).

(** [backupUploads(backupPath)] *)
Definition backupUploads (backupPath : string) : M State (option string) :=
  let filename := "uploads-" +:+ stamp (now_uploads out) +:+ ".tar.gz" in
  try_catch
    (act (Tar (join backupPath filename)) (tar_fails out) ;;;
     ret (if archive_missing out then None else Some filename))
    (fun error => ret None).

(** [getFolderSize(folderPath)]; [parseInt] skips the white space that
    [trim] removes and stops at the first character that is no digit. *)
Definition getFolderSize (folderPath : string) : M State number :=
  match du out with
  | Ok stdout => ret (parseInt stdout None)
  | Throw _ => ret (Int 0)
  end.

Fixpoint upload_files (backupId : string) (fs : list (string * option exn))
  : M State unit :=
  match fs with
  | [] => ret tt
  | (file, fails) :: rest =>
      act (S3Upload ("backups/" +:+ backupId +:+ "/" +:+ file)) fails ;;;
      upload_files backupId rest
  end.

(** [uploadToS3(backupId, backupPath)] *)
Definition uploadToS3 (backupId backupPath : string) : M State (option string) :=
  if negb (configured svc) then ret None
  else
    fs <- lift (listing out) ;;
    upload_files backupId fs ;;;
    ret (Some ("s3://" +:+ default EmptyString (bucketName svc) +:+ "/backups/" +:+ backupId)).

Fixpoint remove_old (sevenDaysAgo : Z)
         (ds : list (string * result Stat * option exn)) : M State unit :=
  match ds with
  | [] => ret tt
  | (file, st, fails) :: rest =>
      stats <- lift st ;;
      (if isDirectory stats && (birthtimeMs stats <? sevenDaysAgo)
       then act (Rm (join (backupDir svc) file)) fails
       else ret tt) ;;;
      remove_old sevenDaysAgo rest
  end.

(** [cleanupOldBackups()] *)
Definition cleanupOldBackups : M State unit :=
  try_catch
    (backups <- lift (found out) ;;
     (if (30 <? length backups)%nat
      then act (BackupDeleteMany (drop 30 backups)) (delete_fails out)
      else ret tt) ;;;
     ds <- lift (local_dirs out) ;;
     remove_old (now_ms out - 7 * 24 * 60 * 60 * 1000) ds)
    (fun error => ret tt).

(** [createBackup(userId, type)] *)
Definition createBackup (userId type : string) : M State Created :=
  let backupId := "backup-" +:+ stamp (now_id out) in
  try_catch
    (let backupPath := join (backupDir svc) backupId in
     act (Mkdir backupPath) (mkdir_fails out) ;;;
     dbBackupFile <- backupDatabase backupPath ;;
     uploadsBackupFile <- backupUploads backupPath ;;
     size <- getFolderSize backupPath ;;
     let metadata :=
       {| meta_id := backupId; meta_type := type;
          createdAt := now_metadata out; createdBy := userId;
          files := {| database := dbBackupFile; uploads := uploadsBackupFile |};
          meta_size := size |} in
     act (WriteFile (join backupPath "metadata.json") metadata) (write_fails out) ;;;
     s3Location <- (if configured svc then uploadToS3 backupId backupPath
                    else ret None) ;;
     let data :=
       {| backupId := backupId; type := type; size := Some size;
          location := Some (match s3Location with
                            | Some l => if truthy l then l else "local:" +:+ backupPath
                            | None => "local:" +:+ backupPath
                            end);
          status := "completed"; createdById := userId;
          metadata := Some metadata; error := None |} in
     act (BackupCreate data) (create_completed_fails out) ;;;
     cleanupOldBackups ;;;
     ret {| created_backupId := backupId; backupRecord := data;
            localPath := backupPath; s3Location := s3Location;
            created_size := size |})
    (fun error =>
       act (BackupCreate
              {| backupId := backupId; type := type; size := None;
                 location := None; status := "failed"; createdById := userId;
                 metadata := None; error := Some (message error) |})
           (create_failed_fails out) ;;;
       throw error).

End Run.

(** The records a run has persisted. *)
Definition persisted (done : State) : list BackupData :=
  omap (fun c => match c with BackupCreate d => Some d | _ => None end) done.

(** A computation is quiet when it only appends calls that insert no
    backup record. *)
Definition quiet {A} (m : M State A) : Prop :=
  forall done, exists new, fst (m done) = done ++ new /\ persisted new = [].

Definition resolves (fails : option exn) : bool :=
  match fails with
  | None => true
  | Some _ => false
  end.

(** The steps whose failure [createBackup] does not absorb: creating
    the directory, dumping the database, writing the metadata, the
    upload when S3 is configured, and inserting the record. *)
Definition fatal_steps_ok (svc : Service) (out : Outside) : bool :=
  resolves (mkdir_fails out) && resolves (dump_fails out) && resolves (write_fails out)
  && (negb (configured svc)
      || match listing out with
         | Ok fs => forallb (fun f => resolves (snd f)) fs
         | Throw _ => false
         end)
  && resolves (create_completed_fails out).

(** A run on a machine without S3 where the archive of uploads, the
    sizing of the folder and the cleanup all fail, and nothing else. *)
Definition local_service : Service :=
  {| s3 := false; bucketName := None; backupDir := "/srv/backups" |}.

Definition soft_failures : Outside :=
  {| now_id := "2025-05-14T00:00:00.000Z";
     mkdir_fails := None;
     now_database := "2025-05-14T00:00:00.010Z";
     dump_fails := None;
     now_uploads := "2025-05-14T00:00:01.000Z";
     tar_fails := Some (Error "Command failed: tar");
     archive_missing := true;
     du := Throw (Error "Command failed: du");
     now_metadata := "2025-05-14T00:00:01.500Z";
     write_fails := None;
     listing := Ok [];
     create_completed_fails := None;
     create_failed_fails := None;
     found := Throw (Error "connection lost");
     delete_fails := None;
     local_dirs := Ok [];
     now_ms := 1747180802000 |}.

(** The same machine with a database dump that fails. *)
Definition dump_failure : Outside :=
  {| now_id := "2025-05-14T00:00:00.000Z";
     mkdir_fails := None;
     now_database := "2025-05-14T00:00:00.010Z";
     dump_fails := Some (Error "Command failed: pg_dump");
     now_uploads := "2025-05-14T00:00:01.000Z";
     tar_fails := None;
     archive_missing := false;
     du := Ok "4096";
     now_metadata := "2025-05-14T00:00:01.500Z";
     write_fails := None;
     listing := Ok [];
     create_completed_fails := None;
     create_failed_fails := None;
     found := Ok [];
     delete_fails := None;
     local_dirs := Ok [];
     now_ms := 1747180802000 |}.

(** The files of a listing up to the first one that fails. *)
Fixpoint ok_prefix (fs : list (string * option exn)) : list string :=
  match fs with
  | (file, None) :: rest => file :: ok_prefix rest
  | _ => []
  end.

Definition is_delete (c : call) : bool :=
  match c with
  | BackupDeleteMany _ => true
  | _ => false
  end.

Definition s3_key (backupId file : string) : string :=
  "backups/" +:+ backupId +:+ "/" +:+ file.

Definition seven_days : Z := 7 * 24 * 60 * 60 * 1000.

(** A machine with S3 where the second file of the backup folder fails
    to upload, and whose backup directory holds one directory older than
    seven days, one of today, and one old file. *)
Definition interrupted_upload : Outside :=
  {| now_id := "2025-05-14T00:00:00.000Z";
     mkdir_fails := None;
     now_database := "2025-05-14T00:00:00.010Z";
     dump_fails := None;
     now_uploads := "2025-05-14T00:00:01.000Z";
     tar_fails := None;
     archive_missing := false;
     du := Ok "4096";
     now_metadata := "2025-05-14T00:00:01.500Z";
     write_fails := None;
     listing := Ok [("database-2025-05-14T00-00-00-010Z.sql", None);
                    ("metadata.json", Some (Error "RequestTimeout"));
                    ("uploads-2025-05-14T00-00-01-000Z.tar.gz", None)];
     create_completed_fails := None;
     create_failed_fails := None;
     found := Ok (seqZ 1 32);
     delete_fails := None;
     local_dirs := Ok [("backup-2025-05-01T00-00-00-000Z",
                        Ok {| isDirectory := true; birthtimeMs := 1746057600000 |}, None);
                       ("backup-2025-05-13T00-00-00-000Z",
                        Ok {| isDirectory := true; birthtimeMs := 1747094400000 |}, None);
                       ("notes.txt",
                        Ok {| isDirectory := false; birthtimeMs := 1746057600000 |}, None)];
     now_ms := 1747180802000 |}.

Definition s3_service : Service :=
  {| s3 := true; bucketName := Some "psn-backups"; backupDir := "/srv/backups" |}.

End Backup.

(** ** The reminder batch (Due-Date Evaluator, Recipient Resolver, Dispatcher)

    The sources hold the mail service and the screens that read the
    reminder log; the batch that decides which reminders are due is
    described by the specification only. *)

Module Reminder.

Record CalendarDate : Type := {
  year : Z;
  month : Z;
  day : Z
}.

(** An instant: a calendar date (UTC) and the seconds elapsed that day. *)
Record Instant : Type := {
  on : CalendarDate;
  second_of_day : Z
}.

(** Days since 1970-01-01 of a date of the proleptic Gregorian calendar. *)
Definition days_from_civil (d : CalendarDate) : Z :=
  let y := if month d <=? 2 then year d - 1 else year d in
  let era := y / 400 in
  let yoe := y - era * 400 in
  let mp := if 2 <? month d then month d - 3 else month d + 9 in
  let doy := (153 * mp + 2) / 5 + day d - 1 in
  let doe := yoe * 365 + yoe / 4 - yoe / 100 + doy in
  era * 146097 + doe - 719468.

Definition seconds (t : Instant) : Z :=
  days_from_civil (on t) * 86400 + second_of_day t.

Definition midnight (d : CalendarDate) : Z := days_from_civil d * 86400.

Inductive recipient_kind : Type :=
| member
| primary_kin
| all_kin.

Record NextOfKin : Type := {
  kin_name : string;
  kin_email : option string;
  kin_primary : bool
}.

Record Member : Type := {
  full_name : string;
  member_email : string;
  next_of_kin : list NextOfKin
}.

Record SpecialDate : Type := {
  date_id : Z;
  owner : Member;
  label : string;
  date : CalendarDate;
  annual : bool;
  recipients : list recipient_kind;
  reminderEnabled : bool
}.

Inductive outcome : Type :=
| sent
| failed (error : string)
| pending.

Record ReminderLog : Type := {
  target : Z;
  address : string;
  channel : string;
  result : outcome;
  timestamp : Z
}.

(** Modelled from the spec: the Due-Date Evaluator is not among the
    sources; this is its next occurrence of a date (section 4.1, Policy).
    An annual date takes the current year, or the next one if that day
    has already passed this year; a one-off date is taken as stored. *)
Definition next_occurrence (now : Instant) (d : SpecialDate) : Z :=
  if annual d then
    let this_year :=
      midnight {| year := year (on now); month := month (date d); day := day (date d) |} in
    if this_year <? seconds now
    then midnight {| year := year (on now) + 1; month := month (date d); day := day (date d) |}
    else this_year
  else midnight (date d).

(** Modelled from the spec: the check of the Due-Date Evaluator, which
    is not among the sources, that a reminder log already exists for an
    occurrence (section 4.1, Contract): an entry that points at the date
    and was written while that occurrence was inside the look-ahead
    window (an entry carries a date reference and a timestamp,
    section 3). *)
Definition logged_for (window : Z) (occurrence : Z) (d : SpecialDate) (e : ReminderLog)
  : bool :=
  (target e =? date_id d)
  && (occurrence - window <=? timestamp e) && (timestamp e <=? occurrence).

(** Modelled from the spec: the Due-Date Evaluator, which is not among
    the sources (section 4.1): the dates whose next occurrence lies in
    the window, both bounds included, that have reminders enabled and no
    log entry for that occurrence. *)
Definition is_due (now : Instant) (window : Z) (log : list ReminderLog) (d : SpecialDate)
  : bool :=
  let occurrence := next_occurrence now d in
  reminderEnabled d
  && (seconds now <=? occurrence) && (occurrence <=? seconds now + window)
  && negb (existsb (logged_for window occurrence d) log).

Definition evaluate (now : Instant) (window : Z) (dates : list SpecialDate)
           (log : list ReminderLog) : list SpecialDate :=
  List.filter (is_due now window log) dates.

(** Modelled from the spec: the Recipient Resolver, which is not among
    the sources (section 4.2): the member's own address, the primary
    next of kin if there is one, every next of kin with an address. *)
Definition resolve_kind (m : Member) (k : recipient_kind) : list (string * string) :=
  match k with
  | member => [(full_name m, member_email m)]
  | primary_kin =>
      match List.find kin_primary (next_of_kin m) with
      | Some kin =>
          match kin_email kin with
          | Some a => [(kin_name kin, a)]
          | None => []
          end
      | None => []
      end
  | all_kin =>
      omap (fun kin =>
              match kin_email kin with
              | Some a => if JS.truthy a then Some (kin_name kin, a) else None
              | None => None
              end)
           (next_of_kin m)
  end.

Definition resolve (d : SpecialDate) : list (string * string) :=
  flat_map (resolve_kind (owner d)) (recipients d).

Section Batch.
Variable World : Type.

(** The mail transport: a provider message identifier or a thrown
    error (section 6). *)
Variable deliver : World -> string -> string -> World * JS.result string.

Record System : Type := {
  dates : list SpecialDate;
  log : list ReminderLog;
  world : World
}.

(** Modelled from the spec: the Dispatcher of the batch, which is not
    among the sources (section 4.3): one attempt per recipient, in
    order, each appended to the log exactly once, a failure never
    stopping the rest. *)
Fixpoint dispatch_to (now : Z) (d : SpecialDate) (rs : list (string * string))
         (log : list ReminderLog) (w : World) : list ReminderLog * World :=
  match rs with
  | [] => (log, w)
  | (_, a) :: rest =>
      let '(w', r) := deliver w a (label d) in
      let entry :=
        {| target := date_id d; address := a; channel := "email";
           result := match r with
                     | JS.Ok _ => sent
                     | JS.Throw e => failed (JS.message e)
                     end;
           timestamp := now |} in
      dispatch_to now d rest (log ++ [entry]) w'
  end.

Fixpoint dispatch (now : Z) (due : list SpecialDate)
         (log : list ReminderLog) (w : World) : list ReminderLog * World :=
  match due with
  | [] => (log, w)
  | d :: rest =>
      let '(log', w') := dispatch_to now d (resolve d) log w in
      dispatch now rest log' w'
  end.

(** Modelled from the spec: one run of the batch, which is not among
    the sources, at [now]: evaluate, then dispatch (section 2, control
    flow). *)
Definition run (now : Instant) (window : Z) (s : System) : System :=
  let due := evaluate now window (dates s) (log s) in
  let '(log', w') := dispatch (seconds now) due (log s) (world s) in
  {| dates := dates s; log := log'; world := w' |}.

End Batch.

Arguments dates {World} s.
Arguments log {World} s.
Arguments world {World} s.

Definition default_window : Z := 24 * 60 * 60.




(** The scenario of section 8. *)
Definition ada : Member :=
  {| full_name := "Ada"; member_email := "ada@example.org"; next_of_kin := [] |}.

Definition birthday : SpecialDate :=
  {| date_id := 7; owner := ada; label := "Birthday";
     date := {| year := 2024; month := 5; day := 15 |};
     annual := true; recipients := [member]; reminderEnabled := true |}.

Definition midnight_14_may : Instant :=
  {| on := {| year := 2025; month := 5; day := 14 |}; second_of_day := 0 |}.

Definition noon_14_may : Instant :=
  {| on := {| year := 2025; month := 5; day := 14 |}; second_of_day := 12 * 60 * 60 |}.

Definition birthday_system : System unit :=
  {| dates := [birthday]; log := []; world := tt |}.

Definition always_delivers : unit -> string -> string -> unit * JS.result string :=
  fun w _ _ => (w, JS.Ok "<provider-id>").




End Reminder.

(** ** Managing the allow-list ([addIP], [removeIP]) *)

Module IPGateAdmin.
Import JS Eff IPGate.

(** A row of the [ipWhitelist] table; [ipAddress] is its unique key. *)
Record Row : Type := {
  row_ipAddress : string;
  row_isAdminIP : bool;
  row_notes : string;
  row_enabled : bool;
  row_addedBy : string;
  row_updatedBy : option string;
  row_updatedAt : option Z
}.

Inductive details : Type :=
| Added (ip : string) (isAdminIP : bool) (notes : string)
| Removed (ip : string).

Record AuditEntry : Type := {
  audit_userId : string;
  audit_action : string;
  audit_details : details;
  audit_ipAddress : string
}.

(** The table, the cache of the gate and the audit log. *)
Record System : Type := {
  table : list Row;
  cache : Store;
  audit : list AuditEntry
}.

Definition matches_key (ip : string) (r : Row) : bool := bool_decide (row_ipAddress r = ip).

(** [prisma.ipWhitelist.findUnique({ where: { ipAddress: ip } })] *)
Definition findUnique (ip : string) (t : list Row) : option Row :=
  List.find (matches_key ip) t.

(** [prisma.ipWhitelist.update({ where: { ipAddress: ip }, data })]: the
    client rejects when no row has the key. *)
Definition update (ip : string) (change : Row -> Row) (t : list Row) : result (list Row) :=
  match findUnique ip t with
  | Some _ => Ok (map (fun r => if matches_key ip r then change r else r) t)
  | None => Throw (Error "Record to update not found.")
  end.

(** [prisma.ipWhitelist.findMany({ where: { enabled: true } })] *)
Definition findMany_enabled (t : list Row) : list entry :=
  map (fun r => {| ipAddress := row_ipAddress r; isAdminIP := row_isAdminIP r |})
      (List.filter row_enabled t).

Definition set_table (t : list Row) : M System unit :=
  modify (fun s => {| table := t; cache := cache s; audit := audit s |}).

(** [await this.loadWhitelist()], run to its end. *)
Definition reload : M System unit :=
  modify (fun s => {| table := table s;
                      cache := loadWhitelist_resume (Ok (findMany_enabled (table s))) (cache s);
                      audit := audit s |}).

Definition log_audit (e : AuditEntry) : M System unit :=
  modify (fun s => {| table := table s; cache := cache s; audit := audit s ++ [e] |}).

(** [addIP(ip, isAdminIP, notes, addedBy)] at time [now]. *)
Definition addIP (ip : string) (isAdminIP : bool) (notes addedBy : string) (now : Z)
  : M System unit :=
  try_catch
    (fun s =>
       (match findUnique ip (table s) with
        | Some _ =>
            t <- lift (update ip (fun r =>
                         {| row_ipAddress := row_ipAddress r; row_isAdminIP := isAdminIP;
                            row_notes := notes; row_enabled := true;
                            row_addedBy := row_addedBy r;
                            row_updatedBy := Some addedBy;
                            row_updatedAt := Some now |}) (table s)) ;;
            set_table t
        | None =>
            set_table (table s ++ [ {| row_ipAddress := ip; row_isAdminIP := isAdminIP;
                                       row_notes := notes; row_enabled := true;
                                       row_addedBy := addedBy; row_updatedBy := None;
                                       row_updatedAt := None |} ])
        end ;;;
        reload ;;;
        log_audit {| audit_userId := addedBy; audit_action := "IP_WHITELIST_ADDED";
                     audit_details := Added ip isAdminIP notes; audit_ipAddress := ip |}) s)
    (fun error => throw error).

(** [removeIP(ip, removedBy)] at time [now]. *)
Definition removeIP (ip removedBy : string) (now : Z) : M System unit :=
  try_catch
    (fun s =>
       (t <- lift (update ip (fun r =>
                     {| row_ipAddress := row_ipAddress r; row_isAdminIP := row_isAdminIP r;
                        row_notes := row_notes r; row_enabled := false;
                        row_addedBy := row_addedBy r;
                        row_updatedBy := Some removedBy;
                        row_updatedAt := Some now |}) (table s)) ;;
        set_table t ;;;
        reload ;;;
        log_audit {| audit_userId := removedBy; audit_action := "IP_WHITELIST_REMOVED";
                     audit_details := Removed ip; audit_ipAddress := ip |}) s)
    (fun error => throw error).

(** The gate as a caller sees it: is the address an element of the set? *)
Definition in_general (s : System) (ip : string) : bool :=
  set_has (Str ip) (contents (cache s) (this_whitelist (cache s))).

Definition in_admin (s : System) (ip : string) : bool :=
  set_has (Str ip) (contents (cache s) (this_adminIPs (cache s))).

(** What the table says about an address. *)
Definition listed (admin : bool) (t : list Row) (ip : string) : bool :=
  existsb (fun r => row_enabled r && matches_key ip r && Bool.eqb (row_isAdminIP r) admin) t.

(** An empty table with an empty cache. *)
Definition empty_system : System :=
  {| table := [];
     cache := {| heap := {[ 0%nat := []; 1%nat := [] ]};
                 this_whitelist := 0%nat; this_adminIPs := 1%nat; logged := [] |};
     audit := [] |}.

(** A table with one enabled general address, cached. *)
Definition office_row : Row :=
  {| row_ipAddress := "10.0.0.1"; row_isAdminIP := false; row_notes := "office";
     row_enabled := true; row_addedBy := "admin-1"; row_updatedBy := None;
     row_updatedAt := None |}.

Definition one_row_system : System :=
  {| table := [office_row];
     cache := {| heap := {[ 0%nat := ["10.0.0.1"]; 1%nat := [] ]};
                 this_whitelist := 0%nat; this_adminIPs := 1%nat; logged := [] |};
     audit := [] |}.

End IPGateAdmin.

(** ** Regular expressions, as far as the validators use them *)

Module Regex.

(** A pattern over UTF-16 code units, as a regular expression without
    the [u] flag reads a string; a character class is its membership
    test. *)
Inductive re : Type :=
| Void
| Eps
| Cls (member : N -> bool)
| Cat (r1 r2 : re)
| Alt (r1 r2 : re)
| Star (r : re).

(** [r+] and [r{n}] *)
Definition Plus (r : re) : re := Cat r (Star r).

Fixpoint Repeat (n : nat) (r : re) : re :=
  match n with
  | O => Eps
  | S n' => Cat r (Repeat n' r)
  end.

(** The strings a pattern matches from its first to its last character. *)
Inductive Matches : re -> list N -> Prop :=
| M_eps : Matches Eps []
| M_cls (member : N -> bool) (c : N) :
    member c = true -> Matches (Cls member) [c]
| M_cat (r1 r2 : re) (s1 s2 : list N) :
    Matches r1 s1 -> Matches r2 s2 -> Matches (Cat r1 r2) (s1 ++ s2)
| M_alt_l (r1 r2 : re) (s : list N) : Matches r1 s -> Matches (Alt r1 r2) s
| M_alt_r (r1 r2 : re) (s : list N) : Matches r2 s -> Matches (Alt r1 r2) s
| M_star_nil (r : re) : Matches (Star r) []
| M_star_cons (r : re) (s1 s2 : list N) :
    Matches r s1 -> Matches (Star r) s2 -> Matches (Star r) (s1 ++ s2).

Fixpoint nullable (r : re) : bool :=
  match r with
  | Void => false
  | Eps => true
  | Cls _ => false
  | Cat r1 r2 => nullable r1 && nullable r2
  | Alt r1 r2 => nullable r1 || nullable r2
  | Star _ => true
  end.

(** What is left of a pattern after it has read [c]. *)
Fixpoint deriv (c : N) (r : re) : re :=
  match r with
  | Void => Void
  | Eps => Void
  | Cls member => if member c then Eps else Void
  | Cat r1 r2 =>
      if nullable r1 then Alt (Cat (deriv c r1) r2) (deriv c r2)
      else Cat (deriv c r1) r2
  | Alt r1 r2 => Alt (deriv c r1) (deriv c r2)
  | Star r' => Cat (deriv c r') (Star r')
  end.

(** [/^r$/.test(s)] *)
Fixpoint test (r : re) (s : list N) : bool :=
  match s with
  | [] => nullable r
  | c :: s' => test (deriv c r) s'
  end.

Definition one (c : N) : re := Cls (N.eqb c).

(** A literal word. *)
Fixpoint word (w : list N) : re :=
  match w with
  | [] => Eps
  | c :: w' => Cat (one c) (word w')
  end.

End Regex.

(** ** The validators of the utilities script *)

Module Validators.
Import JS Regex.

(** [\d] *)
Definition is_digit (c : N) : bool := ((48 <=? c) && (c <=? 57))%N.

Definition at_sign : N := 64%N.

Definition dot : N := 46%N.

(** [[^\s@]] *)
Definition local_char (c : N) : bool := negb (is_white_space c) && negb (N.eqb c at_sign).

Definition one_of (cs : list N) (c : N) : bool := existsb (N.eqb c) cs.

(** [/^[^\s@]+@[^\s@]+\.[^\s@]+$/] *)
Definition emailRegex : re :=
  Cat (Plus (Cls local_char))
      (Cat (one at_sign)
           (Cat (Plus (Cls local_char))
                (Cat (one dot) (Plus (Cls local_char))))).

(** [/^(0|234)(7|8|9)(0|1)\d{8}$/] *)
Definition phoneRegex : re :=
  Cat (Alt (word (units "0")) (word (units "234")))
      (Cat (Cls (one_of (units "789")))
           (Cat (Cls (one_of (units "01")))
                (Repeat 8 (Cls is_digit)))).

Fixpoint drop_space (s : list N) : list N :=
  match s with
  | c :: r => if is_white_space c then drop_space r else s
  | [] => []
  end.

(** [s.trim()] *)
Definition trim (s : list N) : list N := rev (drop_space (rev (drop_space s))).

(** [s.replace(/\s+/g, '')] *)
Definition without_space (s : list N) : list N :=
  List.filter (fun c => negb (is_white_space c)) s.

(** [isValidEmail(email)] on a string, given by its code units. *)
Definition isValidEmail (email : list N) : bool :=
  match email with
  | [] => false
  | _ => test emailRegex (trim email)
  end.

(** [isValidNigerianPhone(phone)] on a string, given by its code units. *)
Definition isValidNigerianPhone (phone : list N) : bool :=
  match phone with
  | [] => false
  | _ => test phoneRegex (without_space phone)
  end.

(** The validators on a [string]. *)
Definition on_text (validator : list N -> bool) (s : string) : bool := validator (units s).

End Validators.

(** ** More of the dashboard: editing and removing next of kin, the
    profile score *)

Module DashboardMore.
Import JS Dashboard.

(** [kin.x || ''] *)
Definition shown (s : string) : string := if truthy s then s else EmptyString.

(** What [editKin] writes into the fields of the form. *)
Definition form_of (kin : Kin) : KinForm :=
  {| kinName := Some (shown (fullName kin));
     kinRelationship := Some (shown (relationship kin));
     kinPhone := Some (shown (phone kin));
     kinEmail := Some (shown (email kin));
     kinAddress := Some (shown (address kin));
     isPrimaryKin := Some (isPrimary kin);
     kinNotes := Some (shown (notes kin)) |}.

(** [editKin(kinId)]: the state afterwards and, when the modal exists
    and the kin is found, the filled form. *)
Definition editKin (kinId : string) (modalExists : bool) (st : DashboardState)
  : DashboardState * option KinForm :=
  match List.find (fun k => bool_decide (id k = kinId)) (nextOfKin st) with
  | None => (st, None)
  | Some kin =>
      let editing :=
        {| nextOfKin := nextOfKin st; isEditing := true; currentEditId := Some kinId;
           addKinModalOpen := addKinModalOpen st; notifications := notifications st |} in
      if modalExists then
        ({| nextOfKin := nextOfKin st; isEditing := true; currentEditId := Some kinId;
            addKinModalOpen := true; notifications := notifications st |},
         Some (form_of kin))
      else (editing, None)
  end.

(** [deleteKin(kinId)]; [confirmed] is the answer to the [confirm]
    dialog, [api] as in [Outside]. *)
Definition deleteKin (kinId : string) (confirmed : bool) (api : option (option exn))
           (st : DashboardState) : DashboardState :=
  if negb confirmed then st
  else
    match api with
    | Some (Some error) =>
        notify st ("Failed to remove next of kin: " +:+ message error) "error"
    | _ =>
        notify (with_kin st (List.filter (fun k => negb (bool_decide (id k = kinId)))
                                         (nextOfKin st)))
               "Next of kin removed successfully" "success"
    end.

(** The five profile fields, each a string given by its code units;
    [None] is a field that is not set. *)
Record UserData : Type := {
  user_fullName : option (list N);
  user_phone : option (list N);
  user_email : option (list N);
  user_dateOfBirth : option (list N);
  user_weddingDate : option (list N)
}.

(** [field && field.trim() !== ''] *)
Definition filled (field : option (list N)) : bool :=
  match field with
  | Some s =>
      match s with
      | [] => false
      | _ => match Validators.trim s with
             | [] => false
             | _ => true
             end
      end
  | None => false
  end.

(** The percentage [calculateProfileCompletion] shows. *)
Definition calculateProfileCompletion (user : UserData) : Z :=
  Z.min (fold_left (fun completion field => if filled field then completion + 16 else completion)
                   [user_fullName user; user_phone user; user_email user;
                    user_dateOfBirth user; user_weddingDate user]
                   20)
        100.

(** A stored contact as the form lets it in. *)
Definition well_formed (isValidNigerianPhone isValidEmail : string -> bool) (k : Kin) : Prop :=
  truthy (fullName k) = true /\ truthy (relationship k) = true /\
  isValidNigerianPhone (phone k) = true /\
  (email k = EmptyString \/ isValidEmail (email k) = true).

(** A contact whose text fields a [trim] leaves as they are. *)
Definition trimmed (trim : string -> string) (k : Kin) : Prop :=
  trim (fullName k) = fullName k /\ trim (relationship k) = relationship k /\
  trim (phone k) = phone k /\ trim (email k) = email k /\
  trim (address k) = address k /\ trim (notes k) = notes k.

(** The object a save builds from the form, under identifier [i]. *)
Definition built (trim : string -> string) (form : KinForm) (i : string) : Kin :=
  {| id := i;
     fullName := default EmptyString (field trim (kinName form));
     relationship := default EmptyString (field trim (kinRelationship form));
     phone := default EmptyString (field trim (kinPhone form));
     email := or_empty (field trim (kinEmail form));
     address := or_empty (field trim (kinAddress form));
     isPrimary := default false (isPrimaryKin form);
     notes := or_empty (field trim (kinNotes form)) |}.

Definition backend_rejects (out : Outside) : bool :=
  match ApiService out with
  | Some (Some _) => true
  | _ => false
  end.

(** Whether a save runs in edit mode. *)
Definition edits (st : DashboardState) : bool :=
  isEditing st && from_option truthy false (currentEditId st).

Definition filled_count (user : UserData) : Z :=
  Z.of_nat (length (List.filter filled
    [user_fullName user; user_phone user; user_email user;
     user_dateOfBirth user; user_weddingDate user])).

(** A backend that rejects the call, and a contact to fall back on. *)
Definition failing_backend : Outside :=
  {| ApiService := Some (Some (Error "Network request failed"));
     generatedId := "a1B2c3D4" |}.

Definition spare_kin : Kin :=
  {| id := "0"; fullName := "Spare"; relationship := "Friend"; phone := "08030000000";
     email := EmptyString; address := EmptyString; isPrimary := false;
     notes := EmptyString |}.

End DashboardMore.

(** ** Restoring a backup, and the pieces of [createBackup] on their own *)

Module Restore.
Import JS Eff.

(** Successful calls to the outside, in order.  An audit entry is kept
    with its action, its user and, of its details, the backup id and the
    error message; the copy of the metadata in the details of a
    successful restore is left out. *)
Inductive call : Type :=
| MkdirDownload (dir : string)
| S3Get (key : string)
| DropDatabase
| CreateDatabase
| PgRestore (file : string)
| Untar (file : string)
| BackupUpdate (id : Z) (restoredById : string)
| AuditCreate (action userId backupId : string) (error : option string).

Definition State : Type := list call.

(** A row of the [backup] table; a record of a failed backup has no
    location. *)
Record BackupRow : Type := {
  row_id : Z;
  row_location : option string
}.

(** [metadata.files] as read back from [metadata.json]. *)
Record Files : Type := {
  database : option string;
  uploads : option string
}.

Record Outside : Type := {
  found : result (option BackupRow);
  mkdir_fails : option exn;
  objects : result (list (string * option exn));
  metadata_read : result Files;
  url_fails : option exn;
  drop_fails : option exn;
  create_fails : option exn;
  restore_fails : option exn;
  access_fails : option exn;
  untar_fails : option exn;
  update_fails : option exn;
  audit_restored_fails : option exn;
  audit_failed_fails : option exn;
  restoredAt : string
}.

Record Service : Type := {
  s3 : bool;
  bucketName : option string;
  backupDir : string
}.

Record Restored : Type := {
  restored_backupId : string;
  restored_at : string;
  restoredBy : string
}.

Definition act (c : call) (fails : option exn) : M State unit :=
  match fails with
  | Some e => throw e
  | None => modify (fun done => done ++ [c])
  end.

Definition check (fails : option exn) : M State unit :=
  match fails with
  | Some e => throw e
  | None => ret tt
  end.

Definition join (dir name : string) : string := dir +:+ "/" +:+ name.

Fixpoint drop_chars (n : nat) (s : string) : string :=
  match n, s with
  | O, _ => s
  | S n', String _ r => drop_chars n' r
  | S _, EmptyString => EmptyString
  end.

(** [s.replace(pattern, replacement)] with a string pattern: the first
    occurrence only. *)
Fixpoint replace_first (pattern replacement s : string) : string :=
  if startsWith pattern s then replacement +:+ drop_chars (String.length pattern) s
  else match s with
       | EmptyString => EmptyString
       | String c r => String c (replace_first pattern replacement r)
       end.

Definition configured (svc : Service) : bool :=
  s3 svc && from_option truthy false (bucketName svc).

Definition option_truthy (f : option string) : bool := from_option truthy false f.

Section Run.
Variable svc : Service.
Variable out : Outside.

Fixpoint download_objects (os : list (string * option exn)) : M State unit :=
  match os with
  | [] => ret tt
  | (key, fails) :: rest => act (S3Get key) fails ;;; download_objects rest
  end.

(** [downloadFromS3(backupId)] *)
Definition downloadFromS3 (backupId : string) : M State string :=
  if negb (configured svc) then throw (Error "S3 not configured")
  else
    let downloadPath := join (backupDir svc) ("download-" +:+ backupId) in
    act (MkdirDownload downloadPath) (mkdir_fails out) ;;;
    os <- lift (objects out) ;;
    download_objects os ;;;
    ret downloadPath.

(** [restoreDatabase(backupPath, dbFile)] *)
Definition restoreDatabase (backupPath dbFile : string) : M State unit :=
  try_catch
    (check (url_fails out) ;;;
     act DropDatabase (drop_fails out) ;;;
     act CreateDatabase (create_fails out) ;;;
     act (PgRestore (join backupPath dbFile)) (restore_fails out))
    (fun error => throw (Error ("Database restoration failed: " +:+ message error))).

(** [restoreUploads(backupPath, uploadsFile)] *)
Definition restoreUploads (backupPath uploadsFile : string) : M State unit :=
  try_catch
    (check (access_fails out) ;;;
     act (Untar (join backupPath uploadsFile)) (untar_fails out))
    (fun error => ret tt).

(** [restoreBackup(backupId, userId)] *)
Definition restoreBackup (backupId userId : string) : M State Restored :=
  try_catch
    (backup <- lift (found out) ;;
     match backup with
     | None => throw (Error ("Backup " +:+ backupId +:+ " not found"))
     | Some row =>
         backupPath <- (match row_location row with
                        | None =>
                            throw (TypeError
                              "Cannot read properties of null (reading 'startsWith')")
                        | Some location =>
                            if startsWith "s3://" location
                            then downloadFromS3 backupId
                            else ret (replace_first "local:" EmptyString location)
                        end) ;;
         files <- lift (metadata_read out) ;;
         (match database files with
          | Some dbFile =>
              if truthy dbFile then restoreDatabase backupPath dbFile else ret tt
          | None => ret tt
          end) ;;;
         (match uploads files with
          | Some uploadsFile =>
              if truthy uploadsFile then restoreUploads backupPath uploadsFile else ret tt
          | None => ret tt
          end) ;;;
         act (BackupUpdate (row_id row) userId) (update_fails out) ;;;
         act (AuditCreate "BACKUP_RESTORED" userId backupId None)
             (audit_restored_fails out) ;;;
         ret {| restored_backupId := backupId; restored_at := restoredAt out;
                restoredBy := userId |}
     end)
    (fun error =>
       act (AuditCreate "BACKUP_RESTORE_FAILED" userId backupId (Some (message error)))
           (audit_failed_fails out) ;;;
       throw error).

End Run.

Definition touches_database (c : call) : bool :=
  match c with
  | DropDatabase | CreateDatabase | PgRestore _ => true
  | _ => false
  end.

Definition is_audit (c : call) : bool :=
  match c with
  | AuditCreate _ _ _ _ => true
  | _ => false
  end.

(** The audit entries among the calls made. *)
Definition audits (done : State) : State := List.filter is_audit done.

(** The record was found, it has a location, and the metadata read back
    names a database file. *)
Definition database_named (out : Outside) : bool :=
  match found out with
  | Ok (Some row) =>
      match row_location row, metadata_read out with
      | Some _, Ok files => option_truthy (database files)
      | _, _ => false
      end
  | _ => false
  end.

(** A computation that only appends calls accepted by [P]. *)
Definition only {A} (P : call -> bool) (m : M State A) : Prop :=
  forall done, exists new, fst (m done) = done ++ new /\ forallb P new = true.

(** A computation that has logged [entry], and nothing else in the
    audit trail, when it resolves (with a value accepted by [good]), and
    nothing when it throws. *)
Definition logs_when_done {A} (entry : call) (good : A -> Prop) (m : M State A) : Prop :=
  forall done, exists new,
    fst (m done) = done ++ new /\
    match snd (m done) with
    | Ok a => audits new = [entry] /\ good a
    | Throw _ => audits new = []
    end.

(** [JSON.parse] of the metadata that [createBackup] wrote with
    [JSON.stringify]: its [files]. *)
Definition read_back (m : Backup.Metadata) : Files :=
  {| database := Some (Backup.database (Backup.files m));
     uploads := Backup.uploads (Backup.files m) |}.

(** A run whose last database command fails. *)
Definition local_service : Service :=
  {| s3 := false; bucketName := None; backupDir := "/srv/backups" |}.

Definition failing_pg_restore : Outside :=
  {| found := Ok (Some {| row_id := 12;
                          row_location := Some "local:/srv/backups/backup-2025-05-14" |});
     mkdir_fails := None;
     objects := Ok [];
     metadata_read := Ok {| database := Some "database-2025-05-14.sql"; uploads := None |};
     url_fails := None;
     drop_fails := None;
     create_fails := None;
     restore_fails := Some (Error "Command failed: pg_restore");
     access_fails := None;
     untar_fails := None;
     update_fails := None;
     audit_restored_fails := None;
     audit_failed_fails := None;
     restoredAt := "2025-05-15T08:00:00.000Z" |}.

(** The restore of the backup made by [Backup.soft_failures] on the
    same machine. *)
Definition after_soft_failures : Outside :=
  {| found := Ok (Some {| row_id := 1;
                          row_location :=
                            Some "local:/srv/backups/backup-2025-05-14T00-00-00-000Z" |});
     mkdir_fails := None;
     objects := Ok [];
     metadata_read := Ok {| database := Some "database-2025-05-14T00-00-00-010Z.sql";
                            uploads := None |};
     url_fails := None;
     drop_fails := None;
     create_fails := None;
     restore_fails := None;
     access_fails := None;
     untar_fails := None;
     update_fails := None;
     audit_restored_fails := None;
     audit_failed_fails := None;
     restoredAt := "2025-05-15T08:00:00.000Z" |}.

(** What that backup run returned. *)
Definition soft_failures_created : Backup.Created :=
  Eval vm_compute in
    match snd (Backup.createBackup Backup.local_service Backup.soft_failures
                 "admin-1" "full" []) with
    | Ok created => created
    | Throw _ =>
        {| Backup.created_backupId := EmptyString;
           Backup.backupRecord :=
             {| Backup.backupId := EmptyString; Backup.type := EmptyString;
                Backup.size := None; Backup.location := None;
                Backup.status := EmptyString; Backup.createdById := EmptyString;
                Backup.metadata := None; Backup.error := None |};
           Backup.localPath := EmptyString; Backup.s3Location := None;
           Backup.created_size := NaN |}
    end.

Definition soft_failures_metadata : Backup.Metadata :=
  Eval vm_compute in
    default {| Backup.meta_id := EmptyString; Backup.meta_type := EmptyString;
               Backup.createdAt := EmptyString; Backup.createdBy := EmptyString;
               Backup.files := {| Backup.database := EmptyString; Backup.uploads := None |};
               Backup.meta_size := NaN |}
            (Backup.metadata (Backup.backupRecord soft_failures_created)).

Definition soft_failures_done : Backup.State :=
  Eval vm_compute in
    fst (Backup.createBackup Backup.local_service Backup.soft_failures "admin-1" "full" []).

Definition unknown_backup : Outside :=
  {| found := Ok None;
     mkdir_fails := None;
     objects := Ok [];
     metadata_read := Ok {| database := None; uploads := None |};
     url_fails := None;
     drop_fails := None;
     create_fails := None;
     restore_fails := None;
     access_fails := None;
     untar_fails := None;
     update_fails := None;
     audit_restored_fails := None;
     audit_failed_fails := None;
     restoredAt := "2025-05-15T08:00:00.000Z" |}.

End Restore.

(** ** The admin route that creates a backup *)

Module Routes.
Import JS Eff Backup.

(** The object a method runs on.  Class bodies are strict code: when a
    method is taken off its object and called on its own, [this] is
    undefined, and the first [this.<name>] throws. *)
Definition receiver (this : option Service) (name : string) : M State Service :=
  match this with
  | Some svc => ret svc
  | None =>
      throw (TypeError ("Cannot read properties of undefined (reading '"
                          +:+ name +:+ "')"))
  end.

(** [createBackup(userId, type)] with its receiver made explicit; the
    first use of [this] is [this.backupDir]. *)
Definition createBackup_on (out : Outside) (this : option Service) (userId type : string)
  : M State Created :=
  let backupId := "backup-" +:+ stamp (now_id out) in
  try_catch
    (svc <- receiver this "backupDir" ;;
     let backupPath := join (backupDir svc) backupId in
     act (Mkdir backupPath) (mkdir_fails out) ;;;
     dbBackupFile <- backupDatabase out backupPath ;;
     uploadsBackupFile <- backupUploads out backupPath ;;
     size <- getFolderSize out backupPath ;;
     let metadata :=
       {| meta_id := backupId; meta_type := type;
          createdAt := now_metadata out; createdBy := userId;
          files := {| database := dbBackupFile; uploads := uploadsBackupFile |};
          meta_size := size |} in
     act (WriteFile (join backupPath "metadata.json") metadata) (write_fails out) ;;;
     s3Location <- (if configured svc then uploadToS3 svc out backupId backupPath
                    else ret None) ;;
     let data :=
       {| backupId := backupId; type := type; size := Some size;
          location := Some (match s3Location with
                            | Some l => if truthy l then l else "local:" +:+ backupPath
                            | None => "local:" +:+ backupPath
                            end);
          status := "completed"; createdById := userId;
          metadata := Some metadata; error := None |} in
     act (BackupCreate data) (create_completed_fails out) ;;;
     cleanupOldBackups svc out ;;;
     ret {| created_backupId := backupId; backupRecord := data;
            localPath := backupPath; s3Location := s3Location;
            created_size := size |})
    (fun error =>
       act (BackupCreate
              {| backupId := backupId; type := type; size := None;
                 location := None; status := "failed"; createdById := userId;
                 metadata := None; error := Some (message error) |})
           (create_failed_fails out) ;;;
       throw error).

(** What does no more than insert a backup record. *)
Definition is_record (c : call) : bool :=
  match c with
  | BackupCreate _ => true
  | _ => false
  end.

Inductive response : Type :=
| Json200 (backup : Created)
| Json500 (error : string).

(** [router.post('/backup', ...)] for the signed-in user [userId]:
    [createBackup] was taken off the exported service object by
    [const { createBackup, restoreBackup } = require(...)] and is called
    without a receiver, with one argument. *)
Definition post_backup (out : Outside) (userId : string) (done : State)
  : State * response :=
  match createBackup_on out None userId "full" done with
  | (done', Ok backup) => (done', Json200 backup)
  | (done', Throw error) => (done', Json500 (message error))
  end.

End Routes.

(** ** Backup codes and the masking of phone numbers (class [TwoFactorService]) *)

Module TwoFactor.
Import JS Eff.

(** [phone.substring(start)] *)
Fixpoint substring_from (start : nat) (s : string) : string :=
  match start, s with
  | O, _ => s
  | S n, String _ r => substring_from n r
  | S _, EmptyString => EmptyString
  end.

(** [maskPhone(phone)]; [None] is a missing number (null or undefined). *)
Definition maskPhone (phone : option string) : string :=
  match phone with
  | None => "***"
  | Some phone =>
      if negb (truthy phone) || (String.length phone <? 4)%nat then "***"
      else String.substring 0 3 phone +:+ "****"
           +:+ substring_from (String.length phone - 2) phone
  end.

(** A row of the [twoFactorBackupCode] table; [id] is its key. *)
Record BackupCode : Type := {
  code_id : Z;
  code_userId : string;
  codeHash : string;
  used : bool;
  usedAt : option Z
}.

Record AuditEntry : Type := {
  audit_userId : string;
  audit_action : string;
  audit_codeId : Z;
  audit_ipAddress : string
}.

(** The table of backup codes and the audit log. *)
Record System : Type := {
  backupCodes : list BackupCode;
  auditLog : list AuditEntry
}.

(** What [verifyBackupCode] resolves with: [{ success: true, codeId }]
    or [{ success: false, error }]. *)
Inductive Verified : Type :=
| Accepted (codeId : Z)
| Rejected (error : string).

Record Generated : Type := {
  codes : list string;
  generatedAt : string
}.

Definition set_codes (t : list BackupCode) : M System unit :=
  modify (fun s => {| backupCodes := t; auditLog := auditLog s |}).

Definition log_audit (e : AuditEntry) : M System unit :=
  modify (fun s => {| backupCodes := backupCodes s; auditLog := auditLog s ++ [e] |}).

(** The key the database gives to the next row. *)
Definition next_id (t : list BackupCode) : Z :=
  1 + fold_right Z.max 0 (map code_id t).

(** [prisma.twoFactorBackupCode.createMany({ data })] with rows
    [{ userId, codeHash: hash, used: false }]. *)
Fixpoint createMany (userId : string) (hashes : list string) (t : list BackupCode)
  : list BackupCode :=
  match hashes with
  | [] => t
  | hash :: rest =>
      createMany userId rest
        (t ++ [ {| code_id := next_id t; code_userId := userId; codeHash := hash;
                   used := false; usedAt := None |} ])
  end.

Definition is_unused_of (userId : string) (r : BackupCode) : bool :=
  String.eqb (code_userId r) userId && negb (used r).

(** [prisma.twoFactorBackupCode.findMany({ where: { userId, used: false } })],
    in the order of the table. *)
Definition findMany_unused (userId : string) (t : list BackupCode) : list BackupCode :=
  List.filter (is_unused_of userId) t.

Definition mark_used (now : Z) (r : BackupCode) : BackupCode :=
  {| code_id := code_id r; code_userId := code_userId r; codeHash := codeHash r;
     used := true; usedAt := Some now |}.

(** [prisma.twoFactorBackupCode.update({ where: { id }, data: { used: true,
    usedAt } })]: the client rejects when no row has the key. *)
Definition update_used (id now : Z) (t : list BackupCode) : result (list BackupCode) :=
  if existsb (fun r => code_id r =? id) t
  then Ok (map (fun r => if code_id r =? id then mark_used now r else r) t)
  else Throw (Error "Record to update not found.").

Definition used_entry (userId : string) (id : Z) : AuditEntry :=
  {| audit_userId := userId; audit_action := "2FA_BACKUP_USED"; audit_codeId := id;
     audit_ipAddress := "127.0.0.1" |}.

Section Service.
(** [hashCode(code)]: the SHA-256 digest, in hexadecimal, of the code
    followed by the secret of the environment. *)
Variable hashCode : string -> string.

(** [verifyHash(code, hash)] *)
Definition verifyHash (code hash : string) : bool := String.eqb (hashCode code) hash.

(** [generateBackupCodes(userId)]; [random i] is the code made from the
    [i]-th call of [Math.random]. *)
Definition generateBackupCodes (userId : string) (random : nat -> string)
           (generated : string) : M System Generated :=
  try_catch
    (let codes := map random (seq 0 10) in
     let hashedCodes := map hashCode codes in
     (fun s => set_codes (createMany userId hashedCodes (backupCodes s)) s) ;;;
     ret {| codes := codes; generatedAt := generated |})
    (fun error => throw error).

(** The loop of [verifyBackupCode] over the rows found. *)
Fixpoint verify_loop (userId code : string) (now : Z) (rows : list BackupCode)
  : M System Verified :=
  match rows with
  | [] => ret (Rejected "Invalid backup code")
  | backupCode :: rest =>
      if verifyHash code (codeHash backupCode)
      then
        (fun s =>
           (t <- lift (update_used (code_id backupCode) now (backupCodes s)) ;;
            set_codes t) s) ;;;
        log_audit (used_entry userId (code_id backupCode)) ;;;
        ret (Accepted (code_id backupCode))
      else verify_loop userId code now rest
  end.

(** [verifyBackupCode(userId, code)] at time [now]. *)
Definition verifyBackupCode (userId code : string) (now : Z) : M System Verified :=
  try_catch
    (fun s => verify_loop userId code now (findMany_unused userId (backupCodes s)) s)
    (fun error => throw error).

End Service.

(** A stand-in for the digest in examples. *)
Definition tagged (code : string) : string := "sha256:" +:+ code.

Definition drawn (i : nat) : string :=
  nth i ["K3X9A7QP"; "ZZ81M0RT"; "B7Q2W8EN"; "H5D4C3XA"; "P0O9I8UY";
         "T6R5E4WQ"; "M1N2B3VC"; "L9K8J7HG"; "F6D5S4AP"; "Q1W2E3RT"] "00000000".

(** One member with two unused codes, another member with one. *)
Definition two_members : System :=
  {| backupCodes :=
       [ {| code_id := 1; code_userId := "member-1"; codeHash := tagged "AAAA1111";
            used := false; usedAt := None |};
         {| code_id := 2; code_userId := "member-2"; codeHash := tagged "CCCC3333";
            used := false; usedAt := None |};
         {| code_id := 3; code_userId := "member-1"; codeHash := tagged "BBBB2222";
            used := false; usedAt := None |} ];
     auditLog := [] |}.

End TwoFactor.

(** * Properties *)

(** ** The IP access gate *)

Section IPGateFacts.
Import JS IPGate.

Lemma ipToLong_of_number (n : number) :
  ipToLong (Num n) = Throw (TypeError "ip.split is not a function").
Proof. reflexivity. Qed.

Lemma ipToLong_of_string (s : string) : exists n, ipToLong (Str s) = Ok n.
Proof. unfold ipToLong. eauto. Qed.

(** Whatever the address, a range written in CIDR notation makes
    [isIPInRange] throw: the mask reaches [ipToLong] as a number. *)
Lemma isIPInRange_cidr_always_throws (ip : value) (range : string) :
  includes "/" range = true ->
  exists e, isIPInRange ip range = Throw e.
Proof.
  intros Hslash. unfold isIPInRange. rewrite Hslash.
  destruct ip as [ | n | s ]; cbn [ipToLong JS.bind]; eauto.
Qed.

(** The comparison itself, fed with the three integers, tells the two
    ranges of the specification apart. *)
Lemma mask_compare_on_integers :
  mask_compare (Int 3232235781) (Int 3232235776) (cidrToMask (Int 24)) = true /\
  mask_compare (Int 3232235781) (Int 3232236032) (cidrToMask (Int 24)) = false /\
  ipToLong (Str "192.168.1.5") = Ok (Int 3232235781) /\
  ipToLong (Str "192.168.1.0") = Ok (Int 3232235776) /\
  ipToLong (Str "192.168.2.0") = Ok (Int 3232236032).
Proof. repeat split; vm_compute; reflexivity. Qed.

(** C1. The range check compares [ip & mask] with [network & mask], but
    on the two examples of the specification it does not get that far:
    with 192.168.1.5 and either 192.168.1.0/24 or 192.168.2.0/24 the
    call ends in a TypeError instead of an answer. *)
Theorem isIPInRange_spec_examples_throw :
  isIPInRange (Str "192.168.1.5") "192.168.1.0/24"
    = Throw (TypeError "ip.split is not a function") /\
  isIPInRange (Str "192.168.1.5") "192.168.2.0/24"
    = Throw (TypeError "ip.split is not a function").
Proof. split; vm_compute; reflexivity. Qed.

(** Inside the gate: a member request from an address in a listed range
    ends in the exception, not in [next()] and not in a 403. *)
Example middleware_raises_on_range_entry :
  middleware ["192.168.1.0/24"] [] (direct_request "/api/members" "192.168.1.5")
  = ([], Raised (TypeError "ip.split is not a function")).
Proof. vm_compute. reflexivity. Qed.

(** For prefix lengths 1 to 32 the mask has that many leading ones. *)
Lemma cidrToMask_from_1_to_32 (p : Z) :
  1 <= p <= 32 -> cidrToMask (Int p) = Int (spec_mask p).
Proof.
  intros Hp.
  assert (Hn : exists n : nat, (n < 32)%nat /\ p = 32 - Z.of_nat n).
  { exists (Z.to_nat (32 - p)). lia. }
  destruct Hn as (n & Hn & ->).
  do 32 (destruct n as [ | n ]; [ vm_compute; reflexivity | ]).
  lia.
Qed.

(** C2. At prefix length 0 the shift count 32 wraps to 0, so the mask
    of /0 comes out as all ones where the mask with no leading one bit
    is 0; at 32 the mask is all ones as it should be. *)
Theorem cidrToMask_zero_prefix_all_ones :
  cidrToMask (Int 0) = Int 4294967295 /\
  spec_mask 0 = 0 /\
  cidrToMask (Int 32) = Int 4294967295.
Proof. repeat split; vm_compute; reflexivity. Qed.


Lemma scan_ranges_plain_entries (ip : value) (l : list string) :
  Forall (fun w => includes "/" w = false) l ->
  set_has ip l = false ->
  scan_ranges ip l = Ok false.
Proof.
  induction l as [ | w l IH ]; intros Hplain Hnot; [ reflexivity | ].
  inversion Hplain as [ | ? ? Hw Hl ]; subst.
  assert (Hne : strict_eq_str ip w = false /\ set_has ip l = false).
  { destruct ip as [ | n | s ]; cbn in *; try (split; reflexivity).
    rewrite bool_decide_eq_false in Hnot.
    split; apply bool_decide_eq_false; intros Hin; apply Hnot.
    - subst. apply list_elem_of_here.
    - apply list_elem_of_further. exact Hin. }
  destruct Hne as [Hw' Hl'].
  cbn [scan_ranges]. unfold isIPInRange. rewrite Hw. cbn [JS.bind].
  rewrite Hw'. apply IH; assumption.
Qed.



End IPGateFacts.

(** ** Reloading the cached sets *)

Section ReloadFacts.
Import JS IPGate.

Lemma exec_keeps_references (st : Store) (s : stmt) :
  this_whitelist (exec st s) = this_whitelist st /\
  this_adminIPs (exec st s) = this_adminIPs st.
Proof. destruct s; split; reflexivity. Qed.

Lemma fold_exec_keeps_references (l : list stmt) (st : Store) :
  this_whitelist (fold_left exec l st) = this_whitelist st /\
  this_adminIPs (fold_left exec l st) = this_adminIPs st.
Proof.
  revert st. induction l as [ | s l IH ]; intros st; [ split; reflexivity | ].
  cbn [fold_left]. destruct (IH (exec st s)) as [-> ->].
  apply exec_keeps_references.
Qed.

Lemma contents_with_heap_same (st : Store) (l : loc) (v : list string) :
  contents (with_heap st (<[l := v]> (heap st))) l = v.
Proof. unfold contents. cbn. rewrite lookup_insert_eq. reflexivity. Qed.

Lemma contents_with_heap_other (st : Store) (l l' : loc) (v : list string) :
  l <> l' -> contents (with_heap st (<[l := v]> (heap st))) l' = contents st l'.
Proof. intros Hne. unfold contents. cbn. rewrite lookup_insert_ne by exact Hne. reflexivity. Qed.

(** The additions, started from any store with two distinct sets, extend
    each set with the addresses meant for it, in table order. *)
Lemma add_entries_contents (es : list entry) (st : Store) :
  this_whitelist st <> this_adminIPs st ->
  let st' := fold_left exec (map add_entry es) st in
  contents st' (this_whitelist st)
    = fold_left (fun s x => set_add x s)
        (map ipAddress (List.filter (fun e => negb (isAdminIP e)) es))
        (contents st (this_whitelist st)) /\
  contents st' (this_adminIPs st)
    = fold_left (fun s x => set_add x s)
        (map ipAddress (List.filter isAdminIP es))
        (contents st (this_adminIPs st)).
Proof.
  revert st. induction es as [ | e es IH ]; intros st Hne; [ split; reflexivity | ].
  cbn [map fold_left List.filter].
  destruct (exec_keeps_references st (add_entry e)) as [Hw Ha].
  specialize (IH (exec st (add_entry e))).
  rewrite Hw, Ha in IH. specialize (IH Hne). cbn zeta in IH.
  destruct IH as [IHw IHa]. cbn zeta. rewrite IHw, IHa.
  unfold add_entry. destruct (isAdminIP e); cbn [negb map fold_left exec].
  - rewrite contents_with_heap_same.
    rewrite contents_with_heap_other by (intros Heq; apply Hne; symmetry; exact Heq).
    split; reflexivity.
  - rewrite contents_with_heap_same.
    rewrite contents_with_heap_other by exact Hne.
    split; reflexivity.
Qed.

Lemma reload_contents (es : list entry) (st : Store) :
  this_whitelist st <> this_adminIPs st ->
  let st' := loadWhitelist_resume (Ok es) st in
  contents st' (this_whitelist st) = regular_of es /\
  contents st' (this_adminIPs st) = admin_of es.
Proof.
  intros Hne. cbn zeta. unfold loadWhitelist_resume, reload_stmts.
  cbn [app fold_left]. rewrite fold_left_app. cbn [fold_left].
  set (cleared := exec (exec st (Clear this_whitelist)) (Clear this_adminIPs)).
  assert (Hw : this_whitelist cleared = this_whitelist st) by reflexivity.
  assert (Ha : this_adminIPs cleared = this_adminIPs st) by reflexivity.
  assert (Hcw : contents cleared (this_whitelist st) = []).
  { subst cleared. cbn [exec].
    change (this_adminIPs (with_heap st _)) with (this_adminIPs st).
    change (this_whitelist st) with
      (this_whitelist (with_heap st (<[this_whitelist st:=[]]> (heap st)))) at 3.
    rewrite contents_with_heap_other
      by (cbn; intros Heq; apply Hne; symmetry; exact Heq).
    apply contents_with_heap_same. }
  assert (Hca : contents cleared (this_adminIPs st) = []).
  { subst cleared. cbn [exec].
    change (this_adminIPs (with_heap st _)) with (this_adminIPs st).
    apply (contents_with_heap_same (with_heap st (<[this_whitelist st:=[]]> (heap st)))). }
  pose proof (add_entries_contents es cleared) as Hadd.
  rewrite Hw, Ha in Hadd. specialize (Hadd Hne). cbn zeta in Hadd.
  destruct Hadd as [Hrw Hra]. rewrite Hcw in Hrw. rewrite Hca in Hra.
  unfold contents in *. cbn [exec with_log heap]. split; assumption.
Qed.

(** C8, as worded: the reload installs no new set.  The reference the
    gate holds is the same before and after, the object it points at is
    the one whose elements change, and inside the continuation that
    object is empty for a while. *)
Lemma loadWhitelist_mutates_live_set :
  let st' := loadWhitelist_resume (Ok other_address_table) one_address_store in
  this_whitelist st' = this_whitelist one_address_store /\
  contents one_address_store (this_whitelist one_address_store) = ["10.0.0.1"] /\
  contents st' (this_whitelist one_address_store) = ["10.0.0.2"] /\
  exists mid, In mid (inside_turn (reload_stmts other_address_table) one_address_store) /\
              contents mid (this_whitelist mid) = [].
Proof.
  cbn zeta. repeat split; try (vm_compute; reflexivity).
  exists (exec one_address_store (Clear this_whitelist)).
  split; [ right; left; reflexivity | vm_compute; reflexivity ].
Qed.

Lemma between_turns_sets (st : Store) (found : result (list entry)) :
  this_whitelist st <> this_adminIPs st ->
  forall st', In st' (between_turns (loadWhitelist found) st) ->
    this_whitelist st' = this_whitelist st /\
    this_adminIPs st' = this_adminIPs st /\
    ((contents st' (this_whitelist st) = contents st (this_whitelist st) /\
      contents st' (this_adminIPs st) = contents st (this_adminIPs st))
     \/ (exists es, found = Ok es /\
           contents st' (this_whitelist st) = regular_of es /\
           contents st' (this_adminIPs st) = admin_of es)).
Proof.
  intros Hne st' Hin. cbn in Hin.
  destruct Hin as [<- | [<- | [<- | []]]].
  - repeat split; left; split; reflexivity.
  - repeat split; left; split; reflexivity.
  - destruct found as [es | e].
    + destruct (fold_exec_keeps_references (reload_stmts es) st) as [Hw Ha].
      split; [ exact Hw | ]. split; [ exact Ha | ].
      right. exists es. split; [ reflexivity | ].
      apply (reload_contents es st Hne).
    + repeat split; left; split; reflexivity.
Qed.

(** C8, amended.  The reload empties and refills the two live sets in
    place, but does so inside the one continuation that follows the
    database read: at every point where another callback can run, the
    gate holds the same two set objects, and they have either the
    elements they had before the reload or the elements of the table
    just read (a failed read leaves them as they were), so the
    middleware decides every request on the old sets or on the new
    ones. *)
Theorem loadWhitelist_between_turns (st : Store) (found : result (list entry)) :
  this_whitelist st <> this_adminIPs st ->
  forall st', In st' (between_turns (loadWhitelist found) st) ->
    this_whitelist st' = this_whitelist st /\
    this_adminIPs st' = this_adminIPs st /\
    ((contents st' (this_whitelist st) = contents st (this_whitelist st) /\
      contents st' (this_adminIPs st) = contents st (this_adminIPs st) /\
      forall req, middleware_at st' req = middleware_at st req)
     \/ (exists es, found = Ok es /\
           contents st' (this_whitelist st) = regular_of es /\
           contents st' (this_adminIPs st) = admin_of es /\
           forall req, middleware_at st' req
                       = middleware (regular_of es) (admin_of es) req)).
Proof.
  intros Hne st' Hin.
  destruct (between_turns_sets st found Hne st' Hin) as (Hw & Ha & Hsets).
  split; [ exact Hw | ]. split; [ exact Ha | ].
  unfold middleware_at. rewrite Hw, Ha.
  destruct Hsets as [[H1 H2] | (es & Hf & H1 & H2)].
  - left. rewrite H1, H2. repeat split; reflexivity.
  - right. exists es. rewrite H1, H2. repeat split; try reflexivity. exact Hf.
Qed.

Lemma loadWhitelist_between_turns_witness :
  let st' := loadWhitelist_resume (Ok other_address_table) one_address_store in
  this_whitelist one_address_store <> this_adminIPs one_address_store /\
  forall req, middleware_at st' req = middleware ["10.0.0.2"] [] req.
Proof.
  cbn zeta.
  assert (distinct : this_whitelist one_address_store <> this_adminIPs one_address_store)
    by (cbn; lia).
  split; [ exact distinct | ].
  destruct (loadWhitelist_between_turns one_address_store (Ok other_address_table) distinct
              (loadWhitelist_resume (Ok other_address_table) one_address_store))
    as (_ & _ & [(old & _) | (es & read & _ & _ & reader)]).
  - right. right. left. reflexivity.
  - vm_compute in old. discriminate.
  - injection read as <-. exact reader.
Defined.

End ReloadFacts.

(** ** The mail service *)

Section EmailFacts.
Import JS Eff Email.

Context {World : Type}.
Variable env : Env.
Variable htmlToText : string -> string.
Variable call_inherited : string -> context -> result string.

Local Abbreviation sendEmail := (Email.sendEmail World env htmlToText call_inherited).
Local Abbreviation bulk_step := (Email.bulk_step World env htmlToText call_inherited).
Local Abbreviation bulk_loop := (Email.bulk_loop World env htmlToText call_inherited).
Local Abbreviation sendBulkEmails := (Email.sendBulkEmails World env htmlToText call_inherited).
Local Abbreviation Dispatched := (Email.Dispatched env htmlToText call_inherited).
Local Abbreviation delayed := (Email.delayed World).
Local Abbreviation Turn := (Email.Turn env htmlToText call_inherited).
Local Abbreviation InTurn := (Email.InTurn env htmlToText call_inherited).

(** The context [sendEmail] renders with and the message it hands over. *)
Local Abbreviation context_of data :=
  (<["supportEmail" := Str "welfare@psntaraba.org.ng"]>
   (<["baseUrl" := Str (default "http://localhost:3000" (or_str (FRONTEND_URL env) None))]>
    (<["year" := Num (Int (year env))]> data))).

Local Abbreviation options_of to subject html :=
  {| from := dquote +:+ "PSN Taraba Welfare" +:+ dquote +:+ " <"
               +:+ show (or_str (SMTP_FROM env) (SMTP_USER env)) +:+ ">";
     to := to; subject := subject; html := html; text := htmlToText html |}.

(** [sendEmail] always resolves: whatever happens inside ends up in the
    value it returns.  Its events hold at most one send, addressed to
    [to], and no pause. *)
Lemma sendEmail_resolves (svc : Service World) (to subject templateName : string)
      (data : context) (st : State World) :
  exists st' res own,
    sendEmail svc to subject templateName data st = (st', Ok res) /\
    result_to res = to /\
    trace st' = trace st ++ own /\
    Forall (addressed_to to) own /\
    (length (List.filter is_send own) <= 1)%nat /\
    List.filter is_delay own = [].
Proof.
  unfold Email.sendEmail, try_catch, Eff.bind, lift, Email.sendMail, emit, modify, ret, throw.
  destruct (render _ _ _ _) as [html | e].
  - destruct (transporter svc) as [t | ].
    + destruct (t (world st) _) as [w [info | e]] eqn:Ht; cbn.
      * eexists _, _, [SendMail _; ConsoleLog _].
        split; [ reflexivity | ]. split; [ reflexivity | ].
        split; [ rewrite <- app_assoc; reflexivity | ].
        split; [ repeat constructor | ]. split; [ cbn; lia | reflexivity ].
      * eexists _, _, [SendMail _; ConsoleError _].
        split; [ reflexivity | ]. split; [ reflexivity | ].
        split; [ rewrite <- app_assoc; reflexivity | ].
        split; [ repeat constructor | ]. split; [ cbn; lia | reflexivity ].
    + cbn. eexists _, _, [ConsoleError _].
      split; [ reflexivity | ]. split; [ reflexivity | ].
      split; [ reflexivity | ].
      split; [ repeat constructor | ]. split; [ cbn; lia | reflexivity ].
  - cbn. eexists _, _, [ConsoleError _].
    split; [ reflexivity | ]. split; [ reflexivity | ].
    split; [ reflexivity | ].
    split; [ repeat constructor | ]. split; [ cbn; lia | reflexivity ].
Qed.


Lemma bulk_step_resolves (svc : Service World) (subject templateName : string)
      (data : context) (acc : list send_result) (r : Recipient) (st : State World) :
  exists st1 res,
    sendEmail svc (email r) subject templateName
              (spread data (default ∅ (variables r))) st = (st1, Ok res) /\
    bulk_step svc subject templateName data acc r st = (delayed st1, Ok (acc ++ [res])).
Proof.
  destruct (sendEmail_resolves svc (email r) subject templateName
              (spread data (default ∅ (variables r))) st)
    as (st1 & res & own & Hsend & _).
  exists st1, res. split; [ exact Hsend | ].
  unfold Email.bulk_step, try_catch, Eff.bind. rewrite Hsend. reflexivity.
Qed.

Lemma bulk_loop_dispatches (svc : Service World) (subject templateName : string)
      (data : context) (recipients : list Recipient) :
  forall (acc : list send_result) (st : State World),
  exists st' results,
    bulk_loop svc subject templateName data recipients acc st = (st', Ok (acc ++ results)) /\
    Dispatched svc subject templateName data st recipients results st'.
Proof.
  induction recipients as [ | r rest IH ]; intros acc st.
  - exists st, []. rewrite app_nil_r. split; [ reflexivity | constructor ].
  - destruct (bulk_step_resolves svc subject templateName data acc r st)
      as (st1 & res & Hsend & Hstep).
    destruct (IH (acc ++ [res]) (delayed st1)) as (st' & results & Hloop & Hd).
    exists st', (res :: results). split.
    + cbn [Email.bulk_loop]. unfold Eff.bind. rewrite Hstep, Hloop.
      rewrite <- app_assoc. reflexivity.
    + econstructor; eassumption.
Qed.


Lemma sent_plus_failed (results : list send_result) :
  (length (List.filter success results)
   + length (List.filter (fun r => negb (success r)) results))%nat
  = length results.
Proof.
  induction results as [ | r results IH ]; [ reflexivity | ].
  cbn [List.filter]. destruct (success r); cbn [negb length]; lia.
Qed.


(** One call of [sendEmail] is one turn. *)
Lemma sendEmail_turn (svc : Service World) (subject templateName : string)
      (data : context) (r : Recipient) (st : State World) :
  exists st1 res own,
    sendEmail svc (email r) subject templateName
              (spread data (default ∅ (variables r))) st = (st1, Ok res) /\
    trace st1 = trace st ++ own /\
    Turn svc subject templateName data (world st) r own res (world st1).
Proof.
  unfold Email.sendEmail, try_catch, Eff.bind, lift, Email.sendMail, emit, modify, ret, throw.
  destruct (render _ _ _ _) as [html | e] eqn:Hrender.
  - destruct (transporter svc) as [t | ] eqn:Ht.
    + destruct (t (world st) _) as [w [info | e]] eqn:Hsend; cbn.
      * eexists _, _, [SendMail _; ConsoleLog _].
        split; [ reflexivity | ]. split; [ rewrite <- app_assoc; reflexivity | ].
        eapply Turn_sent; eassumption.
      * eexists _, _, [SendMail _; ConsoleError _].
        split; [ reflexivity | ]. split; [ rewrite <- app_assoc; reflexivity | ].
        eapply Turn_refused; eassumption.
    + cbn. eexists _, _, [ConsoleError _].
      split; [ reflexivity | ]. split; [ reflexivity | ].
      eapply Turn_no_transport; eassumption.
  - cbn. eexists _, _, [ConsoleError _].
    split; [ reflexivity | ]. split; [ reflexivity | ].
    eapply Turn_no_message; eassumption.
Qed.

(** A turn holds at most one send, addressed to its recipient, and no
    pause. *)
Lemma Turn_block (svc : Service World) (subject templateName : string) (data : context)
      (w w' : World) (r : Recipient) (own : list event) (res : send_result) :
  Turn svc subject templateName data w r own res w' ->
  result_to res = email r /\
  Forall (addressed_to (email r)) own /\
  (length (List.filter is_send own) <= 1)%nat /\
  List.filter is_delay own = [].
Proof.
  intros H. destruct H; (split; [ reflexivity | ]);
    (split; [ repeat constructor | ]); (split; [ cbn; lia | reflexivity ]).
Qed.

Lemma Dispatched_in_turn (svc : Service World) (subject templateName : string)
      (data : context) (st st' : State World) (recipients : list Recipient)
      (results : list send_result) :
  Dispatched svc subject templateName data st recipients results st' ->
  exists events,
    trace st' = trace st ++ events /\
    InTurn svc subject templateName data (world st) recipients events results (world st') /\
    Sequential recipients events /\
    map result_to results = map email recipients.
Proof.
  induction 1 as [ st | st st1 st' r rest res results Hsend _ IH ].
  - exists []. rewrite app_nil_r. repeat split; constructor.
  - destruct IH as (later & Htrace & Hturns & Hseq & Hto).
    destruct (sendEmail_turn svc subject templateName data r st)
      as (st1' & res' & own & Hsend' & Hown & Hturn).
    rewrite Hsend in Hsend'. injection Hsend' as <- <-.
    destruct (Turn_block _ _ _ _ _ _ _ _ _ Hturn) as (Hres & Haddr & Hone & Hnodelay).
    exists (own ++ Delay 100 :: later). split.
    { rewrite Htrace. cbn [Email.delayed trace]. rewrite Hown.
      rewrite <- !app_assoc. reflexivity. }
    split; [ econstructor; [ exact Hturn | exact Hturns ] | ].
    split; [ constructor; assumption | ].
    cbn [map]. rewrite Hres, Hto. reflexivity.
Qed.

(** C5.  The bulk send never throws.  It serves the recipients one
    after the other in input order: each recipient gets its own call of
    [sendEmail], started in the state the pause after the previous one
    left; whenever the template renders and a transport is set, that
    call hands the recipient's message to the transport exactly once;
    and the pause of 100 ms follows every turn before the next one
    starts, so that no two sends overlap.  The summary has [total] equal
    to the number of recipients, in [results] the outcome of each
    recipient's turn in input order, and [sent + failed = total]. *)
Theorem sendBulkEmails_sequential_summary (svc : Service World)
        (recipients : list Recipient) (subject templateName : string)
        (data : context) (st : State World) :
  exists st' summary events,
    sendBulkEmails svc recipients subject templateName data st = (st', Ok summary) /\
    trace st' = trace st ++ events /\
    InTurn svc subject templateName data (world st) recipients events (results summary)
           (world st') /\
    Dispatched svc subject templateName data st recipients (results summary) st' /\
    Sequential recipients events /\
    total summary = length recipients /\
    map result_to (results summary) = map email recipients /\
    sent summary = length (List.filter success (results summary)) /\
    (sent summary + failed summary)%nat = total summary.
Proof.
  destruct (bulk_loop_dispatches svc subject templateName data recipients [] st)
    as (st' & results & Hloop & Hd).
  cbn [app] in Hloop.
  destruct (Dispatched_in_turn _ _ _ _ _ _ _ _ Hd) as (events & Htrace & Hturns & Hseq & Hto).
  eexists st', _, events. split.
  - unfold Email.sendBulkEmails, Eff.bind, ret. rewrite Hloop. reflexivity.
  - cbn [Email.results total sent failed].
    split; [ exact Htrace | ]. split; [ exact Hturns | ]. split; [ exact Hd | ].
    split; [ exact Hseq | ]. split; [ reflexivity | ].
    split; [ exact Hto | ]. split; [ reflexivity | ].
    rewrite sent_plus_failed.
    rewrite <- (length_map result_to), Hto, length_map. reflexivity.
Qed.

(** C6, amended.  A template name that the templates object does not
    answer to makes [sendEmail] fail without a send: the error is thrown
    and caught inside, logged, and handed to the caller as a failed
    outcome carrying the message; nothing is raised. *)
Theorem sendEmail_unknown_template (svc : Service World)
        (to subject templateName : string) (data : context) (st : State World) :
  templates svc !! templateName = None ->
  templateName ∉ object_prototype_keys ->
  let error := "Template " +:+ dquote +:+ templateName +:+ dquote +:+ " not found" in
  sendEmail svc to subject templateName data st
    = ({| world := world st;
          trace := trace st ++ [ConsoleError ("❌ Email sending failed: " +:+ error)] |},
       Ok (Failed error to subject)).
Proof.
  intros Hnone Hproto error.
  unfold Email.sendEmail, try_catch, Eff.bind, lift, emit, modify, ret, get_template.
  rewrite Hnone. rewrite bool_decide_eq_false_2 by exact Hproto.
  reflexivity.
Qed.

End EmailFacts.

Section EmailExamples.
Import JS Eff Email.

Local Abbreviation sendEmail := (Email.sendEmail nat test_env id no_builtin).

(** C6, as worded: with the two built-in templates loaded, a send that
    names another template is not raised to the caller; the call
    resolves with a value. *)
Lemma sendEmail_unknown_template_not_raised :
  templates picky_service !! "newsletter" = None /\
  snd (sendEmail picky_service "member@example.org" "News" "newsletter" ∅ fresh_state)
    = Ok (Failed ("Template " +:+ dquote +:+ "newsletter" +:+ dquote +:+ " not found")
                 "member@example.org" "News") /\
  (forall e, snd (sendEmail picky_service "member@example.org" "News" "newsletter" ∅
                            fresh_state) <> Throw e).
Proof.
  split; [ reflexivity | ]. split; [ vm_compute; reflexivity | ].
  intros e. vm_compute. discriminate.
Qed.


Lemma sendEmail_unknown_template_witness :
  sendEmail picky_service "member@example.org" "News" "newsletter" ∅ fresh_state
    = ({| world := 0%nat;
          trace := [ConsoleError ("❌ Email sending failed: " +:+ "Template " +:+ dquote
                                    +:+ "newsletter" +:+ dquote +:+ " not found")] |},
       Ok (Failed ("Template " +:+ dquote +:+ "newsletter" +:+ dquote +:+ " not found")
                  "member@example.org" "News")).
Proof.
  apply (sendEmail_unknown_template test_env id no_builtin picky_service
           "member@example.org" "News" "newsletter" ∅ fresh_state).
  - reflexivity.
  - apply (bool_decide_unpack ("newsletter" ∉ object_prototype_keys)). vm_compute. exact I.
Defined.

(** The refused address in the middle does not stop the third one. *)
Example sendBulkEmails_three_recipients :
  snd (Email.sendBulkEmails nat test_env id no_builtin picky_service three_recipients
                            "Dues" "reminder" ∅ fresh_state)
  = Ok {| total := 3; sent := 2; failed := 1;
          results := [Sent "<queued>" "first@example.org" "Dues";
                      Failed "550 mailbox unavailable" "bad@example.org" "Dues";
                      Sent "<queued>" "third@example.org" "Dues"] |}.
Proof. vm_compute. reflexivity. Qed.

(** The events of that run: three turns, each closed by the pause, the
    refused message handed over like the others. *)
Example sendBulkEmails_three_recipients_trace :
  map (fun e => match e with
                | SendMail options => "send " +:+ to options
                | Delay _ => "pause"
                | ConsoleLog _ => "log"
                | ConsoleError _ => "error"
                end)
      (trace (fst (Email.sendBulkEmails nat test_env id no_builtin picky_service
                     three_recipients "Dues" "reminder" ∅ fresh_state)))
  = ["send first@example.org"; "log"; "pause";
     "send bad@example.org"; "error"; "pause";
     "send third@example.org"; "log"; "pause"] /\
  world (fst (Email.sendBulkEmails nat test_env id no_builtin picky_service
                three_recipients "Dues" "reminder" ∅ fresh_state)) = 3%nat.
Proof. split; vm_compute; reflexivity. Qed.

End EmailExamples.

(** ** Next of kin on the dashboard *)

Section DashboardFacts.
Import JS Dashboard.

Variable trim : string -> string.
Variable isValidNigerianPhone : string -> bool.
Variable isValidEmail : string -> bool.

Local Abbreviation saveNewKin := (Dashboard.saveNewKin trim isValidNigerianPhone isValidEmail).
Local Abbreviation accepted := (Dashboard.accepted trim isValidNigerianPhone isValidEmail).

Lemma primary_count_clear (l : list Kin) : primary_count (clear_primary l) = 0%nat.
Proof.
  unfold primary_count, clear_primary.
  induction l as [ | k l IH ]; [ reflexivity | exact IH ].
Qed.

Lemma primary_count_push (l : list Kin) (k : Kin) :
  primary_count (l ++ [k]) = (primary_count l + if isPrimary k then 1 else 0)%nat.
Proof.
  unfold primary_count. rewrite List.filter_app, length_app. cbn [List.filter].
  destruct (isPrimary k); reflexivity.
Qed.

Lemma primary_count_store (l : list Kin) (i : nat) (k : Kin) :
  (primary_count (<[i := k]> l) <= primary_count l + if isPrimary k then 1 else 0)%nat /\
  (isPrimary k = false -> (primary_count (<[i := k]> l) <= primary_count l)%nat).
Proof.
  unfold primary_count.
  assert (Hmain : (length (List.filter isPrimary (<[i := k]> l))
                   <= length (List.filter isPrimary l)
                      + if isPrimary k then 1 else 0)%nat).
  { revert i. induction l as [ | x l IH ]; intros i.
    - destruct i; cbn; lia.
    - destruct i as [ | i ].
      + change (<[0%nat := k]> (x :: l)) with (k :: l). cbn [List.filter].
        destruct (isPrimary k), (isPrimary x); cbn [length]; lia.
      + change (<[S i := k]> (x :: l)) with (x :: <[i := k]> l). cbn [List.filter].
        specialize (IH i). destruct (isPrimary x); cbn [length]; lia. }
  split; [ exact Hmain | ].
  intros Hk. rewrite Hk in Hmain. lia.
Qed.

(** The list of next of kin after a save, by the checks and the branch
    taken. *)
Lemma saveNewKin_rejected (form : KinForm) (out : Outside) (st : DashboardState) :
  accepted form = false -> nextOfKin (saveNewKin form out st) = nextOfKin st.
Proof.
  unfold Dashboard.accepted, Dashboard.saveNewKin. intros Hrej.
  destruct (falsy _ || falsy _ || falsy _); [ reflexivity | ].
  destruct (isValidNigerianPhone _); [ | reflexivity ].
  cbn [negb andb] in Hrej. cbn [negb].
  destruct (truthy _ && negb _); [ reflexivity | discriminate ].
Qed.

Lemma saveNewKin_bound (form : KinForm) (out : Outside) (st : DashboardState) :
  accepted form = true ->
  (primary_count (nextOfKin (saveNewKin form out st))
   <= if default false (isPrimaryKin form) then 1 else primary_count (nextOfKin st))%nat.
Proof.
  unfold Dashboard.accepted, Dashboard.saveNewKin. intros Hacc.
  destruct (falsy _ || falsy _ || falsy _); [ discriminate | ].
  destruct (isValidNigerianPhone _); [ | discriminate ].
  cbn [negb andb] in Hacc. cbn [negb].
  destruct (truthy _ && negb _); [ discriminate | ]. clear Hacc.
  set (primary := default false (isPrimaryKin form)).
  set (st1 := if primary then with_kin st (clear_primary (nextOfKin st)) else st).
  assert (Hst1 : (primary_count (nextOfKin st1)
                  = if primary then 0 else primary_count (nextOfKin st))%nat).
  { subst st1. destruct primary; [ apply primary_count_clear | reflexivity ]. }
  destruct (isEditing st1 && from_option truthy false (currentEditId st1)).
  - destruct (ApiService out) as [[error | ] | ].
    + cbn [failed_to_save notify nextOfKin]. rewrite Hst1. destruct primary; lia.
    + destruct (findIndex _ _) as [index | ]; cbn [finish notify with_kin nextOfKin].
      * match goal with
        | |- context [<[index := ?k]> ?l] =>
            destruct (primary_count_store l index k) as [Hle Hfalse]
        end.
        cbn [isPrimary] in Hle, Hfalse. rewrite Hst1 in Hle, Hfalse.
        destruct primary; [ lia | ]. specialize (Hfalse eq_refl). lia.
      * rewrite Hst1. destruct primary; lia.
    + destruct (findIndex _ _) as [index | ]; cbn [finish notify with_kin nextOfKin].
      * match goal with
        | |- context [<[index := ?k]> ?l] =>
            destruct (primary_count_store l index k) as [Hle Hfalse]
        end.
        cbn [isPrimary] in Hle, Hfalse. rewrite Hst1 in Hle, Hfalse.
        destruct primary; [ lia | ]. specialize (Hfalse eq_refl). lia.
      * rewrite Hst1. destruct primary; lia.
  - destruct (ApiService out) as [[error | ] | ];
      cbn [failed_to_save finish notify with_kin nextOfKin];
      rewrite ?primary_count_push; cbn [isPrimary]; rewrite Hst1;
      destruct primary; lia.
Qed.

(** C7. A save keeps the list of next of kin at no more than one
    primary contact; an accepted save that sets the primary flag leaves
    at most one whatever the list held before, because every existing
    entry has its flag cleared first. *)
Theorem saveNewKin_at_most_one_primary (form : KinForm) (out : Outside)
        (st : DashboardState) :
  ((primary_count (nextOfKin st) <= 1)%nat ->
   (primary_count (nextOfKin (saveNewKin form out st)) <= 1)%nat) /\
  (accepted form = true -> isPrimaryKin form = Some true ->
   (primary_count (nextOfKin (saveNewKin form out st)) <= 1)%nat) /\
  primary_count (clear_primary (nextOfKin st)) = 0%nat.
Proof.
  split; [ | split ].
  - intros Hinv. destruct (accepted form) eqn:Hacc.
    + pose proof (saveNewKin_bound form out st Hacc) as Hb.
      destruct (default false (isPrimaryKin form)); lia.
    + rewrite (saveNewKin_rejected form out st Hacc). exact Hinv.
  - intros Hacc Hprimary. pose proof (saveNewKin_bound form out st Hacc) as Hb.
    rewrite Hprimary in Hb. exact Hb.
  - apply primary_count_clear.
Qed.

End DashboardFacts.

Section DashboardExamples.
Import JS Dashboard.

Lemma saveNewKin_at_most_one_primary_witness :
  (primary_count (nextOfKin mock_state) <= 1)%nat /\
  Dashboard.accepted (fun s => s) (fun _ => true) (fun _ => true) new_primary_form = true /\
  (primary_count (nextOfKin (Dashboard.saveNewKin (fun s => s) (fun _ => true) (fun _ => true)
                               new_primary_form no_backend mock_state)) <= 1)%nat.
Proof.
  destruct (saveNewKin_at_most_one_primary (fun s => s) (fun _ => true) (fun _ => true)
              new_primary_form no_backend mock_state) as (kept & cleared & _).
  assert (before : (primary_count (nextOfKin mock_state) <= 1)%nat)
    by (vm_compute; lia).
  assert (passes : Dashboard.accepted (fun s => s) (fun _ => true) (fun _ => true)
                                      new_primary_form = true)
    by reflexivity.
  split; [ exact before | ]. split; [ exact passes | ].
  pose proof (cleared passes eq_refl) as by_clearing.
  exact (kept before).
Defined.

(** The new contact is the only primary one afterwards. *)
Example saveNewKin_moves_primary :
  map (fun k => (id k, isPrimary k))
      (nextOfKin (Dashboard.saveNewKin (fun s => s) (fun _ => true) (fun _ => true)
                    new_primary_form no_backend mock_state))
  = [("1", false); ("2", false); ("a1B2c3D4", true)].
Proof. vm_compute. reflexivity. Qed.

End DashboardExamples.

(** ** The backup service *)

Section BackupFacts.
Import JS Eff Backup.

Variable svc : Service.
Variable out : Outside.

Lemma persisted_app (a b : State) : persisted (a ++ b) = persisted a ++ persisted b.
Proof. unfold persisted. apply omap_app. Qed.

Lemma quiet_ret {A} (a : A) : quiet (ret a).
Proof. intros done. exists []. rewrite app_nil_r. split; reflexivity. Qed.

Lemma quiet_throw {A} (e : exn) : quiet (@throw State A e).
Proof. intros done. exists []. rewrite app_nil_r. split; reflexivity. Qed.

Lemma quiet_lift {A} (r : result A) : quiet (lift r).
Proof. intros done. exists []. rewrite app_nil_r. split; reflexivity. Qed.

Lemma quiet_act (c : call) (fails : option exn) :
  (forall d, c <> BackupCreate d) -> quiet (act c fails).
Proof.
  intros Hc done. destruct fails as [e | ]; cbn.
  - exists []. rewrite app_nil_r. split; reflexivity.
  - exists [c]. split; [ reflexivity | ].
    destruct c; try reflexivity. exfalso. eapply Hc. reflexivity.
Qed.

Lemma quiet_bind {A B} (m : M State A) (k : A -> M State B) :
  quiet m -> (forall a, quiet (k a)) -> quiet (Eff.bind m k).
Proof.
  intros Hm Hk done. unfold Eff.bind.
  destruct (Hm done) as (new1 & E1 & Q1).
  destruct (m done) as [d1 [a | e]]; cbn [fst] in E1; subst d1.
  - destruct (Hk a (done ++ new1)) as (new2 & E2 & Q2).
    exists (new1 ++ new2). rewrite E2, app_assoc, persisted_app, Q1, Q2.
    split; reflexivity.
  - exists new1. split; [ reflexivity | exact Q1 ].
Qed.

Lemma quiet_try_catch {A} (m : M State A) (h : exn -> M State A) :
  quiet m -> (forall e, quiet (h e)) -> quiet (try_catch m h).
Proof.
  intros Hm Hh done. unfold try_catch.
  destruct (Hm done) as (new1 & E1 & Q1).
  destruct (m done) as [d1 [a | e]]; cbn [fst] in E1; subst d1.
  - exists new1. split; [ reflexivity | exact Q1 ].
  - destruct (Hh e (done ++ new1)) as (new2 & E2 & Q2).
    exists (new1 ++ new2). rewrite E2, app_assoc, persisted_app, Q1, Q2.
    split; reflexivity.
Qed.

Lemma quiet_upload_files (backupId : string) (fs : list (string * option exn)) :
  quiet (upload_files backupId fs).
Proof.
  induction fs as [ | [file fails] fs IH ]; cbn [upload_files].
  - apply quiet_ret.
  - apply quiet_bind; [ apply quiet_act; discriminate | intros _; exact IH ].
Qed.

Lemma quiet_remove_old (limit : Z) (ds : list (string * result Stat * option exn)) :
  quiet (remove_old svc limit ds).
Proof.
  induction ds as [ | [[file st] fails] ds IH ]; cbn [remove_old].
  - apply quiet_ret.
  - apply quiet_bind; [ apply quiet_lift | intros stats ].
    apply quiet_bind; [ | intros _; exact IH ].
    destruct (isDirectory stats && _); [ apply quiet_act; discriminate | apply quiet_ret ].
Qed.

(** The cleanup never throws and inserts nothing. *)
Lemma cleanupOldBackups_absorbs (done : State) :
  exists new, cleanupOldBackups svc out done = (done ++ new, Ok tt) /\ persisted new = [].
Proof.
  assert (Hq : quiet (cleanupOldBackups svc out)).
  { unfold cleanupOldBackups. apply quiet_try_catch; [ | intros e; apply quiet_ret ].
    apply quiet_bind; [ apply quiet_lift | intros backups ].
    apply quiet_bind.
    - destruct (30 <? length backups)%nat; [ apply quiet_act; discriminate | apply quiet_ret ].
    - intros _. apply quiet_bind; [ apply quiet_lift | intros ds; apply quiet_remove_old ]. }
  destruct (Hq done) as (new & E & Q). exists new. split; [ | exact Q ].
  assert (Hok : snd (cleanupOldBackups svc out done) = Ok tt).
  { unfold cleanupOldBackups, try_catch.
    destruct (Eff.bind _ _ done) as [d [[] | e]]; reflexivity. }
  destruct (cleanupOldBackups svc out done) as [d r]. cbn in E, Hok. subst. reflexivity.
Qed.

(** The archive of uploads never throws either. *)
Lemma backupUploads_absorbs (backupPath : string) (done : State) :
  exists new file, backupUploads out backupPath done = (done ++ new, Ok file)
                   /\ persisted new = [].
Proof.
  unfold backupUploads, try_catch, Eff.bind, act, modify, ret, throw.
  destruct (tar_fails out) as [e | ].
  - exists [], None. rewrite app_nil_r. split; reflexivity.
  - eexists [_], _. split; reflexivity.
Qed.

Lemma uploadToS3_outcome (backupId backupPath : string) (done : State) :
  configured svc = true ->
  exists new r, uploadToS3 svc out backupId backupPath done = (done ++ new, r)
    /\ persisted new = []
    /\ match r with
       | Ok l => l = Some ("s3://" +:+ default EmptyString (bucketName svc) +:+ "/backups/" +:+ backupId)
                 /\ exists fs, listing out = Ok fs /\ forallb (fun f => resolves (snd f)) fs = true
       | Throw _ => match listing out with
                    | Ok fs => forallb (fun f => resolves (snd f)) fs = false
                    | Throw _ => True
                    end
       end.
Proof.
  intros Hc. unfold uploadToS3. rewrite Hc. cbn [negb]. unfold Eff.bind at 1, lift.
  destruct (listing out) as [fs | e].
  - assert (Hup : forall done, exists new r,
               upload_files backupId fs done = (done ++ new, r) /\ persisted new = [] /\
               match r with
               | Ok _ => forallb (fun f => resolves (snd f)) fs = true
               | Throw _ => forallb (fun f => resolves (snd f)) fs = false
               end).
    { clear done. induction fs as [ | [file fails] fs IH ]; intros done.
      - exists [], (Ok tt). rewrite app_nil_r. repeat split; reflexivity.
      - cbn [upload_files forallb snd]. unfold Eff.bind, act, modify, throw.
        destruct fails as [e | ]; cbn [resolves andb].
        + exists [], (Throw e). rewrite app_nil_r. repeat split; reflexivity.
        + destruct (IH (done ++ [S3Upload ("backups/" +:+ backupId +:+ "/" +:+ file)]))
            as (new & r & E & Q & Hr).
          exists (S3Upload ("backups/" +:+ backupId +:+ "/" +:+ file) :: new), r.
          rewrite E, <- app_assoc. repeat split; assumption. }
    destruct (Hup done) as (new & r & E & Q & Hr).
    unfold Eff.bind, ret. rewrite E. destruct r as [[] | e].
    + exists new, (Ok (Some ("s3://" +:+ default EmptyString (bucketName svc) +:+ "/backups/" +:+ backupId))).
      split; [ reflexivity | ]. split; [ exact Q | ]. split; [ reflexivity | ].
      exists fs. split; [ reflexivity | exact Hr ].
    + exists new, (Throw e). split; [ reflexivity | ]. split; [ exact Q | exact Hr ].
  - exists [], (Throw e). rewrite app_nil_r. repeat split; reflexivity.
Qed.

Lemma bind_unfold {A B} (m : M State A) (k : A -> M State B) (done : State) :
  Eff.bind m k done
  = match m done with
    | (done', Ok a) => k a done'
    | (done', Throw e) => (done', Throw e)
    end.
Proof. reflexivity. Qed.

Lemma act_unfold (c : call) (fails : option exn) (done : State) :
  act c fails done
  = match fails with
    | None => (done ++ [c], Ok tt)
    | Some e => (done, Throw e)
    end.
Proof. destruct fails; reflexivity. Qed.

Lemma backupDatabase_unfold (backupPath : string) (done : State) :
  backupDatabase out backupPath done
  = let filename := "database-" +:+ stamp (now_database out) +:+ ".sql" in
    match dump_fails out with
    | None => (done ++ [PgDump (join backupPath filename)], Ok filename)
    | Some e => (done, Throw (Error ("Database backup failed: " +:+ message e)))
    end.
Proof.
  unfold backupDatabase, try_catch, Eff.bind, act, modify, ret, throw.
  destruct (dump_fails out); reflexivity.
Qed.

Lemma getFolderSize_unfold (folderPath : string) (done : State) :
  exists size, getFolderSize out folderPath done = (done, Ok size).
Proof. unfold getFolderSize. destruct (du out); eexists; reflexivity. Qed.

Lemma s3_stage (backupId backupPath : string) (done : State) :
  exists new r,
    (if configured svc then uploadToS3 svc out backupId backupPath else ret None) done
      = (done ++ new, r) /\
    persisted new = [] /\
    (negb (configured svc)
     || match listing out with
        | Ok fs => forallb (fun f => resolves (snd f)) fs
        | Throw _ => false
        end)
    = match r with
      | Ok _ => true
      | Throw _ => false
      end.
Proof.
  destruct (configured svc) eqn:Hc; cbn [negb orb].
  - destruct (uploadToS3_outcome backupId backupPath done Hc) as (new & r & E & Q & Hr).
    exists new, r. split; [ exact E | ]. split; [ exact Q | ].
    destruct r as [l | e].
    + destruct Hr as (_ & fs & -> & Hfs). exact Hfs.
    + destruct (listing out); [ exact Hr | reflexivity ].
  - exists [], (Ok None). rewrite app_nil_r. repeat split; reflexivity.
Qed.

Ltac same_state := rewrite <- ?app_assoc; reflexivity.

Ltac no_record :=
  unfold persisted in *; rewrite ?omap_app; cbn [omap app];
  repeat match goal with
         | H : omap _ _ = [] |- _ => rewrite H
         end;
  reflexivity.

(** C10, amended.  A run inserts at most one backup record.  It
    resolves exactly when no fatal step fails (creating the directory,
    dumping the database, writing the metadata, the upload when S3 is
    configured, inserting the record), and the one record it has then
    inserted has status completed, a location and a size, whether or not
    the archive of uploads, the sizing and the cleanup went well.  When
    a fatal step fails and the failure record can be inserted, that
    record, with status failed and the message of the error, is the only
    one inserted and the same error is thrown again; when that insertion
    fails too, no record is inserted and its error is the one thrown. *)
Theorem createBackup_records_once (userId type : string) (done : State) :
  exists new,
    fst (createBackup svc out userId type done) = done ++ new /\
    match snd (createBackup svc out userId type done) with
    | Ok created =>
        fatal_steps_ok svc out = true /\
        persisted new = [backupRecord created] /\
        status (backupRecord created) = "completed" /\
        is_Some (location (backupRecord created)) /\
        is_Some (size (backupRecord created))
    | Throw e =>
        fatal_steps_ok svc out = false /\
        match create_failed_fails out with
        | None => exists d, persisted new = [d] /\ status d = "failed"
                            /\ error d = Some (message e)
        | Some e' => e = e' /\ persisted new = []
        end
    end.
Proof.
  unfold createBackup, try_catch.
  match goal with
  | |- context [ match ?b done with _ => _ end ] => set (body := b)
  end.
  assert (Hbody : exists new r, body done = (done ++ new, r) /\
            match r with
            | Ok created =>
                fatal_steps_ok svc out = true /\
                persisted new = [backupRecord created] /\
                status (backupRecord created) = "completed" /\
                is_Some (location (backupRecord created)) /\
                is_Some (size (backupRecord created))
            | Throw e => fatal_steps_ok svc out = false /\ persisted new = []
            end).
  { subst body. unfold fatal_steps_ok.
    rewrite bind_unfold, act_unfold.
    destruct (mkdir_fails out) as [e | ]; cbn [resolves andb].
    { exists [], (Throw e). rewrite app_nil_r. repeat split; reflexivity. }
    rewrite bind_unfold, backupDatabase_unfold. cbn zeta.
    destruct (dump_fails out) as [e | ]; cbn [resolves andb].
    { eexists _, (Throw _). split; [ same_state | ]. split; [ reflexivity | no_record ]. }
    rewrite bind_unfold.
    match goal with
    | |- context [backupUploads out ?p ?d] =>
        destruct (backupUploads_absorbs p d) as (up & file & Eup & Qup)
    end.
    rewrite Eup.
    rewrite bind_unfold.
    match goal with
    | |- context [getFolderSize out ?p ?d] =>
        destruct (getFolderSize_unfold p d) as (sz & Esize)
    end.
    rewrite Esize.
    rewrite bind_unfold, act_unfold.
    destruct (write_fails out) as [e | ]; cbn [resolves andb].
    { eexists _, (Throw e). split; [ same_state | ]. split; [ reflexivity | no_record ]. }
    rewrite bind_unfold.
    match goal with
    | |- context [(if configured svc then ?m else _) ?d] =>
        destruct (s3_stage ("backup-" +:+ stamp (now_id out))
                           (join (backupDir svc) ("backup-" +:+ stamp (now_id out))) d)
          as (s3new & s3r & Es3 & Qs3 & Hs3)
    end.
    rewrite Es3, Hs3. clear Hs3.
    destruct s3r as [s3Location | e]; cbn [andb].
    2: { eexists _, (Throw e). split; [ same_state | ]. split; [ reflexivity | no_record ]. }
    rewrite bind_unfold, act_unfold.
    destruct (create_completed_fails out) as [e | ]; cbn [resolves andb].
    { eexists _, (Throw e). split; [ same_state | ]. split; [ reflexivity | no_record ]. }
    rewrite bind_unfold.
    match goal with
    | |- context [cleanupOldBackups svc out ?d] =>
        destruct (cleanupOldBackups_absorbs d) as (swept & Esw & Qsw)
    end.
    rewrite Esw. unfold ret.
    eexists _, (Ok _). split; [ same_state | ].
    cbn [backupRecord status location size].
    split; [ reflexivity | ]. split; [ no_record | ].
    split; [ reflexivity | ]. split; eexists; reflexivity. }
  destruct Hbody as (new & r & Ebody & Hr). rewrite Ebody.
  destruct r as [created | e].
  - exists new. cbn [fst snd]. split; [ reflexivity | exact Hr ].
  - destruct Hr as [Hfatal Hq].
    rewrite bind_unfold, act_unfold.
    destruct (create_failed_fails out) as [e' | ]; cbn [fst snd].
    + exists new. split; [ reflexivity | ]. split; [ exact Hfatal | ].
      split; [ reflexivity | exact Hq ].
    + eexists. split; [ same_state | ]. split; [ exact Hfatal | ].
      eexists. split; [ no_record | ]. split; reflexivity.
Qed.

End BackupFacts.

Section BackupExamples.
Import JS Eff Backup.

(** C10, as worded: the archive of uploads, the sizing of the folder
    and the cleanup fail, yet the run resolves and the one record it
    inserts says completed. *)
Lemma createBackup_absorbs_soft_failures :
  tar_fails soft_failures = Some (Error "Command failed: tar") /\
  exists done created,
    createBackup local_service soft_failures "admin-1" "full" [] = (done, Ok created) /\
    map status (persisted done) = ["completed"].
Proof. split; [ reflexivity | ]. eexists _, _. split; vm_compute; reflexivity. Qed.

(** A failed dump is recorded as failed and thrown again. *)
Example createBackup_dump_failure :
  exists done,
    createBackup local_service dump_failure "admin-1" "full" []
      = (done, Throw (Error "Database backup failed: Command failed: pg_dump")) /\
    map (fun d => (status d, error d)) (persisted done)
      = [("failed", Some "Database backup failed: Command failed: pg_dump")].
Proof. eexists. split; vm_compute; reflexivity. Qed.

End BackupExamples.

(** ** The reminder batch *)

Section ReminderFacts.
Import Reminder.

Context {World : Type}.
Variable deliver : World -> string -> string -> World * JS.result string.

Local Abbreviation dispatch_to := (Reminder.dispatch_to World deliver).
Local Abbreviation dispatch := (Reminder.dispatch World deliver).
Local Abbreviation run := (Reminder.run World deliver).














End ReminderFacts.

Section ReminderScenario.
Import Reminder.

(** The scenario of the specification: a birthday stored as 2024-05-15,
    annual, for the member alone, evaluated on 2025-05-14 at 00:00 with
    the 24 hour window, is due once, gets one entry marked sent, and is
    no longer due at 12:00 the same day. *)
Example birthday_scenario :
  let once := Reminder.run unit always_delivers midnight_14_may default_window
                           birthday_system in
  length (evaluate midnight_14_may default_window (dates birthday_system)
                   (log birthday_system)) = 1%nat /\
  map (fun e => (target e, address e, result e)) (log once)
    = [(7, "ada@example.org", sent)] /\
  evaluate noon_14_may default_window (dates once) (log once) = [].
Proof. cbn zeta. repeat split; vm_compute; reflexivity. Qed.



End ReminderScenario.

(** ** More on the IP access gate: addresses as numbers, the allow-list scan *)

Section AddressFacts.
Import JS IPGate.

Lemma ToInt32_small (z : Z) : - 2 ^ 31 <= z < 2 ^ 31 -> ToInt32 z = z.
Proof.
  intros Hz. unfold ToInt32.
  change (2 ^ 32) with 4294967296 in *. change (2 ^ 31) with 2147483648 in *.
  destruct (Z.leb_spec 2147483648 (z mod 4294967296)); Z.div_mod_to_equations; lia.
Qed.

Lemma ToInt32_congruent (z : Z) : (ToInt32 z) mod 2 ^ 32 = z mod 2 ^ 32.
Proof.
  unfold ToInt32.
  change (2 ^ 32) with 4294967296 in *. change (2 ^ 31) with 2147483648 in *.
  destruct (Z.leb_spec 2147483648 (z mod 4294967296)); Z.div_mod_to_equations; lia.
Qed.

(** One step of the [reduce] in [ipToLong], on numbers. *)
Lemma shl_8_add (acc o : Z) :
  add (shl (Int acc) (Int 8)) (Int o) = Int (ToInt32 (ToInt32 acc * 256) + o).
Proof.
  unfold add, shl. cbn [int32_of uint32_of].
  replace (Z.land (ToUint32 8) 31) with 8 by reflexivity.
  rewrite Z.shiftl_mul_pow2 by lia. reflexivity.
Qed.

Lemma ushr_0 (z : Z) : ushr (Int z) (Int 0) = Int (z mod 2 ^ 32).
Proof.
  unfold ushr. cbn [uint32_of].
  replace (Z.land (ToUint32 0) 31) with 0 by reflexivity.
  rewrite Z.shiftr_0_r. reflexivity.
Qed.

Lemma fold_octets (pieces : list string) (acc : number) :
  fold_left (fun acc octet => add (shl acc (Int 8)) (parseInt octet (Some 10))) pieces acc
  = fold_left (fun acc o => add (shl acc (Int 8)) o)
              (map (fun octet => parseInt octet (Some 10)) pieces) acc.
Proof.
  revert acc. induction pieces as [ | p pieces IH ]; intros acc; [ reflexivity | ].
  cbn [fold_left map]. apply IH.
Qed.

(** X1.  A dotted quad whose four pieces parse to octets between 0 and
    255 is read as the unsigned number a.b.c.d stands for, also when the
    signed intermediate value of the shifts is negative. *)
Theorem ipToLong_dotted_quad (s : string) (a b c d : Z) :
  map (fun octet => parseInt octet (Some 10)) (split "." s) = [Int a; Int b; Int c; Int d] ->
  0 <= a <= 255 -> 0 <= b <= 255 -> 0 <= c <= 255 -> 0 <= d <= 255 ->
  ipToLong (Str s) = Ok (Int (a * 2 ^ 24 + b * 2 ^ 16 + c * 2 ^ 8 + d)).
Proof.
  intros Hparse Ha Hb Hc Hd. unfold ipToLong. rewrite fold_octets, Hparse.
  cbn [fold_left]. rewrite !shl_8_add.
  rewrite (ToInt32_small 0) by lia.
  rewrite (ToInt32_small (0 * 256)) by lia.
  rewrite (ToInt32_small (0 * 256 + a)) by lia.
  rewrite (ToInt32_small ((0 * 256 + a) * 256)) by lia.
  rewrite (ToInt32_small ((0 * 256 + a) * 256 + b)) by lia.
  rewrite (ToInt32_small (((0 * 256 + a) * 256 + b) * 256)) by lia.
  rewrite (ToInt32_small (((0 * 256 + a) * 256 + b) * 256 + c)) by lia.
  rewrite ushr_0. f_equal. f_equal.
  rewrite Z.add_mod by lia. rewrite ToInt32_congruent. rewrite <- Z.add_mod by lia.
  rewrite Z.mod_small by lia. ring.
Qed.

Lemma ipToLong_dotted_quad_witness :
  ipToLong (Str "192.168.1.5") = Ok (Int (192 * 2 ^ 24 + 168 * 2 ^ 16 + 1 * 2 ^ 8 + 5)).
Proof.
  apply (ipToLong_dotted_quad "192.168.1.5" 192 168 1 5); [ reflexivity | lia .. ].
Defined.

(** X2.  On a string, [ipToLong] never throws and always returns an
    integer from 0 to 2^32 - 1, whatever the string holds. *)
Theorem ipToLong_string_in_range (s : string) :
  exists n, ipToLong (Str s) = Ok (Int n) /\ 0 <= n < 2 ^ 32.
Proof.
  unfold ipToLong.
  set (acc := fold_left _ _ _).
  exists (uint32_of acc). split.
  - unfold ushr. replace (Z.land (uint32_of (Int 0)) 31) with 0 by reflexivity.
    rewrite Z.shiftr_0_r. reflexivity.
  - destruct acc as [ | z ]; cbn [uint32_of]; [ lia | ].
    unfold ToUint32. apply Z.mod_pos_bound. lia.
Qed.

(** X3.  With no entry in CIDR notation in the general allow-list,
    [isIPAllowed] never throws and answers exactly whether the address
    is an entry of the list. *)
Theorem isIPAllowed_plain_list (whitelist : list string) (ip : value) :
  Forall (fun w => includes "/" w = false) whitelist ->
  isIPAllowed whitelist ip = Ok (set_has ip whitelist).
Proof.
  intros Hplain. unfold isIPAllowed.
  destruct (set_has ip whitelist) eqn:Hhas; [ reflexivity | ].
  apply scan_ranges_plain_entries; assumption.
Qed.

Lemma isIPAllowed_plain_list_witness :
  isIPAllowed ["10.0.0.1"; "10.0.0.2"] (Str "10.0.0.2") = Ok true /\
  isIPAllowed ["10.0.0.1"; "10.0.0.2"] (Str "10.0.0.3") = Ok false.
Proof.
  split.
  - apply (isIPAllowed_plain_list ["10.0.0.1"; "10.0.0.2"] (Str "10.0.0.2")).
    repeat constructor.
  - apply (isIPAllowed_plain_list ["10.0.0.1"; "10.0.0.2"] (Str "10.0.0.3")).
    repeat constructor.
Defined.

Lemma scan_ranges_reaches_range (ip : value) (l : list string) :
  set_has ip l = false ->
  Exists (fun w => includes "/" w = true) l ->
  exists e, scan_ranges ip l = Throw e.
Proof.
  induction l as [ | w l IH ]; intros Hnot Hex; [ inversion Hex | ].
  cbn [scan_ranges].
  destruct (includes "/" w) eqn:Hw.
  - destruct (isIPInRange_cidr_always_throws ip w Hw) as [e He].
    exists e. rewrite He. reflexivity.
  - assert (Hne : strict_eq_str ip w = false /\ set_has ip l = false).
    { destruct ip as [ | n | s ]; cbn in *; try (split; reflexivity).
      rewrite bool_decide_eq_false in Hnot.
      split; apply bool_decide_eq_false; intros Hin; apply Hnot.
      - subst. apply list_elem_of_here.
      - apply list_elem_of_further. exact Hin. }
    destruct Hne as [Hw' Hl'].
    unfold isIPInRange. rewrite Hw. cbn [JS.bind]. rewrite Hw'.
    apply IH; [ exact Hl' | ].
    inversion Hex as [ ? ? Hhead | ? ? Htail ]; subst; [ congruence | exact Htail ].
Qed.

(** X4.  Once the general allow-list holds an entry in CIDR notation, a
    request to a path that is neither open nor an admin path, from a
    client that is not itself an entry, gets neither [next()] nor a 403:
    the middleware ends in an exception, and nothing is logged. *)
Theorem middleware_raises_with_range_entry (whitelist adminIPs : list string)
        (req : Request) :
  bool_decide (path req = "/health") || startsWith "/api/auth" (path req) = false ->
  startsWith "/api/admin" (path req) = false ->
  set_has (getClientIP req) whitelist = false ->
  Exists (fun w => includes "/" w = true) whitelist ->
  exists e, middleware whitelist adminIPs req = ([], Raised e).
Proof.
  intros Hopen Hadmin Hnot Hex. apply orb_false_iff in Hopen as [H1 H2].
  destruct (scan_ranges_reaches_range _ _ Hnot Hex) as [e He].
  exists e. unfold middleware, isIPAllowed. rewrite H1, H2, Hnot, Hadmin, He. reflexivity.
Qed.

Lemma middleware_raises_with_range_entry_witness :
  exists e, middleware ["10.0.0.1"; "172.16.0.0/12"] ["10.0.0.9"]
                       (direct_request "/api/members" "203.0.113.7") = ([], Raised e).
Proof.
  apply (middleware_raises_with_range_entry ["10.0.0.1"; "172.16.0.0/12"] ["10.0.0.9"]
           (direct_request "/api/members" "203.0.113.7")); try reflexivity.
  right. left. reflexivity.
Defined.

(** The first piece of a split is what stands before the first
    separator. *)
Lemma split_whole (c : ascii) (first : string) :
  includes c first = false -> split c first = [first].
Proof.
  induction first as [ | d r IH ]; [ reflexivity | ].
  cbn [includes split]. destruct (Ascii.eqb c d); [ discriminate | ].
  intros H. rewrite (IH H). reflexivity.
Qed.

Lemma split_before_separator (c : ascii) (first rest : string) :
  includes c first = false ->
  exists pieces, split c (first +:+ String c rest) = first :: pieces.
Proof.
  induction first as [ | d r IH ]; intros Hno.
  - change (EmptyString +:+ String c rest) with (String c rest).
    cbn [split]. rewrite Ascii.eqb_refl. eexists. reflexivity.
  - change (String d r +:+ String c rest) with (String d (r +:+ String c rest)).
    cbn [includes] in Hno. cbn [split].
    destruct (Ascii.eqb c d); [ discriminate | ].
    destruct (IH Hno) as (pieces & ->). eexists. reflexivity.
Qed.

(** X5.  The client address: [req.ip] when it is set, and only otherwise
    the X-Forwarded-For header, of which exactly the piece before the
    first comma is used (the whole header when it holds no comma); if
    that piece is empty or the header is absent, the address of the
    connection. *)
Theorem getClientIP_precedence (req : Request) :
  (value_truthy (req_ip req) = true -> getClientIP req = req_ip req) /\
  (value_truthy (req_ip req) = false ->
   forall h first,
     x_forwarded_for req = Some h ->
     includes "," first = false ->
     (h = first \/ exists rest, h = first +:+ String "," rest) ->
     getClientIP req = if truthy first then Str first else remoteAddress req) /\
  (value_truthy (req_ip req) = false -> x_forwarded_for req = None ->
   getClientIP req = remoteAddress req).
Proof.
  unfold getClientIP, or_else. repeat split.
  - intros Hip. rewrite Hip. reflexivity.
  - intros Hip h first Hh Hno Hshape. rewrite Hip, Hh.
    assert (Hfirst : nth 0 (split "," h) EmptyString = first).
    { destruct Hshape as [-> | (rest & ->)].
      - rewrite (split_whole _ _ Hno). reflexivity.
      - destruct (split_before_separator "," first rest Hno) as (pieces & ->). reflexivity. }
    rewrite Hfirst. reflexivity.
  - intros Hip Hh. rewrite Hip, Hh. reflexivity.
Qed.

Lemma getClientIP_precedence_witness :
  getClientIP {| req_ip := Str "198.51.100.4"; x_forwarded_for := Some "10.0.0.1, 10.0.0.2";
                 remoteAddress := Str "127.0.0.1"; path := "/api/members";
                 user_id := Undefined; user_agent := Undefined |} = Str "198.51.100.4" /\
  getClientIP {| req_ip := Undefined; x_forwarded_for := Some "10.0.0.1, 10.0.0.2";
                 remoteAddress := Str "127.0.0.1"; path := "/api/members";
                 user_id := Undefined; user_agent := Undefined |} = Str "10.0.0.1" /\
  getClientIP {| req_ip := Undefined; x_forwarded_for := Some ",10.0.0.2";
                 remoteAddress := Str "127.0.0.1"; path := "/api/members";
                 user_id := Undefined; user_agent := Undefined |} = Str "127.0.0.1".
Proof.
  split; [ | split ].
  - apply (getClientIP_precedence
             {| req_ip := Str "198.51.100.4"; x_forwarded_for := Some "10.0.0.1, 10.0.0.2";
                remoteAddress := Str "127.0.0.1"; path := "/api/members";
                user_id := Undefined; user_agent := Undefined |}).
    reflexivity.
  - destruct (getClientIP_precedence
                {| req_ip := Undefined; x_forwarded_for := Some "10.0.0.1, 10.0.0.2";
                   remoteAddress := Str "127.0.0.1"; path := "/api/members";
                   user_id := Undefined; user_agent := Undefined |}) as (_ & forwarded & _).
    apply (forwarded eq_refl "10.0.0.1, 10.0.0.2" "10.0.0.1" eq_refl eq_refl).
    right. exists " 10.0.0.2". reflexivity.
  - destruct (getClientIP_precedence
                {| req_ip := Undefined; x_forwarded_for := Some ",10.0.0.2";
                   remoteAddress := Str "127.0.0.1"; path := "/api/members";
                   user_id := Undefined; user_agent := Undefined |}) as (_ & forwarded & _).
    apply (forwarded eq_refl ",10.0.0.2" EmptyString eq_refl eq_refl).
    right. exists "10.0.0.2". reflexivity.
Defined.

End AddressFacts.

(** ** Managing the allow-list *)

Section AllowListFacts.
Import JS Eff IPGate IPGateAdmin.

Lemma elem_of_fold_set_add (l acc : list string) (x : string) :
  x ∈ fold_left (fun s y => set_add y s) l acc <-> x ∈ acc \/ x ∈ l.
Proof.
  revert acc. induction l as [ | y l IH ]; intros acc; cbn [fold_left].
  - split; [ intros H; left; exact H | intros [H | H]; [ exact H | inversion H ] ].
  - rewrite IH. unfold set_add. destruct (bool_decide (y ∈ acc)) eqn:Hy.
    + apply bool_decide_eq_true in Hy. rewrite elem_of_cons.
      split; [ intros [H | H]; auto | intros [H | [-> | H]]; auto ].
    + rewrite elem_of_app, list_elem_of_singleton.
      rewrite elem_of_cons.
      split; [ intros [[H | H] | H]; auto | intros [H | [H | H]]; auto ].
Qed.

Lemma existsb_pointwise {A} (f g : A -> bool) (l : list A) :
  (forall a, f a = g a) -> existsb f l = existsb g l.
Proof.
  intros Hfg. induction l as [ | a l IH ]; [ reflexivity | ].
  cbn [existsb]. rewrite Hfg, IH. reflexivity.
Qed.

Lemma set_has_fold (es : list entry) (keep : entry -> bool) (x : string) :
  set_has (Str x)
          (fold_left (fun s y => set_add y s) (map ipAddress (List.filter keep es)) [])
  = existsb (fun e => keep e && bool_decide (ipAddress e = x)) es.
Proof.
  cbn [set_has]. apply eq_true_iff_eq.
  rewrite bool_decide_eq_true, elem_of_fold_set_add, existsb_exists.
  split.
  - intros [H | H]; [ inversion H | ].
    apply list_elem_of_In, in_map_iff in H as (e & <- & He).
    apply List.filter_In in He as [He Hk].
    exists e. split; [ exact He | ]. rewrite Hk. cbn. apply bool_decide_eq_true. reflexivity.
  - intros (e & He & Hk). apply andb_true_iff in Hk as [Hk Hx].
    apply bool_decide_eq_true in Hx. right.
    apply list_elem_of_In, in_map_iff. exists e. split; [ exact Hx | ].
    apply List.filter_In. split; assumption.
Qed.

Lemma existsb_enabled (t : list Row) (keep : entry -> bool) (x : string) :
  existsb (fun e => keep e && bool_decide (ipAddress e = x)) (findMany_enabled t)
  = existsb (fun r => row_enabled r
                      && keep {| ipAddress := row_ipAddress r; isAdminIP := row_isAdminIP r |}
                      && matches_key x r) t.
Proof.
  unfold findMany_enabled.
  induction t as [ | r t IH ]; [ reflexivity | ].
  cbn [List.filter]. destruct (row_enabled r) eqn:Hen; cbn [map existsb ipAddress isAdminIP].
  - rewrite IH, Hen. reflexivity.
  - rewrite IH, Hen. reflexivity.
Qed.

(** After a reload the two sets say what the enabled rows of the table
    say, and the gate still points at the same two sets. *)
Lemma reload_mirrors_table (s : System) (x : string) :
  this_whitelist (cache s) <> this_adminIPs (cache s) ->
  let s' := fst (reload s) in
  table s' = table s /\ audit s' = audit s /\
  this_whitelist (cache s') = this_whitelist (cache s) /\
  this_adminIPs (cache s') = this_adminIPs (cache s) /\
  in_general s' x = listed false (table s) x /\
  in_admin s' x = listed true (table s) x.
Proof.
  intros Hne. cbn zeta. cbn [reload modify fst table audit cache].
  destruct (fold_exec_keeps_references (reload_stmts (findMany_enabled (table s))) (cache s))
    as [Hw Ha].
  destruct (reload_contents (findMany_enabled (table s)) (cache s) Hne) as [Hcw Hca].
  cbn zeta in Hcw, Hca. cbn [loadWhitelist_resume] in *.
  split; [ reflexivity | ]. split; [ reflexivity | ].
  split; [ exact Hw | ]. split; [ exact Ha | ].
  unfold in_general, in_admin. cbn [cache loadWhitelist_resume].
  rewrite Hw, Ha, Hcw, Hca. unfold regular_of, admin_of, listed.
  rewrite !set_has_fold, !existsb_enabled. split.
  - apply existsb_pointwise. intros r. cbn [isAdminIP].
    destruct (row_enabled r), (row_isAdminIP r), (matches_key x r); reflexivity.
  - apply existsb_pointwise. intros r. cbn [isAdminIP].
    destruct (row_enabled r), (row_isAdminIP r), (matches_key x r); reflexivity.
Qed.

Lemma listed_unknown (ip : string) (t : list Row) (admin : bool) :
  findUnique ip t = None -> listed admin t ip = false.
Proof.
  unfold findUnique, listed. induction t as [ | r t IH ]; [ reflexivity | ].
  cbn [List.find existsb]. destruct (matches_key ip r) eqn:Hk; [ discriminate | ].
  intros Hnone. rewrite (IH Hnone), andb_false_r. reflexivity.
Qed.

Lemma listed_other_rows (ip x : string) (change : Row -> Row) (t : list Row) (admin : bool) :
  x <> ip ->
  (forall r, row_ipAddress (change r) = row_ipAddress r) ->
  listed admin (map (fun r => if matches_key ip r then change r else r) t) x
  = listed admin t x.
Proof.
  intros Hne Hkey. unfold listed. induction t as [ | r t IH ]; [ reflexivity | ].
  cbn [map existsb]. rewrite IH. f_equal.
  destruct (matches_key ip r) eqn:Hk; [ | reflexivity ].
  apply bool_decide_eq_true in Hk.
  assert (H1 : matches_key x (change r) = false).
  { apply bool_decide_eq_false. rewrite Hkey, Hk. congruence. }
  assert (H2 : matches_key x r = false).
  { apply bool_decide_eq_false. rewrite Hk. congruence. }
  rewrite H1, H2, !andb_false_r. reflexivity.
Qed.

Lemma listed_changed_rows (ip : string) (change : Row -> Row) (t : list Row)
      (admin enabled' admin' : bool) :
  (forall r, row_ipAddress (change r) = row_ipAddress r) ->
  (forall r, row_enabled (change r) = enabled') ->
  (forall r, enabled' = true -> row_isAdminIP (change r) = admin') ->
  listed admin (map (fun r => if matches_key ip r then change r else r) t) ip
  = existsb (matches_key ip) t && enabled' && Bool.eqb admin' admin.
Proof.
  intros Hkey Hen Hadm. unfold listed. induction t as [ | r t IH ]; [ reflexivity | ].
  cbn [map existsb]. rewrite IH.
  destruct (matches_key ip r) eqn:Hk.
  - assert (Hk' : matches_key ip (change r) = true).
    { apply bool_decide_eq_true. rewrite Hkey. apply bool_decide_eq_true in Hk. exact Hk. }
    rewrite Hk', Hen. destruct enabled'; cbn [andb orb].
    + rewrite (Hadm r eq_refl). destruct (Bool.eqb admin' admin), (existsb _ t); reflexivity.
    + rewrite andb_false_r. reflexivity.
  - rewrite Hk, andb_false_r. reflexivity.
Qed.

Lemma findUnique_some_exists (ip : string) (t : list Row) (r : Row) :
  findUnique ip t = Some r -> existsb (matches_key ip) t = true.
Proof.
  unfold findUnique. intros H. apply existsb_exists. exists r.
  apply List.find_some in H. exact H.
Qed.

Lemma listed_appended (ip x : string) (t : list Row) (row : Row) (admin : bool) :
  listed admin (t ++ [row]) x
  = listed admin t x
    || (row_enabled row && matches_key x row && Bool.eqb (row_isAdminIP row) admin).
Proof. unfold listed. rewrite existsb_app. cbn [existsb]. rewrite orb_false_r. reflexivity. Qed.

(** The table [addIP] leaves behind. *)
Lemma addIP_unfold (s : System) (ip notes addedBy : string) (isAdminIP : bool) (now : Z) :
  let t' :=
    match findUnique ip (table s) with
    | Some _ =>
        map (fun r => if matches_key ip r
                      then {| row_ipAddress := row_ipAddress r; row_isAdminIP := isAdminIP;
                              row_notes := notes; row_enabled := true;
                              row_addedBy := row_addedBy r; row_updatedBy := Some addedBy;
                              row_updatedAt := Some now |}
                      else r) (table s)
    | None =>
        table s ++ [ {| row_ipAddress := ip; row_isAdminIP := isAdminIP; row_notes := notes;
                        row_enabled := true; row_addedBy := addedBy; row_updatedBy := None;
                        row_updatedAt := None |} ]
    end in
  let s2 := fst (reload {| table := t'; cache := cache s; audit := audit s |}) in
  addIP ip isAdminIP notes addedBy now s
  = ({| table := table s2; cache := cache s2;
        audit := audit s2 ++ [ {| audit_userId := addedBy;
                                  audit_action := "IP_WHITELIST_ADDED";
                                  audit_details := Added ip isAdminIP notes;
                                  audit_ipAddress := ip |} ] |}, Ok tt).
Proof.
  cbn zeta. unfold addIP, try_catch, update.
  destruct (findUnique ip (table s)); reflexivity.
Qed.

(** X6.  After [addIP(ip, isAdminIP, ...)] the address is an element of
    exactly one of the two cached sets, the admin set if [isAdminIP] and
    the general set if not, whether the address was new, disabled or
    listed the other way before; every other address is in the sets it
    was listed for in the table, and one audit entry has been written. *)
Theorem addIP_then_member (s : System) (ip notes addedBy : string) (isAdminIP : bool)
        (now : Z) :
  this_whitelist (cache s) <> this_adminIPs (cache s) ->
  exists s',
    addIP ip isAdminIP notes addedBy now s = (s', Ok tt) /\
    in_general s' ip = negb isAdminIP /\
    in_admin s' ip = isAdminIP /\
    (forall x, x <> ip ->
       in_general s' x = listed false (table s) x /\ in_admin s' x = listed true (table s) x) /\
    audit s' = audit s ++ [ {| audit_userId := addedBy; audit_action := "IP_WHITELIST_ADDED";
                               audit_details := Added ip isAdminIP notes;
                               audit_ipAddress := ip |} ].
Proof.
  intros Hne. rewrite addIP_unfold. cbn zeta.
  match goal with
  | |- context [reload ?s1] =>
      pose proof (fun x => reload_mirrors_table s1 x Hne) as Hm; cbn zeta in Hm;
      set (s2 := fst (reload s1)) in *
  end.
  cbn [table] in Hm.
  eexists. split; [ reflexivity | ].
  unfold in_general, in_admin in *. cbn [cache audit].
  destruct (findUnique ip (table s)) as [r | ] eqn:Hfind.
  - split; [ | split; [ | split ] ].
    + destruct (Hm ip) as (_ & _ & _ & _ & Hg & _). rewrite Hg.
      rewrite (listed_changed_rows ip _ (table s) false true isAdminIP)
        by (intros; reflexivity).
      rewrite (findUnique_some_exists ip _ r Hfind). destruct isAdminIP; reflexivity.
    + destruct (Hm ip) as (_ & _ & _ & _ & _ & Ha). rewrite Ha.
      rewrite (listed_changed_rows ip _ (table s) true true isAdminIP)
        by (intros; reflexivity).
      rewrite (findUnique_some_exists ip _ r Hfind). destruct isAdminIP; reflexivity.
    + intros x Hx. destruct (Hm x) as (_ & _ & _ & _ & Hg & Ha). rewrite Hg, Ha.
      rewrite !(listed_other_rows ip x) by (intros; (exact Hx || reflexivity)).
      split; reflexivity.
    + destruct (Hm ip) as (_ & -> & _). reflexivity.
  - assert (Hself : matches_key ip
              {| row_ipAddress := ip; row_isAdminIP := isAdminIP; row_notes := notes;
                 row_enabled := true; row_addedBy := addedBy; row_updatedBy := None;
                 row_updatedAt := None |} = true)
      by (apply bool_decide_eq_true; reflexivity).
    split; [ | split; [ | split ] ].
    + destruct (Hm ip) as (_ & _ & _ & _ & Hg & _). rewrite Hg.
      rewrite (listed_appended ip), (listed_unknown ip _ _ Hfind), Hself.
      cbn. destruct isAdminIP; reflexivity.
    + destruct (Hm ip) as (_ & _ & _ & _ & _ & Ha). rewrite Ha.
      rewrite (listed_appended ip), (listed_unknown ip _ _ Hfind), Hself.
      cbn. destruct isAdminIP; reflexivity.
    + intros x Hx. destruct (Hm x) as (_ & _ & _ & _ & Hg & Ha). rewrite Hg, Ha.
      rewrite !(listed_appended ip).
      assert (Hother : matches_key x
                {| row_ipAddress := ip; row_isAdminIP := isAdminIP; row_notes := notes;
                   row_enabled := true; row_addedBy := addedBy; row_updatedBy := None;
                   row_updatedAt := None |} = false)
        by (apply bool_decide_eq_false; cbn; congruence).
      rewrite Hother. cbn [andb]. rewrite !andb_false_r, !orb_false_r. split; reflexivity.
    + destruct (Hm ip) as (_ & -> & _). reflexivity.
Qed.

Lemma removeIP_unfold (s : System) (ip removedBy : string) (now : Z) (r : Row) :
  findUnique ip (table s) = Some r ->
  let t' :=
    map (fun r => if matches_key ip r
                  then {| row_ipAddress := row_ipAddress r; row_isAdminIP := row_isAdminIP r;
                          row_notes := row_notes r; row_enabled := false;
                          row_addedBy := row_addedBy r; row_updatedBy := Some removedBy;
                          row_updatedAt := Some now |}
                  else r) (table s) in
  let s2 := fst (reload {| table := t'; cache := cache s; audit := audit s |}) in
  removeIP ip removedBy now s
  = ({| table := table s2; cache := cache s2;
        audit := audit s2 ++ [ {| audit_userId := removedBy;
                                  audit_action := "IP_WHITELIST_REMOVED";
                                  audit_details := Removed ip;
                                  audit_ipAddress := ip |} ] |}, Ok tt).
Proof.
  intros Hfind. cbn zeta. unfold removeIP, try_catch, update. rewrite Hfind. reflexivity.
Qed.

(** X7.  [removeIP(ip, ...)] of an address that has a row takes it out
    of both cached sets, leaves every other address in the sets it was
    listed for, and writes one audit entry. *)
Theorem removeIP_then_absent (s : System) (ip removedBy : string) (now : Z) (r : Row) :
  this_whitelist (cache s) <> this_adminIPs (cache s) ->
  findUnique ip (table s) = Some r ->
  exists s',
    removeIP ip removedBy now s = (s', Ok tt) /\
    in_general s' ip = false /\
    in_admin s' ip = false /\
    (forall x, x <> ip ->
       in_general s' x = listed false (table s) x /\ in_admin s' x = listed true (table s) x) /\
    audit s' = audit s ++ [ {| audit_userId := removedBy;
                               audit_action := "IP_WHITELIST_REMOVED";
                               audit_details := Removed ip; audit_ipAddress := ip |} ].
Proof.
  intros Hne Hfind. rewrite (removeIP_unfold s ip removedBy now r Hfind). cbn zeta.
  match goal with
  | |- context [reload ?s1] =>
      pose proof (fun x => reload_mirrors_table s1 x Hne) as Hm; cbn zeta in Hm;
      set (s2 := fst (reload s1)) in *
  end.
  cbn [table] in Hm.
  eexists. split; [ reflexivity | ].
  unfold in_general, in_admin in *. cbn [cache audit].
  split; [ | split; [ | split ] ].
  - destruct (Hm ip) as (_ & _ & _ & _ & Hg & _). rewrite Hg.
    rewrite (listed_changed_rows ip _ (table s) false false false)
      by (intros; (reflexivity || discriminate)).
    rewrite andb_false_r. reflexivity.
  - destruct (Hm ip) as (_ & _ & _ & _ & _ & Ha). rewrite Ha.
    rewrite (listed_changed_rows ip _ (table s) true false false)
      by (intros; (reflexivity || discriminate)).
    rewrite andb_false_r. reflexivity.
  - intros x Hx. destruct (Hm x) as (_ & _ & _ & _ & Hg & Ha). rewrite Hg, Ha.
    rewrite !(listed_other_rows ip x) by (intros; (exact Hx || reflexivity)).
    split; reflexivity.
  - destruct (Hm ip) as (_ & -> & _). reflexivity.
Qed.

(** X8.  [removeIP] of an address that has no row throws and changes
    nothing: the table, the cached sets and the audit log are as before. *)
Theorem removeIP_unknown_address (s : System) (ip removedBy : string) (now : Z) :
  findUnique ip (table s) = None ->
  exists e, removeIP ip removedBy now s = (s, Throw e).
Proof.
  intros Hfind. unfold removeIP, try_catch, update. rewrite Hfind.
  eexists. reflexivity.
Qed.

Lemma removeIP_unknown_address_witness :
  exists e, removeIP "10.9.9.9" "admin-1" 100 empty_system = (empty_system, Throw e).
Proof.
  apply (removeIP_unknown_address empty_system "10.9.9.9" "admin-1" 100). reflexivity.
Defined.

Lemma addIP_leaves_row (s : System) (ip notes addedBy : string) (isAdminIP : bool) (now : Z) :
  let s' := fst (addIP ip isAdminIP notes addedBy now s) in
  this_whitelist (cache s') = this_whitelist (cache s) /\
  this_adminIPs (cache s') = this_adminIPs (cache s) /\
  exists r, findUnique ip (table s') = Some r.
Proof.
  cbn zeta. rewrite addIP_unfold. cbn zeta. cbn [fst reload modify table cache].
  destruct (fold_exec_keeps_references
              (reload_stmts (findMany_enabled
                 match findUnique ip (table s) with
                 | Some _ =>
                     map (fun r => if matches_key ip r
                                   then {| row_ipAddress := row_ipAddress r;
                                           row_isAdminIP := isAdminIP; row_notes := notes;
                                           row_enabled := true; row_addedBy := row_addedBy r;
                                           row_updatedBy := Some addedBy;
                                           row_updatedAt := Some now |}
                                   else r) (table s)
                 | None =>
                     table s ++ [ {| row_ipAddress := ip; row_isAdminIP := isAdminIP;
                                     row_notes := notes; row_enabled := true;
                                     row_addedBy := addedBy; row_updatedBy := None;
                                     row_updatedAt := None |} ]
                 end)) (cache s)) as [Hw Ha].
  split; [ exact Hw | ]. split; [ exact Ha | ].
  assert (Hex : forall t, existsb (matches_key ip) t = true ->
                          exists r, findUnique ip t = Some r).
  { intros t Ht. unfold findUnique. destruct (List.find _ t) as [r | ] eqn:Hf; [ eauto | ].
    apply existsb_exists in Ht as (r & Hin & Hk).
    rewrite (List.find_none _ _ Hf r Hin) in Hk. discriminate. }
  apply Hex. destruct (findUnique ip (table s)) as [r | ] eqn:Hfind.
  - apply findUnique_some_exists in Hfind. clear - Hfind.
    induction (table s) as [ | x t IH ]; [ discriminate | ].
    cbn [map existsb] in *. destruct (matches_key ip x) eqn:Hk.
    + unfold matches_key in *. cbn [row_ipAddress]. rewrite Hk. reflexivity.
    + rewrite Hk. cbn [orb] in *. apply IH. exact Hfind.
  - rewrite existsb_app. cbn [existsb]. unfold matches_key at 2. cbn [row_ipAddress].
    rewrite bool_decide_eq_true_2 by reflexivity. rewrite orb_true_r. reflexivity.
Qed.

Lemma removeIP_clears (s : System) (ip removedBy : string) (now : Z) (r : Row) :
  this_whitelist (cache s) <> this_adminIPs (cache s) ->
  findUnique ip (table s) = Some r ->
  snd (removeIP ip removedBy now s) = Ok tt /\
  in_general (fst (removeIP ip removedBy now s)) ip = false /\
  in_admin (fst (removeIP ip removedBy now s)) ip = false.
Proof.
  intros Hne Hfind. rewrite (removeIP_unfold s ip removedBy now r Hfind). cbn zeta.
  split; [ reflexivity | ].
  match goal with
  | |- context [reload ?s1] =>
      destruct (reload_mirrors_table s1 ip Hne) as (_ & _ & _ & _ & Hg & Hadm)
  end.
  cbn zeta in Hg, Hadm. unfold in_general, in_admin in *. cbn [cache fst]. cbn [table] in Hg, Hadm.
  rewrite Hg, Hadm.
  rewrite (listed_changed_rows ip _ _ false false false)
    by (intros; (reflexivity || discriminate)).
  rewrite (listed_changed_rows ip _ _ true false false)
    by (intros; (reflexivity || discriminate)).
  rewrite !andb_false_r. split; reflexivity.
Qed.

(** X9.  Adding an address and then removing it leaves it in neither
    cached set, whichever set it was added to; both calls succeed. *)
Theorem addIP_removeIP_round_trip (s : System) (ip notes by1 by2 : string)
        (isAdminIP : bool) (t1 t2 : Z) :
  this_whitelist (cache s) <> this_adminIPs (cache s) ->
  exists s1 s2,
    addIP ip isAdminIP notes by1 t1 s = (s1, Ok tt) /\
    removeIP ip by2 t2 s1 = (s2, Ok tt) /\
    in_general s2 ip = false /\ in_admin s2 ip = false.
Proof.
  intros Hne.
  pose proof (addIP_leaves_row s ip notes by1 isAdminIP t1) as Hrow.
  cbn zeta in Hrow. destruct Hrow as (Hw & Ha & r & Hfind).
  assert (Hok : snd (addIP ip isAdminIP notes by1 t1 s) = Ok tt)
    by (rewrite addIP_unfold; reflexivity).
  destruct (addIP ip isAdminIP notes by1 t1 s) as [s1 r1] eqn:Eadd. cbn [fst snd] in *. subst r1.
  assert (Hne1 : this_whitelist (cache s1) <> this_adminIPs (cache s1))
    by (rewrite Hw, Ha; exact Hne).
  destruct (removeIP_clears s1 ip by2 t2 r Hne1 Hfind) as (Hr & Hg & Hadm).
  destruct (removeIP ip by2 t2 s1) as [s2 r2] eqn:Erem. cbn [fst snd] in *. subst r2.
  exists s1, s2. repeat split; try reflexivity; assumption.
Qed.

Lemma addIP_removeIP_round_trip_witness :
  exists s1 s2,
    addIP "10.0.0.5" false "office" "admin-1" 100 empty_system = (s1, Ok tt) /\
    removeIP "10.0.0.5" "admin-2" 200 s1 = (s2, Ok tt) /\
    in_general s2 "10.0.0.5" = false /\ in_admin s2 "10.0.0.5" = false.
Proof.
  apply (addIP_removeIP_round_trip empty_system "10.0.0.5" "office" "admin-1" "admin-2"
           false 100 200).
  cbn. lia.
Defined.

Lemma addIP_then_member_witness :
  exists s',
    addIP "10.0.0.5" true "office" "admin-1" 100 empty_system = (s', Ok tt) /\
    in_general s' "10.0.0.5" = false /\
    in_admin s' "10.0.0.5" = true.
Proof.
  destruct (addIP_then_member empty_system "10.0.0.5" "office" "admin-1" true 100)
    as (s' & run & general & admin & _).
  - cbn. lia.
  - exists s'. split; [ exact run | ]. split; [ exact general | exact admin ].
Defined.

Lemma removeIP_then_absent_witness :
  exists s',
    removeIP "10.0.0.1" "admin-2" 200 one_row_system = (s', Ok tt) /\
    in_general s' "10.0.0.1" = false /\ in_admin s' "10.0.0.1" = false.
Proof.
  destruct (removeIP_then_absent one_row_system "10.0.0.1" "admin-2" 200 office_row)
    as (s' & run & general & admin & _).
  - cbn. lia.
  - reflexivity.
  - exists s'. split; [ exact run | ]. split; [ exact general | exact admin ].
Defined.

End AllowListFacts.

(** ** Regular expressions: the matcher decides the patterns *)

Section RegexFacts.
Import Regex.

Lemma Matches_cat_inv (r1 r2 : re) (s : list N) :
  Matches (Cat r1 r2) s ->
  exists s1 s2, s = s1 ++ s2 /\ Matches r1 s1 /\ Matches r2 s2.
Proof. intros H. inversion H; subst. eauto. Qed.

Lemma Matches_alt_inv (r1 r2 : re) (s : list N) :
  Matches (Alt r1 r2) s -> Matches r1 s \/ Matches r2 s.
Proof. intros H. inversion H; subst; auto. Qed.

Lemma nullable_spec (r : re) : nullable r = true <-> Matches r [].
Proof.
  induction r as [ | | member | r1 IH1 r2 IH2 | r1 IH1 r2 IH2 | r IH ]; cbn [nullable].
  - split; [ discriminate | intros H; inversion H ].
  - split; [ intros _; constructor | reflexivity ].
  - split; [ discriminate | intros H; inversion H ].
  - rewrite andb_true_iff, IH1, IH2. split.
    + intros [H1 H2]. change (@nil N) with (@nil N ++ []). constructor; assumption.
    + intros H. apply Matches_cat_inv in H as (s1 & s2 & Hs & H1 & H2).
      symmetry in Hs. apply app_eq_nil in Hs as [-> ->]. split; assumption.
  - rewrite orb_true_iff, IH1, IH2. split.
    + intros [H | H]; [ apply M_alt_l | apply M_alt_r ]; exact H.
    + apply Matches_alt_inv.
  - split; [ intros _; constructor | reflexivity ].
Qed.

(** A non-empty match of [r*] starts with a non-empty match of [r]. *)
Lemma Matches_star_cons_inv (r : re) (c : N) (s : list N) :
  Matches (Star r) (c :: s) ->
  exists s1 s2, s = s1 ++ s2 /\ Matches r (c :: s1) /\ Matches (Star r) s2.
Proof.
  assert (Hgen : forall r' cs, Matches r' cs ->
            forall a t, r' = Star r -> cs = a :: t ->
              exists s1 s2, t = s1 ++ s2 /\ Matches r (a :: s1) /\ Matches (Star r) s2).
  { intros r' cs H.
    induction H as [ | m x Hx | p1 p2 u1 u2 H1 _ H2 _ | p1 p2 u H1 _ | p1 p2 u H1 _
                   | p | p u1 u2 H1 _ H2 IH2 ];
      intros a t Hr Hcs; try discriminate.
    injection Hr as ->. destruct u1 as [ | c1 u1 ].
    - cbn in Hcs. apply (IH2 a t eq_refl Hcs).
    - cbn in Hcs. injection Hcs as -> <-. exists u1, u2. repeat split; assumption. }
  intros H. apply (Hgen _ _ H c s eq_refl eq_refl).
Qed.

Lemma deriv_spec (r : re) (c : N) (s : list N) :
  Matches (deriv c r) s <-> Matches r (c :: s).
Proof.
  revert s.
  induction r as [ | | member | r1 IH1 r2 IH2 | r1 IH1 r2 IH2 | r IH ]; intros s; cbn [deriv].
  - split; intros H; inversion H.
  - split; intros H; inversion H.
  - destruct (member c) eqn:Hc.
    + split; intros H; inversion H; subst; [ constructor; exact Hc | constructor ].
    + split; intros H; inversion H; subst. congruence.
  - assert (Hleft : Matches (Cat (deriv c r1) r2) s ->
                    Matches (Cat r1 r2) (c :: s)).
    { intros H. apply Matches_cat_inv in H as (s1 & s2 & -> & H1 & H2).
      change (c :: s1 ++ s2) with ((c :: s1) ++ s2). constructor; [ | exact H2 ].
      apply IH1. exact H1. }
    assert (Hback : Matches (Cat r1 r2) (c :: s) ->
                    Matches (Cat (deriv c r1) r2) s
                    \/ (Matches r1 [] /\ Matches r2 (c :: s))).
    { intros H. apply Matches_cat_inv in H as (s1 & s2 & Hs & H1 & H2).
      destruct s1 as [ | c1 s1 ].
      - cbn in Hs. subst s2. right. split; assumption.
      - cbn in Hs. injection Hs as <- ->. left. constructor; [ | exact H2 ].
        apply IH1. exact H1. }
    destruct (nullable r1) eqn:Hn.
    + split.
      * intros H. apply Matches_alt_inv in H as [H | H]; [ exact (Hleft H) | ].
        change (c :: s) with ([] ++ c :: s). constructor; [ | apply IH2; exact H ].
        apply nullable_spec. exact Hn.
      * intros H. destruct (Hback H) as [H' | [_ H']];
          [ apply M_alt_l; exact H' | apply M_alt_r; apply IH2; exact H' ].
    + split; [ exact Hleft | ].
      intros H. destruct (Hback H) as [H' | [H' _]]; [ exact H' | ].
      apply nullable_spec in H'. congruence.
  - split.
    + intros H. apply Matches_alt_inv in H as [H | H];
        [ apply M_alt_l, IH1 | apply M_alt_r, IH2 ]; exact H.
    + intros H. apply Matches_alt_inv in H as [H | H];
        [ apply M_alt_l, IH1 | apply M_alt_r, IH2 ]; exact H.
  - split.
    + intros H. apply Matches_cat_inv in H as (s1 & s2 & -> & H1 & H2).
      change (c :: s1 ++ s2) with ((c :: s1) ++ s2). constructor; [ | exact H2 ].
      apply IH. exact H1.
    + intros H. apply Matches_star_cons_inv in H as (s1 & s2 & -> & H1 & H2).
      constructor; [ | exact H2 ]. apply IH. exact H1.
Qed.

Lemma test_spec (r : re) (s : list N) : test r s = true <-> Matches r s.
Proof.
  revert r. induction s as [ | c s IH ]; intros r; cbn [test].
  - apply nullable_spec.
  - rewrite IH. apply deriv_spec.
Qed.

End RegexFacts.

(** ** The validators *)

Section ValidatorFacts.
Import JS Regex Validators.

Lemma Matches_cls_inv (m : N -> bool) (s : list N) :
  Matches (Cls m) s -> exists c, s = [c] /\ m c = true.
Proof. intros H. inversion H; subst. eauto. Qed.

Lemma Matches_word (w s : list N) : Matches (word w) s <-> s = w.
Proof.
  revert s. induction w as [ | c w IH ]; intros s; cbn [word].
  - split; [ intros H; inversion H; reflexivity | intros ->; constructor ].
  - split.
    + intros H. apply Matches_cat_inv in H as (s1 & s2 & -> & H1 & H2).
      apply Matches_cls_inv in H1 as (x & -> & Hx). apply N.eqb_eq in Hx. subst x.
      apply IH in H2. subst s2. reflexivity.
    + intros ->. change (c :: w) with ([c] ++ w). constructor; [ | apply IH; reflexivity ].
      constructor. apply N.eqb_refl.
Qed.

Lemma Matches_star_cls (m : N -> bool) (s : list N) :
  Matches (Star (Cls m)) s <-> Forall (fun c => m c = true) s.
Proof.
  split.
  - revert s. assert (Hgen : forall r s, Matches r s -> r = Star (Cls m) ->
                              Forall (fun c => m c = true) s).
    { intros r s H.
      induction H as [ | m0 x Hx | p1 p2 u1 u2 H1 _ H2 _ | p1 p2 u H1 _ | p1 p2 u H1 _
                     | p | p u1 u2 H1 _ H2 IH2 ]; intros Hr; try discriminate.
      - constructor.
      - injection Hr as ->. apply Matches_cls_inv in H1 as (x & -> & Hx).
        constructor; [ exact Hx | apply IH2; reflexivity ]. }
    intros s H. apply (Hgen _ _ H eq_refl).
  - induction s as [ | c s IH ]; intros H; [ constructor | ].
    inversion H as [ | ? ? Hc Hs ]; subst.
    change (c :: s) with ([c] ++ s). constructor; [ constructor; exact Hc | apply IH; exact Hs ].
Qed.

Lemma Matches_plus_cls (m : N -> bool) (s : list N) :
  Matches (Plus (Cls m)) s <-> s <> [] /\ Forall (fun c => m c = true) s.
Proof.
  unfold Plus. split.
  - intros H. apply Matches_cat_inv in H as (s1 & s2 & -> & H1 & H2).
    apply Matches_cls_inv in H1 as (x & -> & Hx). apply Matches_star_cls in H2.
    split; [ discriminate | constructor; assumption ].
  - intros [Hne H]. destruct s as [ | c s ]; [ congruence | ].
    inversion H as [ | ? ? Hc Hs ]; subst.
    change (c :: s) with ([c] ++ s).
    constructor; [ constructor; exact Hc | apply Matches_star_cls; exact Hs ].
Qed.

Lemma Matches_repeat_cls (m : N -> bool) (n : nat) (s : list N) :
  Matches (Repeat n (Cls m)) s <-> length s = n /\ Forall (fun c => m c = true) s.
Proof.
  revert s. induction n as [ | n IH ]; intros s; cbn [Repeat].
  - split.
    + intros H. inversion H. split; [ reflexivity | constructor ].
    + intros [Hl _]. destruct s; [ constructor | discriminate ].
  - split.
    + intros H. apply Matches_cat_inv in H as (s1 & s2 & -> & H1 & H2).
      apply Matches_cls_inv in H1 as (x & -> & Hx). apply IH in H2 as [Hl Hf].
      cbn. split; [ congruence | constructor; assumption ].
    + intros [Hl H]. destruct s as [ | c s ]; [ discriminate | ].
      inversion H as [ | ? ? Hc Hs ]; subst. cbn in Hl. injection Hl as Hl.
      change (c :: s) with ([c] ++ s).
      constructor; [ constructor; exact Hc | apply IH; split; assumption ].
Qed.

(** X10.  A phone number is accepted exactly when, with its white space
    removed (every code unit that [\s] matches, also U+00A0 and the
    other white space beyond ASCII), it is 0 or 234, then one of 7, 8,
    9, then 0 or 1, then eight more digits: eleven digits with a leading
    0 or thirteen with a leading 234, and nothing but digits (so no
    leading plus sign). *)
Theorem isValidNigerianPhone_shape (phone : list N) :
  isValidNigerianPhone phone = true <->
  exists prefix a b rest,
    without_space phone = prefix ++ a :: b :: rest /\
    (prefix = units "0" \/ prefix = units "234") /\
    one_of (units "789") a = true /\ one_of (units "01") b = true /\
    length rest = 8%nat /\ Forall (fun c => is_digit c = true) rest.
Proof.
  split.
  - destruct phone as [ | c phone' ]; [ discriminate | ].
    cbv beta iota delta [isValidNigerianPhone].
    intros H. apply test_spec in H. unfold phoneRegex in H.
    apply Matches_cat_inv in H as (prefix & s1 & Hs & Hp & H).
    apply Matches_cat_inv in H as (sa & s2 & -> & Ha & H).
    apply Matches_cat_inv in H as (sb & rest & -> & Hb & Hrest).
    apply Matches_cls_inv in Ha as (a & -> & Ha).
    apply Matches_cls_inv in Hb as (b & -> & Hb).
    apply Matches_repeat_cls in Hrest as [Hl Hd].
    exists prefix, a, b, rest. split; [ exact Hs | ].
    split; [ | repeat split; assumption ].
    apply Matches_alt_inv in Hp as [Hp | Hp]; apply Matches_word in Hp; auto.
  - intros (prefix & a & b & rest & Hs & Hp & Ha & Hb & Hl & Hd).
    assert (Hm : Matches phoneRegex (without_space phone)).
    { rewrite Hs. unfold phoneRegex. constructor.
      - destruct Hp as [-> | ->]; [ apply M_alt_l | apply M_alt_r ];
          apply Matches_word; reflexivity.
      - change (a :: b :: rest) with ([a] ++ [b] ++ rest).
        constructor; [ constructor; exact Ha | ].
        constructor; [ constructor; exact Hb | ].
        apply Matches_repeat_cls. split; assumption. }
    destruct phone as [ | c phone' ].
    + cbn in Hs. destruct Hp as [-> | ->]; discriminate.
    + cbv beta iota delta [isValidNigerianPhone]. apply test_spec. exact Hm.
Qed.

(** X11.  White space inside a phone number does not count: putting a
    white space code unit anywhere in it (a space, a tab, U+00A0, any
    code unit that [\s] matches), or taking one out, leaves the verdict
    of [isValidNigerianPhone] as it was. *)
Theorem isValidNigerianPhone_ignores_space (a b : list N) (w : N) :
  is_white_space w = true ->
  isValidNigerianPhone (a ++ w :: b) = isValidNigerianPhone (a ++ b).
Proof.
  intros Hw.
  assert (Hclean : without_space (a ++ w :: b) = without_space (a ++ b)).
  { unfold without_space. rewrite !List.filter_app. simpl List.filter.
    rewrite Hw. reflexivity. }
  unfold isValidNigerianPhone. rewrite Hclean.
  destruct (a ++ b) as [ | c r ] eqn:Hab.
  - apply app_eq_nil in Hab as [-> ->]. reflexivity.
  - destruct (a ++ w :: b) as [ | c' r' ] eqn:Hawb; [ | reflexivity ].
    destruct a; discriminate.
Qed.

Lemma isValidNigerianPhone_ignores_space_witness :
  isValidNigerianPhone (units "0803" ++ 160%N :: units "9876543")
  = isValidNigerianPhone (units "0803" ++ units "9876543").
Proof.
  apply (isValidNigerianPhone_ignores_space (units "0803") (units "9876543") 160%N).
  reflexivity.
Defined.

(** The number 0803 9876543 written with a no-break space is accepted,
    and so is the one written with a line separator. *)
Example isValidNigerianPhone_no_break_space :
  isValidNigerianPhone (units "0803" ++ 160%N :: units "9876543") = true /\
  isValidNigerianPhone (units "0803" ++ 8232%N :: units "9876543") = true /\
  isValidNigerianPhone (units "+2348039876543") = false.
Proof. repeat split; vm_compute; reflexivity. Qed.

Lemma drop_space_nil (s : list N) :
  drop_space s = [] <-> Forall (fun c => is_white_space c = true) s.
Proof.
  induction s as [ | c s IH ]; cbn [drop_space].
  - split; [ constructor | reflexivity ].
  - destruct (is_white_space c) eqn:Hc.
    + rewrite IH. split; [ intros H; constructor; assumption | ].
      intros H. inversion H; assumption.
    + split; [ discriminate | ]. intros H. inversion H; congruence.
Qed.

Lemma drop_space_head (s : list N) (c : N) (r : list N) :
  drop_space s = c :: r -> is_white_space c = false.
Proof.
  induction s as [ | d s IH ]; cbn [drop_space]; [ discriminate | ].
  destruct (is_white_space d) eqn:Hd; [ exact IH | ].
  intros H. injection H as <- _. exact Hd.
Qed.

(** Trimming leaves nothing exactly of a string of white space. *)
Lemma trim_nil (s : list N) :
  trim s = [] <-> Forall (fun c => is_white_space c = true) s.
Proof.
  unfold trim. split.
  - intros H. apply (f_equal (@rev N)) in H. rewrite rev_involutive in H. cbn [rev] in H.
    apply drop_space_nil in H. apply Forall_rev in H. rewrite rev_involutive in H.
    destruct (drop_space s) as [ | c r ] eqn:Hd; [ apply drop_space_nil; exact Hd | ].
    apply drop_space_head in Hd. inversion H; congruence.
  - intros H. apply drop_space_nil in H. rewrite H. reflexivity.
Qed.

(** X12.  An e-mail address is accepted exactly when, trimmed, it reads
    local@x.y where the three parts are not empty and hold neither white
    space (any code unit that [\s] matches, also beyond ASCII) nor
    another at sign; a dot may occur inside any of them. *)
Theorem isValidEmail_shape (email : list N) :
  isValidEmail email = true <->
  exists local x y,
    trim email = local ++ at_sign :: x ++ dot :: y /\
    local <> [] /\ x <> [] /\ y <> [] /\
    Forall (fun c => local_char c = true) (local ++ x ++ y).
Proof.
  split.
  - destruct email as [ | c email' ]; [ discriminate | ].
    cbv beta iota delta [isValidEmail].
    intros H. apply test_spec in H. unfold emailRegex in H.
    apply Matches_cat_inv in H as (local & s1 & Hs & Hl & H).
    apply Matches_cat_inv in H as (at_ & s2 & -> & Hat & H).
    apply Matches_cat_inv in H as (x & s3 & -> & Hx & H).
    apply Matches_cat_inv in H as (dot_ & y & -> & Hdot & Hy).
    apply Matches_cls_inv in Hat as (c1 & -> & Hc1). apply N.eqb_eq in Hc1. subst c1.
    apply Matches_cls_inv in Hdot as (c2 & -> & Hc2). apply N.eqb_eq in Hc2. subst c2.
    apply Matches_plus_cls in Hl as [Hl1 Hl2].
    apply Matches_plus_cls in Hx as [Hx1 Hx2].
    apply Matches_plus_cls in Hy as [Hy1 Hy2].
    exists local, x, y. split; [ exact Hs | ].
    repeat split; try assumption.
    apply Forall_app. split; [ exact Hl2 | ]. apply Forall_app. split; assumption.
  - intros (local & x & y & Hs & Hl & Hx & Hy & Hall).
    apply Forall_app in Hall as [Hl2 Hall]. apply Forall_app in Hall as [Hx2 Hy2].
    assert (Hm : Matches emailRegex (trim email)).
    { rewrite Hs. unfold emailRegex.
      constructor; [ apply Matches_plus_cls; split; assumption | ].
      change (at_sign :: x ++ dot :: y) with ([at_sign] ++ x ++ [dot] ++ y).
      constructor; [ constructor; apply N.eqb_refl | ].
      constructor; [ apply Matches_plus_cls; split; assumption | ].
      constructor; [ constructor; apply N.eqb_refl | ].
      apply Matches_plus_cls; split; assumption. }
    destruct email as [ | c email' ].
    + cbn in Hs. destruct local; discriminate.
    + cbv beta iota delta [isValidEmail]. apply test_spec. exact Hm.
Qed.

(** An address with a no-break space inside is refused, one with
    no-break spaces around it is accepted. *)
Example isValidEmail_no_break_space :
  isValidEmail (units "a" ++ 160%N :: units "b@c.d") = false /\
  isValidEmail (160%N :: units "ab@c.d" ++ [160%N]) = true /\
  isValidEmail (units "ab@c.d") = true.
Proof. repeat split; vm_compute; reflexivity. Qed.

End ValidatorFacts.

(** ** More of the dashboard *)

Section DashboardMoreFacts.
Import JS Dashboard DashboardMore.

Variable trim : string -> string.
Variable isValidNigerianPhone : string -> bool.
Variable isValidEmail : string -> bool.

Local Abbreviation saveNewKin := (Dashboard.saveNewKin trim isValidNigerianPhone isValidEmail).
Local Abbreviation accepted := (Dashboard.accepted trim isValidNigerianPhone isValidEmail).
Local Abbreviation well_formed := (DashboardMore.well_formed isValidNigerianPhone isValidEmail).
Local Abbreviation built := (DashboardMore.built trim).

(** The list an accepted save leaves, branch by branch. *)
Lemma saveNewKin_accepted (form : KinForm) (out : Outside) (st : DashboardState) :
  accepted form = true ->
  let base := if default false (isPrimaryKin form)
              then clear_primary (nextOfKin st) else nextOfKin st in
  nextOfKin (saveNewKin form out st)
  = if backend_rejects out then base
    else if edits st then
      match findIndex (default EmptyString (currentEditId st)) base with
      | Some index => <[index := built form (default EmptyString (currentEditId st))]> base
      | None => base
      end
    else base ++ [built form (generatedId out)].
Proof.
  unfold Dashboard.accepted, Dashboard.saveNewKin, backend_rejects, edits, DashboardMore.built.
  intros Hacc.
  destruct (falsy _ || falsy _ || falsy _); [ discriminate | ].
  destruct (isValidNigerianPhone _); [ | discriminate ].
  cbn [negb andb] in Hacc. cbn [negb].
  destruct (truthy _ && negb _); [ discriminate | ]. clear Hacc. cbn zeta.
  destruct (default false (isPrimaryKin form));
    cbn [with_kin nextOfKin isEditing currentEditId];
    destruct (isEditing st && from_option truthy false (currentEditId st));
    destruct (ApiService out) as [[error | ] | ];
    try destruct (findIndex _ _); reflexivity.
Qed.

Lemma accepted_fields (form : KinForm) (i : string) :
  accepted form = true -> well_formed (built form i).
Proof.
  unfold Dashboard.accepted, DashboardMore.well_formed, DashboardMore.built.
  cbn [fullName relationship phone email].
  intros Hacc. apply andb_true_iff in Hacc as [Hacc Hmail].
  apply andb_true_iff in Hacc as [Hreq Hphone].
  apply negb_true_iff, orb_false_iff in Hreq as [Hreq Hp].
  apply orb_false_iff in Hreq as [Hn Hr].
  assert (Hfilled : forall f, falsy f = false -> truthy (default EmptyString f) = true).
  { intros [x | ]; cbn; [ | discriminate ]. destruct (truthy x); [ reflexivity | discriminate ]. }
  split; [ apply Hfilled; exact Hn | ]. split; [ apply Hfilled; exact Hr | ].
  split; [ exact Hphone | ].
  apply negb_true_iff, andb_false_iff in Hmail as [Hmail | Hmail].
  - left. destruct (or_empty _); [ reflexivity | discriminate ].
  - right. apply negb_false_iff. exact Hmail.
Qed.

Lemma well_formed_clear (l : list Kin) :
  Forall well_formed l -> Forall well_formed (clear_primary l).
Proof.
  unfold clear_primary. induction 1 as [ | k l Hk _ IH ]; cbn [map]; constructor.
  - exact Hk.
  - exact IH.
Qed.

(** X13.  A save never lets a malformed contact into the list: if every
    stored contact has a name, a relationship, a phone number the
    validator accepts and an e-mail address that is empty or accepted,
    the same holds after the save, whichever branch it takes. *)
Theorem saveNewKin_keeps_well_formed (form : KinForm) (out : Outside) (st : DashboardState) :
  Forall well_formed (nextOfKin st) ->
  Forall well_formed (nextOfKin (saveNewKin form out st)).
Proof.
  intros Hall. destruct (accepted form) eqn:Hacc.
  - rewrite (saveNewKin_accepted form out st Hacc). cbn zeta.
    assert (Hbase : Forall well_formed
                      (if default false (isPrimaryKin form)
                       then clear_primary (nextOfKin st) else nextOfKin st)).
    { destruct (default false (isPrimaryKin form));
        [ apply well_formed_clear; exact Hall | exact Hall ]. }
    destruct (backend_rejects out); [ exact Hbase | ].
    destruct (edits st).
    + destruct (findIndex _ _) as [index | ]; [ | exact Hbase ].
      apply Forall_insert; [ exact Hbase | apply accepted_fields; exact Hacc ].
    + apply Forall_app. split; [ exact Hbase | ].
      constructor; [ apply accepted_fields; exact Hacc | constructor ].
  - rewrite (saveNewKin_rejected trim isValidNigerianPhone isValidEmail form out st Hacc).
    exact Hall.
Qed.

Lemma ids_clear (l : list Kin) : map id (clear_primary l) = map id l.
Proof. unfold clear_primary. rewrite map_map. reflexivity. Qed.

Lemma findIndex_found (wanted : string) (l : list Kin) (i : nat) :
  findIndex wanted l = Some i -> exists k, l !! i = Some k /\ id k = wanted.
Proof.
  revert i. induction l as [ | k l IH ]; intros i; cbn [findIndex]; [ discriminate | ].
  destruct (bool_decide (id k = wanted)) eqn:Hk.
  - intros [= <-]. exists k. split; [ reflexivity | ]. apply bool_decide_eq_true in Hk. exact Hk.
  - destruct (findIndex wanted l) as [j | ]; cbn; [ | discriminate ].
    intros [= <-]. destruct (IH j eq_refl) as (k' & Hl & Hid). exists k'. split; assumption.
Qed.

Lemma ids_store (l : list Kin) (i : nat) (k new : Kin) :
  l !! i = Some k -> id new = id k -> map id (<[i := new]> l) = map id l.
Proof.
  revert i. induction l as [ | x l IH ]; intros i Hl Hid; [ discriminate | ].
  destruct i as [ | i ].
  - cbn in Hl. injection Hl as ->.
    change (<[0%nat := new]> (k :: l)) with (new :: l). cbn [map]. rewrite Hid. reflexivity.
  - change (<[S i := new]> (x :: l)) with (x :: <[i := new]> l). cbn [map].
    rewrite (IH i Hl Hid). reflexivity.
Qed.

(** X15.  A save never renames or reorders the stored contacts: the
    identifiers of the list afterwards are those from before, in the
    same order, followed by the generated identifier exactly when the
    form was accepted, the save was not an edit and the backend did not
    reject it. *)
Theorem saveNewKin_keeps_ids (form : KinForm) (out : Outside) (st : DashboardState) :
  map id (nextOfKin (saveNewKin form out st))
  = map id (nextOfKin st)
    ++ (if accepted form && negb (edits st) && negb (backend_rejects out)
        then [generatedId out] else []).
Proof.
  destruct (accepted form) eqn:Hacc; cbn [andb].
  - rewrite (saveNewKin_accepted form out st Hacc). cbn zeta.
    assert (Hbase : map id (if default false (isPrimaryKin form)
                            then clear_primary (nextOfKin st) else nextOfKin st)
                    = map id (nextOfKin st)).
    { destruct (default false (isPrimaryKin form)); [ apply ids_clear | reflexivity ]. }
    destruct (backend_rejects out); cbn [negb andb].
    + rewrite andb_false_r, app_nil_r. exact Hbase.
    + destruct (edits st); cbn [negb andb].
      * rewrite app_nil_r.
        destruct (findIndex _ _) as [index | ] eqn:Hfind; [ | exact Hbase ].
        destruct (findIndex_found _ _ _ Hfind) as (k & Hk & Hid).
        rewrite (ids_store _ index k); [ exact Hbase | exact Hk | ].
        rewrite Hid. reflexivity.
      * rewrite map_app, Hbase. reflexivity.
  - rewrite (saveNewKin_rejected trim isValidNigerianPhone isValidEmail form out st Hacc).
    rewrite app_nil_r. reflexivity.
Qed.

(** X17.  When the primary box is ticked and the backend rejects the
    save, the primary flag has already been cleared on every contact:
    the list is left with the same contacts and no primary one, and the
    error is shown. *)
Theorem saveNewKin_rejected_primary (form : KinForm) (out : Outside) (st : DashboardState)
        (error : exn) :
  accepted form = true ->
  isPrimaryKin form = Some true ->
  ApiService out = Some (Some error) ->
  nextOfKin (saveNewKin form out st) = clear_primary (nextOfKin st) /\
  primary_count (nextOfKin (saveNewKin form out st)) = 0%nat /\
  notifications (saveNewKin form out st)
  = notifications st
    ++ [Notify ("Failed to save next of kin: " +:+ message error) "error"].
Proof.
  intros Hacc Hprimary Hapi.
  assert (Hlist : nextOfKin (saveNewKin form out st) = clear_primary (nextOfKin st)).
  { rewrite (saveNewKin_accepted form out st Hacc). cbn zeta.
    unfold backend_rejects. rewrite Hprimary, Hapi. reflexivity. }
  split; [ exact Hlist | ]. split.
  - rewrite Hlist. apply primary_count_clear.
  - clear Hlist. unfold Dashboard.accepted, Dashboard.saveNewKin in *.
    destruct (falsy _ || falsy _ || falsy _); [ discriminate | ].
    destruct (isValidNigerianPhone _); [ | discriminate ].
    cbn [negb andb] in Hacc. cbn [negb].
    destruct (truthy _ && negb _); [ discriminate | ].
    rewrite Hprimary, Hapi. cbn.
    destruct (isEditing st && from_option truthy false (currentEditId st)); reflexivity.
Qed.

Lemma set_primary_same (k : Kin) : set_primary k (isPrimary k) = k.
Proof. destruct k; reflexivity. Qed.

Lemma clear_primary_none (l : list Kin) :
  primary_count l = 0%nat -> clear_primary l = l.
Proof.
  unfold primary_count, clear_primary.
  induction l as [ | x l IH ]; intros Hc; [ reflexivity | ].
  cbn [List.filter map] in *. destruct (isPrimary x) eqn:Hx; [ discriminate | ].
  rewrite (IH Hc). rewrite <- Hx. rewrite set_primary_same. reflexivity.
Qed.

Lemma primary_member_counts (l : list Kin) (i : nat) (k : Kin) :
  l !! i = Some k -> isPrimary k = true -> (1 <= primary_count l)%nat.
Proof.
  unfold primary_count. revert i.
  induction l as [ | x l IH ]; intros i Hl Hk; [ discriminate | ].
  destruct i as [ | i ]; cbn in Hl.
  - injection Hl as ->. cbn [List.filter]. rewrite Hk. cbn. lia.
  - cbn [List.filter]. specialize (IH i Hl Hk). destruct (isPrimary x); cbn; lia.
Qed.

Lemma restore_primary (l : list Kin) (i : nat) (k : Kin) :
  l !! i = Some k -> isPrimary k = true -> (primary_count l <= 1)%nat ->
  <[i := k]> (clear_primary l) = l.
Proof.
  revert i. induction l as [ | x l IH ]; intros i Hl Hk Hc; [ discriminate | ].
  assert (Hcount : primary_count (x :: l)
                   = ((if isPrimary x then 1 else 0) + primary_count l)%nat).
  { unfold primary_count. cbn [List.filter]. destruct (isPrimary x); reflexivity. }
  rewrite Hcount in Hc.
  destruct i as [ | i ]; cbn in Hl.
  - injection Hl as ->. rewrite Hk in Hc.
    change (clear_primary (k :: l)) with (set_primary k false :: clear_primary l).
    change (<[0%nat := k]> (set_primary k false :: clear_primary l))
      with (k :: clear_primary l).
    rewrite clear_primary_none by lia. reflexivity.
  - pose proof (primary_member_counts l i k Hl Hk) as Hone.
    destruct (isPrimary x) eqn:Hx; [ lia | ].
    change (clear_primary (x :: l)) with (set_primary x false :: clear_primary l).
    change (<[S i := k]> (set_primary x false :: clear_primary l))
      with (set_primary x false :: <[i := k]> (clear_primary l)).
    rewrite (IH i Hl Hk) by lia. rewrite <- Hx, set_primary_same. reflexivity.
Qed.

Lemma findIndex_clear (wanted : string) (l : list Kin) :
  findIndex wanted (clear_primary l) = findIndex wanted l.
Proof.
  induction l as [ | x l IH ]; [ reflexivity | ].
  change (clear_primary (x :: l)) with (set_primary x false :: clear_primary l).
  cbn [findIndex]. rewrite IH. reflexivity.
Qed.

Lemma find_at_index (wanted : string) (l : list Kin) (i : nat) :
  findIndex wanted l = Some i ->
  List.find (fun k => bool_decide (id k = wanted)) l = l !! i.
Proof.
  revert i. induction l as [ | x l IH ]; intros i; cbn [findIndex List.find]; [ discriminate | ].
  destruct (bool_decide (id x = wanted)).
  - intros [= <-]. reflexivity.
  - destruct (findIndex wanted l) as [j | ]; cbn; [ | discriminate ].
    intros [= <-]. apply (IH j eq_refl).
Qed.

Lemma shown_same (s : string) : shown s = s.
Proof. destruct s; reflexivity. Qed.

Lemma or_empty_some (s : string) : or_empty (Some s) = s.
Proof. destruct s; reflexivity. Qed.

Lemma built_form_of (k : Kin) :
  trimmed trim k -> built (form_of k) (id k) = k.
Proof.
  intros (H1 & H2 & H3 & H4 & H5 & H6).
  unfold DashboardMore.built, form_of, field. cbn [kinName kinRelationship kinPhone kinEmail
    kinAddress isPrimaryKin kinNotes fmap option_fmap option_map default from_option].
  rewrite !shown_same, !or_empty_some, H1, H2, H3, H4, H5, H6.
  destruct k; reflexivity.
Qed.

(** X16.  Opening a stored contact for editing and saving the form as
    it was filled leaves the list of contacts exactly as it was, provided
    the contact's text fields carry no outer white space, at most one
    contact is primary and the backend does not reject the save. *)
Theorem editKin_save_unchanged (st : DashboardState) (k : Kin) (i : nat) (out : Outside) :
  nextOfKin st !! i = Some k ->
  findIndex (id k) (nextOfKin st) = Some i ->
  truthy (id k) = true ->
  trimmed trim k ->
  (primary_count (nextOfKin st) <= 1)%nat ->
  backend_rejects out = false ->
  exists st_e form,
    editKin (id k) true st = (st_e, Some form) /\
    nextOfKin (saveNewKin form out st_e) = nextOfKin st.
Proof.
  intros Hk Hfind Hid Htrim Hone Hback.
  unfold editKin. rewrite (find_at_index _ _ _ Hfind), Hk.
  eexists _, _. split; [ reflexivity | ].
  destruct (accepted (form_of k)) eqn:Hacc.
  - rewrite saveNewKin_accepted by exact Hacc. cbn zeta.
    rewrite Hback. unfold edits. cbn [isEditing currentEditId nextOfKin from_option default].
    rewrite Hid. cbn [andb Datatypes.id].
    change (default false (isPrimaryKin (form_of k))) with (isPrimary k).
    rewrite (built_form_of k Htrim).
    destruct (isPrimary k) eqn:Hp.
    + rewrite findIndex_clear, Hfind. apply restore_primary; assumption.
    + rewrite Hfind. apply list_insert_id. exact Hk.
  - rewrite saveNewKin_rejected by exact Hacc. reflexivity.
Qed.

Lemma primary_count_filter (keep : Kin -> bool) (l : list Kin) :
  (primary_count (List.filter keep l) <= primary_count l)%nat.
Proof.
  unfold primary_count. induction l as [ | x l IH ]; [ cbn; lia | ].
  cbn [List.filter]. destruct (keep x); cbn [List.filter];
    destruct (isPrimary x); cbn [length]; lia.
Qed.

(** X14.  Removing a contact, once confirmed and not rejected by the
    backend, leaves exactly the contacts with another identifier, in
    their order, and adds no primary contact; declined or rejected, it
    leaves the list as it was. *)
Theorem deleteKin_removes (kinId : string) (confirmed : bool) (api : option (option exn))
        (st : DashboardState) :
  let after := nextOfKin (deleteKin kinId confirmed api st) in
  let rejected := match api with Some (Some _) => true | _ => false end in
  (confirmed && negb rejected = false -> after = nextOfKin st) /\
  (confirmed && negb rejected = true ->
     after = List.filter (fun k => negb (bool_decide (id k = kinId))) (nextOfKin st) /\
     Forall (fun k => id k <> kinId) after /\
     (primary_count after <= primary_count (nextOfKin st))%nat).
Proof.
  cbn zeta. unfold deleteKin. split.
  - destruct confirmed; cbn [negb andb]; [ | reflexivity ].
    destruct api as [[e | ] | ]; cbn [negb]; (reflexivity || discriminate).
  - destruct confirmed; cbn [negb andb]; [ | discriminate ].
    intros Hok.
    assert (Hafter : nextOfKin
                       match api with
                       | Some (Some error) =>
                           notify st ("Failed to remove next of kin: " +:+ message error) "error"
                       | _ =>
                           notify (with_kin st (List.filter
                                      (fun k => negb (bool_decide (id k = kinId)))
                                      (nextOfKin st)))
                                  "Next of kin removed successfully" "success"
                       end
                     = List.filter (fun k => negb (bool_decide (id k = kinId))) (nextOfKin st)).
    { destruct api as [[e | ] | ]; (reflexivity || discriminate). }
    rewrite Hafter. split; [ reflexivity | ]. split.
    + apply List.Forall_forall. intros k Hin. apply List.filter_In in Hin as [_ Hne].
      apply negb_true_iff, bool_decide_eq_false in Hne. exact Hne.
    + apply primary_count_filter.
Qed.

End DashboardMoreFacts.

Section ProfileFacts.
Import JS DashboardMore.

(** A field counts exactly when it holds a code unit that is no white
    space. *)
Lemma filled_iff (field : option (list N)) :
  filled field = true <->
  exists s, field = Some s /\ Exists (fun c => is_white_space c = false) s.
Proof.
  destruct field as [s | ]; cbn [filled].
  2: { split; [ discriminate | intros (s & H & _); discriminate ]. }
  assert (Hdec : Forall (fun c => is_white_space c = true) s
                 \/ Exists (fun c => is_white_space c = false) s).
  { induction s as [ | c s IH ]; [ left; constructor | ].
    destruct (is_white_space c) eqn:Hc.
    - destruct IH as [IH | IH]; [ left; constructor; assumption | right ].
      apply Exists_cons_tl. exact IH.
    - right. apply Exists_cons_hd. exact Hc. }
  split.
  - intros H. exists s. split; [ reflexivity | ].
    destruct Hdec as [Hall | Hex]; [ exfalso | exact Hex ].
    apply trim_nil in Hall. rewrite Hall in H. destruct s; discriminate.
  - intros (s' & Es & Hex). injection Es as <-.
    destruct s as [ | c r ]; [ inversion Hex | ].
    destruct (Validators.trim (c :: r)) as [ | c' r' ] eqn:Ht; [ exfalso | reflexivity ].
    apply trim_nil in Ht. apply List.Exists_exists in Hex as (x & Hx & Hwx).
    rewrite List.Forall_forall in Ht. rewrite (Ht x Hx) in Hwx. discriminate.
Qed.

(** X18.  The profile score is 20 plus 16 for each of the five fields
    that is filled, that is, set and holding a code unit that [trim]
    does not count as white space (U+00A0 and the other white space
    beyond ASCII count as white space); it lies between 20 and 100,
    reaches 100 exactly when all five are filled, and the cap at 100
    never cuts anything off. *)
Theorem calculateProfileCompletion_score (user : UserData) :
  calculateProfileCompletion user = 20 + 16 * filled_count user /\
  20 <= calculateProfileCompletion user <= 100 /\
  (calculateProfileCompletion user = 100 <->
   filled (user_fullName user) = true /\ filled (user_phone user) = true /\
   filled (user_email user) = true /\ filled (user_dateOfBirth user) = true /\
   filled (user_weddingDate user) = true) /\
  (forall field,
     In field [user_fullName user; user_phone user; user_email user;
               user_dateOfBirth user; user_weddingDate user] ->
     (filled field = true <->
      exists s, field = Some s /\ Exists (fun c => is_white_space c = false) s)).
Proof.
  assert (Hfields : forall field,
             In field [user_fullName user; user_phone user; user_email user;
                       user_dateOfBirth user; user_weddingDate user] ->
             (filled field = true <->
              exists s, field = Some s /\ Exists (fun c => is_white_space c = false) s)).
  { intros field _. apply filled_iff. }
  revert Hfields.
  unfold calculateProfileCompletion, filled_count. cbn [fold_left List.filter].
  destruct (filled (user_fullName user)), (filled (user_phone user)),
    (filled (user_email user)), (filled (user_dateOfBirth user)),
    (filled (user_weddingDate user)); cbn [length Z.of_nat]; intros Hfields;
    (split; [ reflexivity
            | split; [ lia
                     | split; [ split; [ intros H; (discriminate || tauto)
                                       | intros H; (reflexivity
                                                    || (exfalso; intuition discriminate)) ]
                              | exact Hfields ] ] ]).
Qed.

(** A field of no-break spaces does not count; a name does. *)
Example calculateProfileCompletion_no_break_space :
  calculateProfileCompletion
    {| user_fullName := Some (units "Ada Obi"); user_phone := Some [160%N; 160%N];
       user_email := Some (units "  "); user_dateOfBirth := None;
       user_weddingDate := Some [] |} = 36.
Proof. vm_compute. reflexivity. Qed.

End ProfileFacts.

Section DashboardMoreExamples.
Import JS Dashboard DashboardMore.

Lemma saveNewKin_keeps_well_formed_witness :
  Forall (well_formed (Validators.on_text Validators.isValidNigerianPhone)
                      (Validators.on_text Validators.isValidEmail))
         (nextOfKin (Dashboard.saveNewKin (fun s => s) (Validators.on_text Validators.isValidNigerianPhone)
                       (Validators.on_text Validators.isValidEmail) new_primary_form no_backend mock_state)).
Proof.
  apply (saveNewKin_keeps_well_formed (fun s => s) (Validators.on_text Validators.isValidNigerianPhone)
           (Validators.on_text Validators.isValidEmail) new_primary_form no_backend mock_state).
  repeat constructor; vm_compute; reflexivity.
Defined.

Lemma saveNewKin_rejected_primary_witness :
  nextOfKin (Dashboard.saveNewKin (fun s => s) (Validators.on_text Validators.isValidNigerianPhone)
               (Validators.on_text Validators.isValidEmail) new_primary_form failing_backend mock_state)
  = clear_primary (nextOfKin mock_state).
Proof.
  apply (saveNewKin_rejected_primary (fun s => s) (Validators.on_text Validators.isValidNigerianPhone)
           (Validators.on_text Validators.isValidEmail) new_primary_form failing_backend mock_state
           (Error "Network request failed")); reflexivity.
Defined.

Lemma editKin_save_unchanged_witness :
  exists st_e form,
    editKin "1" true mock_state = (st_e, Some form) /\
    nextOfKin (Dashboard.saveNewKin (fun s => s) (Validators.on_text Validators.isValidNigerianPhone)
                 (Validators.on_text Validators.isValidEmail) form no_backend st_e)
    = nextOfKin mock_state.
Proof.
  apply (editKin_save_unchanged (fun s => s) (Validators.on_text Validators.isValidNigerianPhone)
           (Validators.on_text Validators.isValidEmail) mock_state (nth 0 mock_next_of_kin spare_kin) 0 no_backend);
    try reflexivity; try (repeat split; reflexivity); try (vm_compute; lia).
Defined.

Lemma deleteKin_removes_witness :
  map id (nextOfKin (deleteKin "1" true None mock_state)) = ["2"] /\
  nextOfKin (deleteKin "1" false None mock_state) = nextOfKin mock_state.
Proof.
  destruct (deleteKin_removes "1" true None mock_state) as (_ & removed).
  destruct (deleteKin_removes "1" false None mock_state) as (kept & _).
  cbn zeta in *. split.
  - destruct (removed eq_refl) as (-> & _). reflexivity.
  - apply kept. reflexivity.
Defined.

End DashboardMoreExamples.

(** ** Restoring a backup *)

Section RestoreFacts.
Import JS Eff Restore.

Variable svc : Service.
Variable out : Outside.

Lemma restore_bind_unfold {A B} (m : M State A) (k : A -> M State B) (done : State) :
  Eff.bind m k done
  = match m done with
    | (done', Ok a) => k a done'
    | (done', Throw e) => (done', Throw e)
    end.
Proof. reflexivity. Qed.

(** X19.  Restoring a backup that has no record throws "Backup <id> not
    found" before anything is touched: the only call made is the audit
    entry of the failure (if that insertion fails, its error is thrown
    instead and nothing at all has been done). *)
Theorem restoreBackup_unknown_id (backupId userId : string) (done : State) :
  found out = Ok None ->
  restoreBackup svc out backupId userId done
  = match audit_failed_fails out with
    | None =>
        (done ++ [AuditCreate "BACKUP_RESTORE_FAILED" userId backupId
                              (Some ("Backup " +:+ backupId +:+ " not found"))],
         Throw (Error ("Backup " +:+ backupId +:+ " not found")))
    | Some e => (done, Throw e)
    end.
Proof.
  intros Hfound. unfold restoreBackup, try_catch, Eff.bind, lift, throw, act, modify.
  rewrite Hfound. destruct (audit_failed_fails out); reflexivity.
Qed.

(** The commands of [restoreDatabase], in the order they are run. *)
Lemma restoreDatabase_unfold (backupPath dbFile : string) (done : State) :
  restoreDatabase out backupPath dbFile done
  = let wrap e := Throw (Error ("Database restoration failed: " +:+ message e)) in
    match url_fails out with
    | Some e => (done, wrap e)
    | None =>
        match drop_fails out with
        | Some e => (done, wrap e)
        | None =>
            match create_fails out with
            | Some e => (done ++ [DropDatabase], wrap e)
            | None =>
                match restore_fails out with
                | Some e => ((done ++ [DropDatabase]) ++ [CreateDatabase], wrap e)
                | None =>
                    (((done ++ [DropDatabase]) ++ [CreateDatabase])
                       ++ [PgRestore (join backupPath dbFile)], Ok tt)
                end
            end
        end
    end.
Proof.
  unfold restoreDatabase, try_catch, Eff.bind, check, act, modify, throw, ret.
  destruct (url_fails out), (drop_fails out), (create_fails out), (restore_fails out);
    reflexivity.
Qed.

(** X20.  [restoreDatabase] drops the database and creates it anew
    before it runs [pg_restore]: when that last command fails, the call
    throws "Database restoration failed: ..." with the database already
    dropped and recreated, and nothing restored into it. *)
Theorem restoreDatabase_fails_after_drop (backupPath dbFile : string) (done : State)
        (e : exn) :
  url_fails out = None -> drop_fails out = None -> create_fails out = None ->
  restore_fails out = Some e ->
  restoreDatabase out backupPath dbFile done
  = (done ++ [DropDatabase; CreateDatabase],
     Throw (Error ("Database restoration failed: " +:+ message e))).
Proof.
  intros Hu Hd Hc Hr. rewrite restoreDatabase_unfold. cbn zeta.
  rewrite Hu, Hd, Hc, Hr, <- app_assoc. reflexivity.
Qed.


Lemma only_ret {A} (P : call -> bool) (a : A) : only P (ret a).
Proof. intros done. exists []. rewrite app_nil_r. split; reflexivity. Qed.

Lemma only_throw {A} (P : call -> bool) (e : exn) : only P (@throw State A e).
Proof. intros done. exists []. rewrite app_nil_r. split; reflexivity. Qed.

Lemma only_act (P : call -> bool) (c : call) (fails : option exn) :
  (fails = None -> P c = true) -> only P (act c fails).
Proof.
  intros Hc done. destruct fails as [e | ]; cbn.
  - exists []. rewrite app_nil_r. split; reflexivity.
  - exists [c]. split; [ reflexivity | ]. cbn. rewrite Hc; reflexivity.
Qed.

Lemma only_bind_throw {A B} (P : call -> bool) (e : exn) (k : A -> M State B) :
  only P (Eff.bind (throw e) k).
Proof. intros done. exists []. rewrite app_nil_r. split; reflexivity. Qed.

Lemma only_check (P : call -> bool) (fails : option exn) : only P (check fails).
Proof. destruct fails; [ apply only_throw | apply only_ret ]. Qed.

Lemma only_bind {A B} (P : call -> bool) (m : M State A) (k : A -> M State B) :
  only P m -> (forall a, only P (k a)) -> only P (Eff.bind m k).
Proof.
  intros Hm Hk done. unfold Eff.bind.
  destruct (Hm done) as (new1 & E1 & Q1).
  destruct (m done) as [d1 [a | e]]; cbn [fst] in E1; subst d1.
  - destruct (Hk a (done ++ new1)) as (new2 & E2 & Q2).
    exists (new1 ++ new2). rewrite E2, app_assoc, forallb_app, Q1, Q2.
    split; reflexivity.
  - exists new1. split; [ reflexivity | exact Q1 ].
Qed.

(** The continuation of an awaited read only runs on what was read. *)
Lemma only_bind_lift {A B} (P : call -> bool) (r : result A) (k : A -> M State B) :
  (forall a, r = Ok a -> only P (k a)) -> only P (Eff.bind (lift r) k).
Proof.
  intros Hk done. unfold Eff.bind, lift. destruct r as [a | e].
  - exact (Hk a eq_refl done).
  - exists []. rewrite app_nil_r. split; reflexivity.
Qed.

Lemma only_try_catch {A} (P : call -> bool) (m : M State A) (h : exn -> M State A) :
  only P m -> (forall e, only P (h e)) -> only P (try_catch m h).
Proof.
  intros Hm Hh done. unfold try_catch.
  destruct (Hm done) as (new1 & E1 & Q1).
  destruct (m done) as [d1 [a | e]]; cbn [fst] in E1; subst d1.
  - exists new1. split; [ reflexivity | exact Q1 ].
  - destruct (Hh e (done ++ new1)) as (new2 & E2 & Q2).
    exists (new1 ++ new2). rewrite E2, app_assoc, forallb_app, Q1, Q2.
    split; reflexivity.
Qed.

Lemma only_download_objects (P : call -> bool) (os : list (string * option exn)) :
  (forall key, P (S3Get key) = true) -> only P (download_objects os).
Proof.
  intros HP. induction os as [ | [key fails] os IH ]; cbn [download_objects].
  - apply only_ret.
  - apply only_bind; [ apply only_act; intros _; apply HP | intros _; exact IH ].
Qed.

Lemma only_downloadFromS3 (P : call -> bool) (backupId : string) :
  (forall key, P (S3Get key) = true) -> (forall dir, P (MkdirDownload dir) = true) ->
  only P (downloadFromS3 svc out backupId).
Proof.
  intros Hget Hmk. unfold downloadFromS3.
  destruct (negb (configured svc)); [ apply only_throw | ].
  apply only_bind; [ apply only_act; intros _; apply Hmk | intros _ ].
  apply only_bind_lift. intros os _.
  apply only_bind; [ apply only_download_objects; exact Hget | intros _; apply only_ret ].
Qed.

Lemma only_restoreDatabase (P : call -> bool) (backupPath dbFile : string) :
  (forall c, touches_database c = true -> P c = true) ->
  only P (restoreDatabase out backupPath dbFile).
Proof.
  intros HP. unfold restoreDatabase.
  apply only_try_catch; [ | intros e; apply only_throw ].
  apply only_bind; [ apply only_check | intros _ ].
  apply only_bind; [ apply only_act; intros _; apply HP; reflexivity | intros _ ].
  apply only_bind; [ apply only_act; intros _; apply HP; reflexivity | intros _ ].
  apply only_act; intros _; apply HP; reflexivity.
Qed.

Lemma only_restoreUploads (P : call -> bool) (backupPath uploadsFile : string) :
  (forall file, P (Untar file) = true) ->
  only P (restoreUploads out backupPath uploadsFile).
Proof.
  intros HP. unfold restoreUploads.
  apply only_try_catch; [ | intros e; apply only_ret ].
  apply only_bind; [ apply only_check | intros _ ].
  apply only_act; intros _; apply HP.
Qed.

Lemma only_trace {A} (P : call -> bool) (m : M State A) (done new : State) :
  only P m -> fst (m done) = done ++ new -> forallb P new = true.
Proof.
  intros Hm E. destruct (Hm done) as (new' & E' & Q). rewrite E in E'.
  apply app_inv_head in E'. subst new'. exact Q.
Qed.

(** X21.  [restoreBackup] runs a database command (dropping the
    database, creating it, [pg_restore]) only when the record of the
    backup was found, the record has a location, and the metadata file
    read back names a database file; in every other run the database is
    left alone. *)
Theorem restoreBackup_database_guard (backupId userId : string) (done new : State) :
  fst (restoreBackup svc out backupId userId done) = done ++ new ->
  existsb touches_database new = true ->
  database_named out = true.
Proof.
  intros Etrace Htouch.
  destruct (database_named out) eqn:Hnamed; [ reflexivity | exfalso ].
  assert (Hquiet : only (fun c => negb (touches_database c))
                        (restoreBackup svc out backupId userId)).
  { unfold restoreBackup.
    apply only_try_catch.
    2: { intros e. apply only_bind; [ apply only_act; reflexivity | intros _; apply only_throw ]. }
    apply only_bind_lift. intros [row | ] Hfound; [ | apply only_throw ].
    unfold database_named in Hnamed. rewrite Hfound in Hnamed.
    destruct (row_location row) as [location | ]; [ | apply only_bind_throw ].
    apply only_bind.
    { destruct (startsWith "s3://" location); [ | apply only_ret ].
      apply only_downloadFromS3; reflexivity. }
    intros backupPath. apply only_bind_lift. intros files Hfiles.
    rewrite Hfiles in Hnamed. unfold option_truthy in Hnamed.
    apply only_bind.
    { destruct (database files) as [dbFile | ]; [ | apply only_ret ].
      cbn in Hnamed. rewrite Hnamed. apply only_ret. }
    intros _. apply only_bind.
    { destruct (uploads files) as [uploadsFile | ]; [ | apply only_ret ].
      destruct (truthy uploadsFile); [ | apply only_ret ].
      apply only_restoreUploads; reflexivity. }
    intros _.
    apply only_bind; [ apply only_act; reflexivity | intros _ ].
    apply only_bind; [ apply only_act; reflexivity | intros _; apply only_ret ]. }
  pose proof (only_trace _ _ _ _ Hquiet Etrace) as Hall.
  apply existsb_exists in Htouch. destruct Htouch as (c & Hin & Hc).
  rewrite forallb_forall in Hall. specialize (Hall c Hin). rewrite Hc in Hall.
  discriminate.
Qed.


Lemma audits_app (a b : State) : audits (a ++ b) = audits a ++ audits b.
Proof. unfold audits. apply List.filter_app. Qed.

Lemma audits_none (new : State) :
  forallb (fun c => negb (is_audit c)) new = true -> audits new = [].
Proof.
  induction new as [ | c new IH ]; [ reflexivity | ].
  cbn. destruct (is_audit c); cbn; [ discriminate | exact IH ].
Qed.

Lemma logs_throw {A} (entry : call) (good : A -> Prop) (e : exn) :
  logs_when_done entry good (throw e).
Proof. intros done. exists []. rewrite app_nil_r. split; reflexivity. Qed.

Lemma logs_bind {A B} (entry : call) (good : B -> Prop)
      (m : M State A) (k : A -> M State B) :
  only (fun c => negb (is_audit c)) m ->
  (forall a, logs_when_done entry good (k a)) ->
  logs_when_done entry good (Eff.bind m k).
Proof.
  intros Hm Hk done. unfold Eff.bind.
  destruct (Hm done) as (new1 & E1 & Q1). apply audits_none in Q1.
  destruct (m done) as [d1 [a | e]]; cbn [fst] in E1; subst d1.
  - destruct (Hk a (done ++ new1)) as (new2 & E2 & H2).
    exists (new1 ++ new2). rewrite E2, app_assoc, audits_app, Q1.
    split; [ reflexivity | exact H2 ].
  - exists new1. split; [ reflexivity | exact Q1 ].
Qed.

Lemma logs_entry {A} (entry : call) (good : A -> Prop) (fails : option exn) (a : A) :
  is_audit entry = true -> good a ->
  logs_when_done entry good (act entry fails ;;; ret a).
Proof.
  intros Hentry Hgood done. unfold Eff.bind, act, modify, throw, ret.
  destruct fails as [e | ]; cbn [fst snd].
  - exists []. rewrite app_nil_r. split; reflexivity.
  - exists [entry]. split; [ reflexivity | ]. unfold audits. cbn. rewrite Hentry.
    split; [ reflexivity | exact Hgood ].
Qed.

(** X22.  One run of [restoreBackup] leaves exactly one entry in the
    audit trail, or none.  When it resolves the entry is BACKUP_RESTORED
    and the value returned names the backup and the user; when it
    throws the entry is BACKUP_RESTORE_FAILED with the message of the
    error thrown, unless writing that entry failed, in which case
    nothing was logged and the error thrown is the one of that write. *)
Theorem restoreBackup_audits_once (backupId userId : string) (done : State) :
  exists new,
    fst (restoreBackup svc out backupId userId done) = done ++ new /\
    match snd (restoreBackup svc out backupId userId done) with
    | Ok r =>
        audits new = [AuditCreate "BACKUP_RESTORED" userId backupId None] /\
        restored_backupId r = backupId /\ restoredBy r = userId
    | Throw e =>
        match audit_failed_fails out with
        | None => audits new = [AuditCreate "BACKUP_RESTORE_FAILED" userId backupId
                                            (Some (message e))]
        | Some e' => e = e' /\ audits new = []
        end
    end.
Proof.
  unfold restoreBackup, try_catch.
  match goal with
  | |- context [ match ?b done with _ => _ end ] => set (body := b)
  end.
  assert (Hbody : logs_when_done (AuditCreate "BACKUP_RESTORED" userId backupId None)
                    (fun r => restored_backupId r = backupId /\ restoredBy r = userId)
                    body).
  { subst body. apply logs_bind.
    { intros d. exists []. rewrite app_nil_r. destruct (found out); split; reflexivity. }
    intros [row | ]; [ | apply logs_throw ].
    apply logs_bind.
    { destruct (row_location row) as [location | ]; [ | apply only_throw ].
      destruct (startsWith "s3://" location); [ | apply only_ret ].
      apply only_downloadFromS3; reflexivity. }
    intros backupPath. apply logs_bind.
    { intros d. exists []. rewrite app_nil_r. destruct (metadata_read out); split; reflexivity. }
    intros files. apply logs_bind.
    { destruct (database files) as [dbFile | ]; [ | apply only_ret ].
      destruct (truthy dbFile); [ | apply only_ret ].
      apply only_restoreDatabase. intros [ ]; cbn; congruence. }
    intros _. apply logs_bind.
    { destruct (uploads files) as [uploadsFile | ]; [ | apply only_ret ].
      destruct (truthy uploadsFile); [ | apply only_ret ].
      apply only_restoreUploads; reflexivity. }
    intros _. apply logs_bind; [ apply only_act; reflexivity | intros _ ].
    apply logs_entry; [ reflexivity | split; reflexivity ]. }
  destruct (Hbody done) as (new & E & H).
  destruct (body done) as [d [r | e]]; cbn [fst snd] in *; subst d.
  - exists new. split; [ reflexivity | exact H ].
  - unfold Eff.bind, act, modify, throw.
    destruct (audit_failed_fails out) as [e' | ]; cbn [fst snd].
    + exists new. split; [ reflexivity | ]. split; [ reflexivity | exact H ].
    + eexists. split; [ rewrite <- app_assoc; reflexivity | ].
      rewrite audits_app, H. reflexivity.
Qed.

(** The restore of a backup kept on the machine, when the database
    commands go well. *)
Lemma restoreBackup_local_trace (backupId userId : string) (done : State)
      (row : BackupRow) (path dbFile : string) (files : Files) :
  found out = Ok (Some row) ->
  row_location row = Some ("local:" +:+ path) ->
  metadata_read out = Ok files ->
  database files = Some dbFile ->
  truthy dbFile = true ->
  url_fails out = None -> drop_fails out = None ->
  create_fails out = None -> restore_fails out = None ->
  exists rnew,
    fst (restoreBackup svc out backupId userId done)
    = done ++ [DropDatabase; CreateDatabase; PgRestore (join path dbFile)] ++ rnew.
Proof.
  intros Hfound Hloc Hread Hdb Htruthy Hurl Hdrop Hcreate Hrestore.
  unfold restoreBackup, try_catch.
  rewrite restore_bind_unfold. unfold lift at 1. rewrite Hfound.
  rewrite restore_bind_unfold, Hloc.
  change (startsWith "s3://" ("local:" +:+ path)) with false.
  change (replace_first "local:" EmptyString ("local:" +:+ path)) with path.
  unfold ret at 1. rewrite restore_bind_unfold. unfold lift at 1. rewrite Hread.
  rewrite restore_bind_unfold, Hdb, Htruthy, restoreDatabase_unfold. cbn zeta.
  rewrite Hurl, Hdrop, Hcreate, Hrestore.
  match goal with
  | |- context [Eff.bind ?m ?k ?d] => set (rest := Eff.bind m k); set (d1 := d)
  end.
  assert (Hrest : only (fun _ => true) rest).
  { subst rest. apply only_bind.
    { destruct (uploads files) as [uploadsFile | ]; [ | apply only_ret ].
      destruct (truthy uploadsFile); [ | apply only_ret ].
      apply only_restoreUploads; reflexivity. }
    intros _. apply only_bind; [ apply only_act; reflexivity | intros _ ].
    apply only_bind; [ apply only_act; reflexivity | intros _; apply only_ret ]. }
  destruct (Hrest d1) as (new2 & E2 & _).
  destruct (rest d1) as [d2 [r | e]]; cbn [fst] in E2; subst d2 d1.
  - exists new2. cbn [fst]. rewrite <- !app_assoc. reflexivity.
  - rewrite restore_bind_unfold. unfold act, modify, throw.
    destruct (audit_failed_fails out); cbn [fst].
    + exists new2. rewrite <- !app_assoc. reflexivity.
    + eexists. rewrite <- !app_assoc. reflexivity.
Qed.

End RestoreFacts.

Section RestoreExamples.
Import JS Eff Restore.

Lemma restoreBackup_unknown_id_witness :
  restoreBackup local_service unknown_backup "backup-x" "admin-1" []
  = ([AuditCreate "BACKUP_RESTORE_FAILED" "admin-1" "backup-x"
                  (Some "Backup backup-x not found")],
     Throw (Error "Backup backup-x not found")).
Proof.
  apply (restoreBackup_unknown_id local_service unknown_backup "backup-x" "admin-1" []).
  reflexivity.
Defined.

Lemma restoreDatabase_fails_after_drop_witness :
  restoreDatabase failing_pg_restore "/srv/backups/backup-2025-05-14"
                  "database-2025-05-14.sql" []
  = ([DropDatabase; CreateDatabase],
     Throw (Error "Database restoration failed: Command failed: pg_restore")).
Proof.
  apply (restoreDatabase_fails_after_drop failing_pg_restore
           "/srv/backups/backup-2025-05-14" "database-2025-05-14.sql" []
           (Error "Command failed: pg_restore")); reflexivity.
Defined.

Lemma restoreBackup_database_guard_witness :
  database_named failing_pg_restore = true.
Proof.
  apply (restoreBackup_database_guard local_service failing_pg_restore
           "backup-2025-05-14" "admin-1" []
           [DropDatabase; CreateDatabase;
            AuditCreate "BACKUP_RESTORE_FAILED" "admin-1" "backup-2025-05-14"
              (Some "Database restoration failed: Command failed: pg_restore")]);
    reflexivity.
Defined.

End RestoreExamples.

(** ** The parts of a backup run, and a run followed by a restore *)

Section BackupMoreFacts.
Import JS Eff Backup.

Variable svc : Service.
Variable out : Outside.

(** What [remove_old] removes: directories of the listing created before
    the limit, and nothing else. *)
Lemma remove_old_trace (limit : Z) (ds : list (string * result Stat * option exn))
      (done : State) :
  exists new r,
    remove_old svc limit ds done = (done ++ new, r) /\
    Forall (fun c => exists file stats fails,
                c = Rm (join (backupDir svc) file) /\
                In (file, Ok stats, fails) ds /\
                isDirectory stats = true /\ birthtimeMs stats < limit) new.
Proof.
  revert done. induction ds as [ | [[file st] fails] ds IH ]; intros done.
  - exists [], (Ok tt). rewrite app_nil_r. split; [ reflexivity | constructor ].
  - cbn [remove_old]. rewrite bind_unfold. unfold lift at 1.
    destruct st as [stats | e].
    2: { exists [], (Throw e). rewrite app_nil_r. split; [ reflexivity | constructor ]. }
    rewrite bind_unfold.
    assert (Hlater : forall c,
               (exists file' stats' fails',
                   c = Rm (join (backupDir svc) file') /\
                   In (file', Ok stats', fails') ds /\
                   isDirectory stats' = true /\ birthtimeMs stats' < limit) ->
               exists file' stats' fails',
                 c = Rm (join (backupDir svc) file') /\
                 In (file', Ok stats', fails') ((file, Ok stats, fails) :: ds) /\
                 isDirectory stats' = true /\ birthtimeMs stats' < limit).
    { intros c (f & s & x & Ec & Hin & Hd & Hb).
      exists f, s, x. repeat split; try assumption. right. exact Hin. }
    destruct (isDirectory stats && (birthtimeMs stats <? limit)) eqn:Hold.
    + rewrite act_unfold. destruct fails as [e | ].
      * exists [], (Throw e). rewrite app_nil_r. split; [ reflexivity | constructor ].
      * destruct (IH (done ++ [Rm (join (backupDir svc) file)])) as (new & r & E & Hall).
        exists (Rm (join (backupDir svc) file) :: new), r.
        rewrite E, <- app_assoc. split; [ reflexivity | ].
        constructor.
        -- apply andb_prop in Hold. destruct Hold as [Hd Hb].
           apply Z.ltb_lt in Hb.
           exists file, stats, None. repeat split; try assumption. left. reflexivity.
        -- eapply List.Forall_impl; [ | exact Hall ]. exact Hlater.
    + unfold ret at 1. destruct (IH done) as (new & r & E & Hall).
      exists new, r. split; [ exact E | ].
      eapply List.Forall_impl; [ | exact Hall ]. exact Hlater.
Qed.

(** The calls of one cleanup: at most one deletion of records, then
    the removals of old directories. *)
Lemma cleanupOldBackups_trace (done : State) :
  exists removed,
    cleanupOldBackups svc out done
    = (done ++ match found out with
               | Ok backups =>
                   if (30 <? length backups)%nat && resolves (delete_fails out)
                   then [BackupDeleteMany (drop 30 backups)]
                   else []
               | Throw _ => []
               end ++ removed, Ok tt) /\
    Forall (fun c => exists ds file stats fails,
                local_dirs out = Ok ds /\
                c = Rm (join (backupDir svc) file) /\
                In (file, Ok stats, fails) ds /\
                isDirectory stats = true /\
                birthtimeMs stats < now_ms out - seven_days) removed.
Proof.
  unfold cleanupOldBackups, try_catch. rewrite bind_unfold. unfold lift at 1.
  destruct (found out) as [backups | e].
  2: { exists []. rewrite app_nil_r. split; [ reflexivity | constructor ]. }
  rewrite bind_unfold.
  assert (Hdirs : forall d, exists removed,
             match (ds <- lift (local_dirs out) ;;
                    remove_old svc (now_ms out - 7 * 24 * 60 * 60 * 1000) ds) d with
             | (d', Ok a) => (d', Ok a)
             | (d', Throw _) => ret tt d'
             end = (d ++ removed, Ok tt) /\
             Forall (fun c => exists ds file stats fails,
                         local_dirs out = Ok ds /\
                         c = Rm (join (backupDir svc) file) /\
                         In (file, Ok stats, fails) ds /\
                         isDirectory stats = true /\
                         birthtimeMs stats < now_ms out - seven_days) removed).
  { intros d. rewrite bind_unfold. unfold lift.
    destruct (local_dirs out) as [ds | e].
    - destruct (remove_old_trace (now_ms out - 7 * 24 * 60 * 60 * 1000) ds d)
        as (removed & r & E & Hall).
      rewrite E. exists removed. split; [ destruct r as [[] | e]; reflexivity | ].
      eapply List.Forall_impl; [ | exact Hall ].
      intros c (file & stats & fails & Ec & Hin & Hd & Hb).
      exists ds, file, stats, fails. repeat split; assumption.
    - exists []. rewrite app_nil_r. split; [ reflexivity | constructor ]. }
  destruct (30 <? length backups)%nat; cbn [andb].
  - rewrite act_unfold. destruct (delete_fails out) as [e | ]; cbn [resolves].
    + exists []. rewrite app_nil_r. split; [ reflexivity | constructor ].
    + destruct (Hdirs (done ++ [BackupDeleteMany (drop 30 backups)])) as (removed & E & Hall).
      exists removed. rewrite <- app_assoc in E. split; [ exact E | exact Hall ].
  - unfold ret at 1. destruct (Hdirs done) as (removed & E & Hall).
    exists removed. split; [ exact E | exact Hall ].
Qed.

(** X23.  The cleanup after a backup never throws, and of the records
    of the [backup] table, listed most recent first, it deletes exactly
    those after the thirtieth, in one call: nothing when there are
    thirty or fewer, when the listing fails or when the deletion
    fails. *)
Theorem cleanupOldBackups_keeps_thirty (done : State) :
  exists new,
    cleanupOldBackups svc out done = (done ++ new, Ok tt) /\
    List.filter is_delete new
    = match found out with
      | Ok backups =>
          if (30 <? length backups)%nat && resolves (delete_fails out)
          then [BackupDeleteMany (drop 30 backups)]
          else []
      | Throw _ => []
      end.
Proof.
  destruct (cleanupOldBackups_trace done) as (removed & E & Hall).
  eexists. split; [ exact E | ].
  assert (Hnone : List.filter is_delete removed = []).
  { clear E. induction Hall as [ | c removed (ds & file & stats & fails & _ & -> & _) _ IH ];
      [ reflexivity | exact IH ]. }
  rewrite List.filter_app, Hnone, app_nil_r.
  destruct (found out) as [backups | e]; [ | reflexivity ].
  destruct ((30 <? length backups)%nat && resolves (delete_fails out)); reflexivity.
Qed.

(** X24.  Of the backup directory the cleanup removes only entries
    that are directories created more than seven days before the time of
    the run: a file, or a directory of the last seven days, is never
    removed. *)
Theorem cleanupOldBackups_removes_old_directories (done new : State) (dir : string) :
  fst (cleanupOldBackups svc out done) = done ++ new ->
  In (Rm dir) new ->
  exists ds file stats fails,
    local_dirs out = Ok ds /\
    In (file, Ok stats, fails) ds /\
    dir = join (backupDir svc) file /\
    isDirectory stats = true /\
    birthtimeMs stats < now_ms out - seven_days.
Proof.
  intros Etrace Hin.
  destruct (cleanupOldBackups_trace done) as (removed & E & Hall).
  rewrite E in Etrace. cbn [fst] in Etrace. apply app_inv_head in Etrace. subst new.
  apply in_app_or in Hin. destruct Hin as [Hin | Hin].
  - exfalso. destruct (found out) as [backups | e]; [ | destruct Hin ].
    destruct ((30 <? length backups)%nat && resolves (delete_fails out));
      [ destruct Hin as [Hin | []]; discriminate | destruct Hin ].
  - rewrite List.Forall_forall in Hall.
    destruct (Hall _ Hin) as (ds & file & stats & fails & Hds & Ec & Hf & Hd & Hb).
    injection Ec as ->. exists ds, file, stats, fails. repeat split; assumption.
Qed.

(** The uploads of one run: the files of the listing up to the first
    failure, in order. *)
Lemma upload_files_trace (backupId : string) (fs : list (string * option exn))
      (done : State) :
  upload_files backupId fs done
  = (done ++ map (fun file => S3Upload (s3_key backupId file)) (ok_prefix fs),
     match fs !! length (ok_prefix fs) with
     | Some (_, Some e) => Throw e
     | _ => Ok tt
     end).
Proof.
  revert done. induction fs as [ | [file [e | ]] fs IH ]; intros done.
  - cbn. rewrite app_nil_r. reflexivity.
  - cbn. rewrite app_nil_r. reflexivity.
  - cbn [upload_files ok_prefix map length]. rewrite bind_unfold, act_unfold.
    rewrite IH, <- app_assoc. reflexivity.
Qed.

(** X25.  With S3 configured, [uploadToS3] uploads the files of the
    backup folder in the order of the listing under the keys
    backups/<backupId>/<file> and stops at the first upload that fails,
    throwing its error: the files after it are not uploaded.  It returns
    the s3:// location only when every file was uploaded. *)
Theorem uploadToS3_stops_at_first_failure (backupId backupPath : string)
        (fs : list (string * option exn)) (done : State) :
  configured svc = true ->
  listing out = Ok fs ->
  uploadToS3 svc out backupId backupPath done
  = (done ++ map (fun file => S3Upload (s3_key backupId file)) (ok_prefix fs),
     match fs !! length (ok_prefix fs) with
     | Some (_, Some e) => Throw e
     | _ => Ok (Some ("s3://" +:+ default EmptyString (bucketName svc)
                        +:+ "/backups/" +:+ backupId))
     end).
Proof.
  intros Hc Hfs. unfold uploadToS3. rewrite Hc. cbn [negb].
  rewrite bind_unfold. unfold lift. rewrite Hfs.
  rewrite bind_unfold, upload_files_trace.
  destruct (fs !! length (ok_prefix fs)) as [[file [e | ]] | ]; reflexivity.
Qed.

(** A run that resolves on a machine without S3: what it wrote and what
    it recorded. *)
Lemma createBackup_local_resolved (userId type : string) (done done' : State)
      (created : Created) :
  configured svc = false ->
  createBackup svc out userId type done = (done', Ok created) ->
  exists new meta,
    done' = done ++ new /\
    In (PgDump (join (localPath created) (database (files meta)))) new /\
    In (WriteFile (join (localPath created) "metadata.json") meta) new /\
    location (backupRecord created) = Some ("local:" +:+ localPath created) /\
    metadata (backupRecord created) = Some meta /\
    database (files meta) = "database-" +:+ stamp (now_database out) +:+ ".sql" /\
    created_backupId created = "backup-" +:+ stamp (now_id out).
Proof.
  intros Hc. unfold createBackup, try_catch.
  rewrite bind_unfold, act_unfold.
  destruct (mkdir_fails out) as [e | ].
  { rewrite bind_unfold, act_unfold. destruct (create_failed_fails out); discriminate. }
  rewrite bind_unfold, backupDatabase_unfold. cbn zeta.
  destruct (dump_fails out) as [e | ].
  { rewrite bind_unfold, act_unfold. destruct (create_failed_fails out); discriminate. }
  rewrite bind_unfold.
  match goal with
  | |- context [backupUploads out ?p ?d] =>
      destruct (backupUploads_absorbs out p d) as (up & file & Eup & _)
  end.
  rewrite Eup. rewrite bind_unfold.
  match goal with
  | |- context [getFolderSize out ?p ?d] =>
      destruct (getFolderSize_unfold out p d) as (sz & Esize)
  end.
  rewrite Esize. rewrite bind_unfold, act_unfold.
  destruct (write_fails out) as [e | ].
  { rewrite bind_unfold, act_unfold. destruct (create_failed_fails out); discriminate. }
  rewrite bind_unfold, Hc. unfold ret at 1.
  rewrite bind_unfold, act_unfold.
  destruct (create_completed_fails out) as [e | ].
  { rewrite bind_unfold, act_unfold. destruct (create_failed_fails out); discriminate. }
  rewrite bind_unfold.
  match goal with
  | |- context [cleanupOldBackups svc out ?d] =>
      destruct (cleanupOldBackups_absorbs svc out d) as (swept & Esw & _)
  end.
  rewrite Esw. unfold ret. intros H. injection H as <- <-.
  cbn [localPath backupRecord location metadata created_backupId files database].
  eexists _, _. split; [ rewrite <- !app_assoc; reflexivity | ].
  split; [ | split; [ | repeat split ] ].
  - rewrite !in_app_iff. cbn [In]. auto 10.
  - rewrite !in_app_iff. cbn [In]. auto 10.
Qed.

End BackupMoreFacts.

(** ** A backup followed by its restore, and the route that starts a backup *)

Section RoundTrip.
Import JS Eff.

(** X26.  On a machine without S3, restoring a backup that
    [createBackup] made reads the very file [pg_dump] wrote: with the
    record that run inserted, and the metadata file it wrote read back,
    [restoreBackup] strips the local: prefix of the recorded location
    and runs [pg_restore] on the dump inside the directory of the
    backup, after dropping and creating the database. *)
Theorem restoreBackup_reads_the_dump
        (svc : Backup.Service) (out : Backup.Outside) (userId type : string)
        (done done' : Backup.State) (created : Backup.Created) (meta : Backup.Metadata)
        (rsvc : Restore.Service) (rout : Restore.Outside) (row : Restore.BackupRow)
        (restorer : string) (rdone : Restore.State) :
  Backup.configured svc = false ->
  Backup.createBackup svc out userId type done = (done', Ok created) ->
  Backup.metadata (Backup.backupRecord created) = Some meta ->
  Restore.found rout = Ok (Some row) ->
  Restore.row_location row = Backup.location (Backup.backupRecord created) ->
  Restore.metadata_read rout = Ok (Restore.read_back meta) ->
  Restore.url_fails rout = None ->
  Restore.drop_fails rout = None ->
  Restore.create_fails rout = None ->
  Restore.restore_fails rout = None ->
  exists file new rnew,
    done' = done ++ new /\
    In (Backup.PgDump file) new /\
    fst (Restore.restoreBackup rsvc rout (Backup.created_backupId created) restorer rdone)
    = rdone ++ [Restore.DropDatabase; Restore.CreateDatabase; Restore.PgRestore file]
            ++ rnew.
Proof.
  intros Hlocal Hrun Hmeta Hfound Hloc Hread Hurl Hdrop Hcreate Hrestore.
  destruct (createBackup_local_resolved svc out userId type done done' created Hlocal Hrun)
    as (new & meta' & Edone & Hdump & _ & Hlocation & Hmeta' & Hfile & _).
  rewrite Hmeta in Hmeta'. injection Hmeta' as <-.
  rewrite Hlocation in Hloc.
  exists (Backup.join (Backup.localPath created) (Backup.database (Backup.files meta))), new.
  destruct (restoreBackup_local_trace rsvc rout (Backup.created_backupId created) restorer
              rdone row (Backup.localPath created) (Backup.database (Backup.files meta))
              (Restore.read_back meta) Hfound Hloc Hread eq_refl)
    as (rnew & Etrace); try assumption.
  - rewrite Hfile. reflexivity.
  - exists rnew. split; [ exact Edone | ]. split; [ exact Hdump | exact Etrace ].
Qed.

End RoundTrip.

Section RouteFacts.
Import JS Eff Backup Routes.

(** Called on the service object, the method with an explicit receiver
    is [createBackup]. *)
Lemma createBackup_on_receiver (svc : Service) (out : Outside) (userId type : string)
      (done : State) :
  createBackup_on out (Some svc) userId type done = createBackup svc out userId type done.
Proof. reflexivity. Qed.

(** X27.  POST /backup of the admin routes never makes a backup.  The
    route calls [createBackup] taken off the service object, without a
    receiver, so the method throws a TypeError at [this.backupDir]
    before it touches the file system: the only call made is the
    insertion of a failed record (none when that insertion fails), and
    the response is always a 500. *)
Theorem post_backup_never_succeeds (out : Outside) (userId : string) (done : State) :
  exists new,
    post_backup out userId done
    = (done ++ new,
       Json500 match create_failed_fails out with
               | None => "Cannot read properties of undefined (reading 'backupDir')"
               | Some e => message e
               end) /\
    forallb is_record new = true /\
    map (fun d => (status d, createdById d)) (persisted new)
    = (if resolves (create_failed_fails out) then [("failed", userId)] else []).
Proof.
  unfold post_backup, createBackup_on, try_catch, receiver.
  rewrite bind_unfold. unfold throw at 1.
  rewrite bind_unfold, act_unfold.
  destruct (create_failed_fails out) as [e | ]; cbn [resolves].
  - exists []. rewrite app_nil_r. repeat split; reflexivity.
  - eexists [_]. repeat split; reflexivity.
Qed.

End RouteFacts.

Section BackupMoreExamples.
Import JS Eff.

Lemma cleanupOldBackups_removes_old_directories_witness :
  exists ds file stats fails,
    Backup.local_dirs Backup.interrupted_upload = Ok ds /\
    In (file, Ok stats, fails) ds /\
    "/srv/backups/backup-2025-05-01T00-00-00-000Z" = Backup.join "/srv/backups" file /\
    Backup.isDirectory stats = true /\
    Backup.birthtimeMs stats < 1747180802000 - Backup.seven_days.
Proof.
  apply (cleanupOldBackups_removes_old_directories Backup.s3_service
           Backup.interrupted_upload []
           [Backup.BackupDeleteMany [31; 32];
            Backup.Rm "/srv/backups/backup-2025-05-01T00-00-00-000Z"]
           "/srv/backups/backup-2025-05-01T00-00-00-000Z").
  - vm_compute. reflexivity.
  - simpl. right. left. reflexivity.
Defined.

Lemma uploadToS3_stops_at_first_failure_witness :
  Backup.uploadToS3 Backup.s3_service Backup.interrupted_upload "backup-7"
                    "/srv/backups/backup-7" []
  = ([Backup.S3Upload "backups/backup-7/database-2025-05-14T00-00-00-010Z.sql"],
     Throw (Error "RequestTimeout")).
Proof.
  apply (uploadToS3_stops_at_first_failure Backup.s3_service Backup.interrupted_upload
           "backup-7" "/srv/backups/backup-7"
           [("database-2025-05-14T00-00-00-010Z.sql", None);
            ("metadata.json", Some (Error "RequestTimeout"));
            ("uploads-2025-05-14T00-00-01-000Z.tar.gz", None)] []);
    reflexivity.
Defined.

Lemma restoreBackup_reads_the_dump_witness :
  exists file new rnew,
    Restore.soft_failures_done = [] ++ new /\
    In (Backup.PgDump file) new /\
    fst (Restore.restoreBackup Restore.local_service Restore.after_soft_failures
           (Backup.created_backupId Restore.soft_failures_created) "admin-2" [])
    = [] ++ [Restore.DropDatabase; Restore.CreateDatabase; Restore.PgRestore file] ++ rnew.
Proof.
  apply (restoreBackup_reads_the_dump Backup.local_service Backup.soft_failures
           "admin-1" "full" [] Restore.soft_failures_done Restore.soft_failures_created
           Restore.soft_failures_metadata Restore.local_service
           Restore.after_soft_failures
           {| Restore.row_id := 1;
              Restore.row_location :=
                Some "local:/srv/backups/backup-2025-05-14T00-00-00-000Z" |}
           "admin-2" []).
  - reflexivity.
  - vm_compute. reflexivity.
  - reflexivity.
  - reflexivity.
  - reflexivity.
  - reflexivity.
  - reflexivity.
  - reflexivity.
  - reflexivity.
  - reflexivity.
Defined.

End BackupMoreExamples.

(** ** Backup codes and masked phone numbers *)

Section TwoFactorFacts.
Import JS Eff TwoFactor.

Lemma length_append (a b : string) :
  String.length (a +:+ b) = (String.length a + String.length b)%nat.
Proof.
  induction a as [ | c a IH ]; [ reflexivity | ].
  change (String.length (String c a +:+ b)) with (S (String.length (a +:+ b))).
  rewrite IH. reflexivity.
Qed.

Lemma substring_from_append (a b : string) :
  substring_from (String.length a) (a +:+ b) = b.
Proof. induction a as [ | c a IH ]; [ destruct b; reflexivity | exact IH ]. Qed.

(** X28.  [maskPhone] shows the first three and the last two
    characters of a number and nothing of what lies between them: the
    result is those five characters around four stars, whatever the
    middle and however long it is. *)
Theorem maskPhone_hides_middle (prefix middle suffix : string) :
  String.length prefix = 3%nat ->
  String.length suffix = 2%nat ->
  maskPhone (Some (prefix +:+ middle +:+ suffix)) = prefix +:+ "****" +:+ suffix.
Proof.
  intros Hp Hs.
  destruct prefix as [ | a [ | b [ | c [ | d prefix ] ] ] ]; try discriminate.
  unfold maskPhone.
  change (String a (String b (String c EmptyString)) +:+ middle +:+ suffix)
    with (String a (String b (String c (middle +:+ suffix)))).
  cbn [truthy negb orb].
  set (rest := middle +:+ suffix).
  assert (Hrest : String.length rest = (String.length middle + 2)%nat).
  { subst rest. rewrite length_append, Hs. reflexivity. }
  cbn [String.length]. rewrite Hrest.
  replace (S (S (S (String.length middle + 2))) <? 4)%nat with false
    by (symmetry; apply Nat.ltb_ge; lia).
  replace (S (S (S (String.length middle + 2))) - 2)%nat
    with (S (S (S (String.length middle)))) by lia.
  cbn [substring_from]. subst rest. rewrite substring_from_append.
  cbn [String.substring]. destruct (middle +:+ suffix); reflexivity.
Qed.

Variable hashCode : string -> string.

Lemma find_none_iff {A} (f : A -> bool) (l : list A) :
  (forall x, In x l -> f x = false) -> List.find f l = None.
Proof.
  induction l as [ | a l IH ]; intros H; cbn; [ reflexivity | ].
  rewrite (H a (or_introl eq_refl)). apply IH. intros x Hx. apply H. right. exact Hx.
Qed.

Lemma find_exists {A} (f : A -> bool) (l : list A) (x : A) :
  In x l -> f x = true -> exists y, List.find f l = Some y.
Proof.
  induction l as [ | a l IH ]; intros Hin Hf; [ destruct Hin | ].
  cbn. destruct (f a) eqn:Ha; [ exists a; reflexivity | ].
  destruct Hin as [-> | Hin]; [ congruence | exact (IH Hin Hf) ].
Qed.

Lemma find_app_some {A} (f : A -> bool) (l1 l2 : list A) (x : A) :
  List.find f l1 = Some x -> List.find f (l1 ++ l2) = Some x.
Proof.
  induction l1 as [ | a l1 IH ]; cbn; [ discriminate | ].
  destruct (f a); [ trivial | exact IH ].
Qed.

(** The loop accepts the first row whose hash is that of the code, marks
    the rows with its key and logs the use; without such a row it
    rejects and changes nothing. *)
Lemma verify_loop_find (userId code : string) (now : Z) (rows : list BackupCode)
      (s : System) :
  (forall r, In r rows -> In r (backupCodes s)) ->
  verify_loop hashCode userId code now rows s
  = match List.find (fun r => verifyHash hashCode code (codeHash r)) rows with
    | Some r =>
        ({| backupCodes := map (fun x => if code_id x =? code_id r then mark_used now x else x)
                               (backupCodes s);
            auditLog := auditLog s ++ [used_entry userId (code_id r)] |},
         Ok (Accepted (code_id r)))
    | None => (s, Ok (Rejected "Invalid backup code"))
    end.
Proof.
  induction rows as [ | r rows IH ]; intros Hsub; [ reflexivity | ].
  cbn [verify_loop List.find].
  destruct (verifyHash hashCode code (codeHash r)) eqn:Hr.
  - unfold Eff.bind, lift, set_codes, log_audit, modify, ret, update_used.
    assert (Hex : existsb (fun x => code_id x =? code_id r) (backupCodes s) = true).
    { apply existsb_exists. exists r. split; [ apply Hsub; left; reflexivity | ].
      apply Z.eqb_refl. }
    rewrite Hex. reflexivity.
  - apply IH. intros x Hx. apply Hsub. right. exact Hx.
Qed.

Lemma verifyBackupCode_find (userId code : string) (now : Z) (s : System) :
  verifyBackupCode hashCode userId code now s
  = match List.find (fun r => verifyHash hashCode code (codeHash r))
                    (findMany_unused userId (backupCodes s)) with
    | Some r =>
        ({| backupCodes := map (fun x => if code_id x =? code_id r then mark_used now x else x)
                               (backupCodes s);
            auditLog := auditLog s ++ [used_entry userId (code_id r)] |},
         Ok (Accepted (code_id r)))
    | None => (s, Ok (Rejected "Invalid backup code"))
    end.
Proof.
  unfold verifyBackupCode, try_catch. rewrite verify_loop_find.
  - destruct (List.find _ _); reflexivity.
  - intros r Hr. apply List.filter_In in Hr. exact (proj1 Hr).
Qed.

Lemma same_hash_same_row (l : list BackupCode) (a b : BackupCode) :
  NoDup (map codeHash l) -> In a l -> In b l -> codeHash a = codeHash b -> a = b.
Proof.
  induction l as [ | x l IH ]; intros Hnd Ha Hb E; [ destruct Ha | ].
  cbn in Hnd. apply NoDup_cons in Hnd. destruct Hnd as [Hx Hnd].
  destruct Ha as [-> | Ha], Hb as [-> | Hb].
  - reflexivity.
  - exfalso. apply Hx. rewrite E. apply list_elem_of_In, in_map. exact Hb.
  - exfalso. apply Hx. rewrite <- E. apply list_elem_of_In, in_map. exact Ha.
  - exact (IH Hnd Ha Hb E).
Qed.

(** X29.  A backup code works once.  When the unused codes of a
    member have distinct hashes and [verifyBackupCode] accepts a code,
    the row it names was an unused row of that member with the hash of
    the code, and a second verification of the same code, at any later
    time, is rejected with Invalid backup code and changes nothing. *)
Theorem verifyBackupCode_single_use (userId code : string) (now later : Z)
        (s s' : System) (id : Z) :
  NoDup (map codeHash (findMany_unused userId (backupCodes s))) ->
  verifyBackupCode hashCode userId code now s = (s', Ok (Accepted id)) ->
  (exists row, In row (backupCodes s) /\ code_id row = id /\ code_userId row = userId /\
               used row = false /\ codeHash row = hashCode code) /\
  verifyBackupCode hashCode userId code later s'
  = (s', Ok (Rejected "Invalid backup code")).
Proof.
  intros Hnd Hrun. rewrite verifyBackupCode_find in Hrun.
  destruct (List.find _ (findMany_unused userId (backupCodes s))) as [r | ] eqn:Hfind;
    [ | discriminate ].
  injection Hrun as <- <-.
  apply List.find_some in Hfind. destruct Hfind as [Hr Hhash].
  pose proof Hr as Hr'. apply List.filter_In in Hr'. destruct Hr' as [Hin Hunused].
  unfold is_unused_of in Hunused. apply andb_prop in Hunused.
  destruct Hunused as [Huser Hused].
  apply String.eqb_eq in Huser. apply negb_true_iff in Hused.
  unfold verifyHash in Hhash. apply String.eqb_eq in Hhash.
  split.
  { exists r. repeat split; try assumption. symmetry. exact Hhash. }
  rewrite verifyBackupCode_find. cbn [backupCodes auditLog].
  rewrite find_none_iff; [ reflexivity | ].
  intros r2 Hr2. apply List.filter_In in Hr2. destruct Hr2 as [Hin2 Hunused2].
  apply in_map_iff in Hin2. destruct Hin2 as (x & Ex & Hx).
  destruct (code_id x =? code_id r) eqn:Hid.
  - subst r2. unfold is_unused_of in Hunused2. cbn in Hunused2.
    rewrite andb_false_r in Hunused2. discriminate.
  - subst r2. unfold verifyHash. apply String.eqb_neq. intros Hsame.
    assert (x = r) as ->.
    { apply (same_hash_same_row _ _ _ Hnd).
      - apply List.filter_In. split; assumption.
      - exact Hr.
      - congruence. }
    rewrite Z.eqb_refl in Hid. discriminate.
Qed.

Lemma createMany_appends (userId : string) (hashes : list string) (t : list BackupCode) :
  exists rows,
    createMany userId hashes t = t ++ rows /\
    map codeHash rows = hashes /\
    Forall (fun r => is_unused_of userId r = true) rows.
Proof.
  revert t. induction hashes as [ | hash hashes IH ]; intros t.
  - exists []. rewrite app_nil_r. repeat split. constructor.
  - cbn [createMany].
    destruct (IH (t ++ [ {| code_id := next_id t; code_userId := userId; codeHash := hash;
                            used := false; usedAt := None |} ]))
      as (rows & E & Hh & Hall).
    eexists (_ :: rows). rewrite E, <- app_assoc. split; [ reflexivity | ].
    split; [ cbn; rewrite Hh; reflexivity | ].
    constructor; [ | exact Hall ].
    unfold is_unused_of. cbn. rewrite String.eqb_refl. reflexivity.
Qed.

(** X30.  After [generateBackupCodes] every one of the ten codes it
    returns is accepted by [verifyBackupCode] for that member, and a
    code that was accepted before the new ones were made is accepted
    still: making new codes does not revoke the old ones. *)
Theorem generateBackupCodes_then_verify (userId : string) (random : nat -> string)
        (generated : string) (now : Z) (s s1 : System) (made : Generated) :
  generateBackupCodes hashCode userId random generated s = (s1, Ok made) ->
  length (codes made) = 10%nat /\
  (forall code, In code (codes made) ->
     exists id, snd (verifyBackupCode hashCode userId code now s1) = Ok (Accepted id)) /\
  (forall code id,
     snd (verifyBackupCode hashCode userId code now s) = Ok (Accepted id) ->
     snd (verifyBackupCode hashCode userId code now s1) = Ok (Accepted id)).
Proof.
  intros Hrun.
  assert (Hten : length (map random (seq 0 10)) = 10%nat) by reflexivity.
  assert (Erun : generateBackupCodes hashCode userId random generated s
                 = ({| backupCodes := createMany userId (map hashCode (map random (seq 0 10)))
                                                 (backupCodes s);
                       auditLog := auditLog s |},
                    Ok {| codes := map random (seq 0 10); generatedAt := generated |}))
    by reflexivity.
  rewrite Erun in Hrun. clear Erun.
  set (cs := map random (seq 0 10)) in *. clearbody cs.
  injection Hrun as <- <-.
  change (codes {| codes := cs; generatedAt := generated |}) with cs.
  destruct (createMany_appends userId (map hashCode cs) (backupCodes s))
    as (rows & E & Hh & Hall).
  split; [ exact Hten | ]. split.
  - intros code Hcode.
    assert (Hrow : exists r, In r rows /\ codeHash r = hashCode code).
    { assert (Hin : In (hashCode code) (map codeHash rows)).
      { rewrite Hh. apply in_map. exact Hcode. }
      apply in_map_iff in Hin. destruct Hin as (r & Er & Hr). exists r. split; assumption. }
    destruct Hrow as (r & Hr & Er).
    rewrite verifyBackupCode_find.
    change (backupCodes {| backupCodes := createMany userId (map hashCode cs) (backupCodes s);
                           auditLog := auditLog s |})
      with (createMany userId (map hashCode cs) (backupCodes s)).
    rewrite E.
    destruct (find_exists (fun x => verifyHash hashCode code (codeHash x))
                (findMany_unused userId (backupCodes s ++ rows)) r)
      as (y & Ey).
    + apply List.filter_In. split; [ apply in_or_app; right; exact Hr | ].
      rewrite List.Forall_forall in Hall. exact (Hall r Hr).
    + unfold verifyHash. rewrite Er. apply String.eqb_refl.
    + rewrite Ey. exists (code_id y). reflexivity.
  - intros code id. rewrite !verifyBackupCode_find.
    change (backupCodes {| backupCodes := createMany userId (map hashCode cs) (backupCodes s);
                           auditLog := auditLog s |})
      with (createMany userId (map hashCode cs) (backupCodes s)).
    destruct (List.find _ (findMany_unused userId (backupCodes s))) as [r | ] eqn:Hfind;
      [ | discriminate ].
    rewrite E. unfold findMany_unused. rewrite List.filter_app.
    rewrite (find_app_some _ _ _ _ Hfind). trivial.
Qed.

End TwoFactorFacts.

Section TwoFactorExamples.
Import JS Eff TwoFactor.

Lemma maskPhone_hides_middle_witness :
  maskPhone (Some "08031234578") = "080****78".
Proof.
  apply (maskPhone_hides_middle "080" "312345" "78"); reflexivity.
Defined.

Lemma verifyBackupCode_single_use_witness :
  (exists row, In row (backupCodes two_members) /\ code_id row = 3 /\
               code_userId row = "member-1" /\ used row = false /\
               codeHash row = tagged "BBBB2222") /\
  verifyBackupCode tagged "member-1" "BBBB2222" 2000
    (fst (verifyBackupCode tagged "member-1" "BBBB2222" 1000 two_members))
  = (fst (verifyBackupCode tagged "member-1" "BBBB2222" 1000 two_members),
     Ok (Rejected "Invalid backup code")).
Proof.
  apply (verifyBackupCode_single_use tagged "member-1" "BBBB2222" 1000 2000 two_members).
  - apply (bool_decide_unpack _). vm_compute. exact I.
  - reflexivity.
Defined.

Lemma generateBackupCodes_then_verify_witness :
  length (map drawn (seq 0 10)) = 10%nat /\
  (forall code, In code (map drawn (seq 0 10)) ->
     exists id,
       snd (verifyBackupCode tagged "member-2" code 1000
              (fst (generateBackupCodes tagged "member-2" drawn "2025-05-14T00:00:00.000Z"
                      two_members)))
       = Ok (Accepted id)) /\
  (forall code id,
     snd (verifyBackupCode tagged "member-2" code 1000 two_members) = Ok (Accepted id) ->
     snd (verifyBackupCode tagged "member-2" code 1000
            (fst (generateBackupCodes tagged "member-2" drawn "2025-05-14T00:00:00.000Z"
                    two_members)))
     = Ok (Accepted id)).
Proof.
  apply (generateBackupCodes_then_verify tagged "member-2" drawn "2025-05-14T00:00:00.000Z"
           1000 two_members _ {| codes := map drawn (seq 0 10);
                                 generatedAt := "2025-05-14T00:00:00.000Z" |}).
  reflexivity.
Defined.

End TwoFactorExamples.
